(** * ModbusClientRTU: queue, worker loop, send/receive engine and CRC

    A shallow embedding of [src/ModbusClientRTU.cpp].  Unsigned C++
    integers are [Z] with the wrap-around written out; byte buffers are
    [list Z]; the request objects live in a heap ([gmap]) and the queue
    holds their addresses; the serial line, the pin and the two clocks
    are an oracle-driven [World] threaded by a small error/state monad;
    the caller tasks and the worker task interleave step by step. *)

From Stdlib Require Import ZArith List Lia Bool.
From stdpp Require Import base option list gmap.
Import ListNotations.
Local Open Scope Z_scope.

(* ===================================================================== *)
(** ** Fixed-width integers *)
(* ===================================================================== *)

Definition uint8  (x : Z) : Z := x mod 256.
Definition uint16 (x : Z) : Z := x mod 65536.
Definition uint32 (x : Z) : Z := x mod 4294967296.

Definition is_byte (b : Z) : Prop := 0 <= b < 256.
Definition is_u16 (c : Z) : Prop := 0 <= c < 65536.

(* ===================================================================== *)
(** ** CRC engine *)
(* ===================================================================== *)

Module RTUCRC.

(** Modelled from the spec: [RTUCRC::calcCRC] is defined outside
    [ModbusClientRTU.cpp].  The spec describes it as the stateless
    function [crc16(bytes) -> u16] implementing the Modbus polynomial
    (0xA001, reversed); this is the bit-serial form of that checksum,
    started from the Modbus preset 0xFFFF. *)
Definition crc_shift (c : Z) : Z :=
  if Z.odd c then Z.lxor (Z.shiftr c 1) 0xA001 else Z.shiftr c 1.

Definition crc_byte (c b : Z) : Z :=
  Nat.iter 8 crc_shift (Z.lxor c b).

Definition crc_from (c : Z) (bytes : list Z) : Z := fold_left crc_byte bytes c.

Definition calcCRC (bytes : list Z) : Z := crc_from 0xFFFF bytes.

(** Inverse of one shift step, used to show that a step loses nothing. *)
Definition crc_unshift (r : Z) : Z :=
  if Z.testbit r 15 then 2 * Z.lxor r 0xA001 + 1 else 2 * r.

End RTUCRC.

(** The two CRC bytes as every sender in the file puts them on the wire:
    [crc & 0xFF] first, then [(crc >> 8) & 0xFF]
    ([send], [vectorize], [generateErrorResponse]). *)
Definition crc_lo (crc : Z) : Z := Z.land crc 0xFF.
Definition crc_hi (crc : Z) : Z := Z.land (Z.shiftr crc 8) 0xFF.

Definition append_crc (calc : list Z -> Z) (frame : list Z) : list Z :=
  frame ++ [crc_lo (calc frame); crc_hi (calc frame)].

(** [receive], DATA_READ: the buffer without its last two bytes is the
    message, [buffer[bufferPtr - 2] | (buffer[bufferPtr - 1] << 8)] is the
    CRC handed to [setCRC]. *)
Definition rx_message (buffer : list Z) : list Z :=
  take (length buffer - 2) buffer.

Definition rx_crc (buffer : list Z) : Z :=
  Z.lor (nth (length buffer - 2) buffer 0)
        (Z.shiftl (nth (length buffer - 1) buffer 0) 8).

(** Flip bit [j] of byte [k] of a buffer. *)
Definition flip_bit (k j : nat) (buffer : list Z) : list Z :=
  alter (fun b => Z.lxor b (Z.shiftl 1 (Z.of_nat j))) k buffer.

(* ===================================================================== *)
(** ** Error codes, requests and responses *)
(* ===================================================================== *)

(** [enum Error : uint8_t]: an error is its byte. *)
Definition Error := Z.

(** The enumerators used by [ModbusClientRTU.cpp] are declared in a
    header outside this file, so their values are parameters: distinct
    bytes. *)
Class ErrorCodes := {
  SUCCESS : Error;
  TIMEOUT : Error;
  CRC_ERROR : Error;
  FC_MISMATCH : Error;
  SERVER_ID_MISMATCH : Error;
  PACKET_LENGTH_ERROR : Error;
  REQUEST_QUEUE_FULL : Error;
  codes_bytes :
    Forall is_byte [SUCCESS; TIMEOUT; CRC_ERROR; FC_MISMATCH; SERVER_ID_MISMATCH;
                    PACKET_LENGTH_ERROR; REQUEST_QUEUE_FULL];
  codes_distinct :
    NoDup [SUCCESS; TIMEOUT; CRC_ERROR; FC_MISMATCH; SERVER_ID_MISMATCH;
           PACKET_LENGTH_ERROR; REQUEST_QUEUE_FULL]
}.

(** An instance for the examples below: success is 0 and the client's
    own errors sit in the 0xE0 block. *)
Definition example_codes : ErrorCodes.
Proof.
  refine {| SUCCESS := 0x00; TIMEOUT := 0xE0; CRC_ERROR := 0xE2; FC_MISMATCH := 0xE3;
            SERVER_ID_MISMATCH := 0xE4; PACKET_LENGTH_ERROR := 0xE5;
            REQUEST_QUEUE_FULL := 0xE8 |}.
  - repeat (apply List.Forall_cons; [unfold is_byte; lia|]). apply List.Forall_nil.
  - apply NoDup_ListNoDup.
    repeat (apply List.NoDup_cons; [simpl; intuition lia|]). apply List.NoDup_nil.
Defined.

Module RTURequest.

(** Modelled from the spec: class [RTURequest] is declared outside
    [ModbusClientRTU.cpp].  Following the spec's data model, a request
    holds the server id, the function code, the serialized payload, the
    CRC computed at construction and the caller's token; [data()] is
    [serverId, functionCode, payload] and [len()] its length. *)
Record t := mk {
  serverID : Z;
  functionCode : Z;
  payload : list Z;
  CRC : Z;
  token : Z
}.

Definition getServerID (r : t) : Z := serverID r.
Definition getFunctionCode (r : t) : Z := functionCode r.
Definition getToken (r : t) : Z := token r.
Definition data (r : t) : list Z := serverID r :: functionCode r :: payload r.
Definition len (r : t) : Z := Z.of_nat (length (data r)).

End RTURequest.

Module RTUResponse.

(** Modelled from the spec: class [RTUResponse] is declared outside
    [ModbusClientRTU.cpp].  Following the spec's data model, a response
    is a byte buffer without the trailing CRC bytes plus the CRC value;
    [serverId = bytes[0]], [functionCode = bytes[1]], the high bit of
    the function code marks an error frame and [errorCode = bytes[2]]
    when it is one; the CRC is valid when it matches the CRC computed
    over the bytes. *)
Record t := mk {
  bytes : list Z;
  CRC : Z
}.

Definition data (r : t) : list Z := bytes r.
Definition len (r : t) : Z := Z.of_nat (length (bytes r)).
Definition getServerID (r : t) : Z := nth 0 (bytes r) 0.
Definition getFunctionCode (r : t) : Z := nth 1 (bytes r) 0.

Definition getError `{EC : ErrorCodes} (r : t) : Error :=
  if Z.testbit (getFunctionCode r) 7 then nth 2 (bytes r) 0 else SUCCESS.

(** [new RTUResponse(n)] is an empty response, [add] appends. *)
Definition new : t := mk [] 0.
Definition add (b : Z) (r : t) : t := mk (bytes r ++ [b]) (CRC r).
Definition add_many (bs : list Z) (r : t) : t := mk (bytes r ++ bs) (CRC r).
Definition setCRC (crc : Z) (r : t) : t := mk (bytes r) (uint16 crc).
Definition isValidCRC (calcCRC : list Z -> Z) (r : t) : bool :=
  CRC r =? uint16 (calcCRC (bytes r)).

End RTUResponse.

(** The CRC check of DATA_READ on a plain buffer: split off the CRC, put
    the rest into a response, compare. *)
Definition crc_valid (calc : list Z -> Z) (buffer : list Z) : bool :=
  RTUResponse.isValidCRC calc
    (RTUResponse.setCRC (rx_crc buffer)
       (RTUResponse.add_many (rx_message buffer) RTUResponse.new)).

(* ===================================================================== *)
(** ** The platform: clocks, serial line, pin, handlers *)
(* ===================================================================== *)

(** Everything the client does to the outside, oldest first. *)
Inductive IOEvent :=
  | EvPinMode (pin : Z)
  | EvDigitalWrite (pin : Z) (high : bool)
  | EvTaskCreate
  | EvDelayMicroseconds (us : Z)
  | EvDelay (ms : Z)
  | EvSerialWrite (bytes : list Z)
  | EvSerialFlush
  | EvOnData (serverID functionCode : Z) (data : list Z) (len : Z) (token : Z)
  | EvOnError (err : Error) (token : Z).

(** The outside as an oracle: the successive answers of [micros()] and
    [millis()] (true times, not yet truncated to 32 bits), of
    [MR_serial.available()] and of [MR_serial.read()], and the trace of
    what was done so far.  An exhausted oracle ends the run. *)
Record World := mkWorld {
  w_micros : list Z;
  w_millis : list Z;
  w_available : list Z;
  w_read : list Z;
  w_trace : list IOEvent
}.

Definition M (A : Type) : Type := World -> option (A * World).

Definition ret {A} (a : A) : M A := fun w => Some (a, w).
Definition fail {A} : M A := fun _ => None.
Definition bind {A B} (m : M A) (k : A -> M B) : M B :=
  fun w => match m w with Some (a, w') => k a w' | None => None end.

Declare Scope io_scope.
Delimit Scope io_scope with io.
Notation "x <- m ;; k" := (bind m (fun x => k))
  (at level 20, m at level 99, k at level 200, only parsing) : io_scope.
Notation "' p <- m ;; k" := (bind m (fun p => k))
  (at level 20, p pattern, m at level 99, k at level 200, only parsing) : io_scope.
Notation "m ;; k" := (bind m (fun _ => k))
  (at level 100, k at level 200, only parsing, right associativity) : io_scope.
Local Open Scope io_scope.

Definition emit (e : IOEvent) : M unit :=
  fun w => Some (tt, mkWorld (w_micros w) (w_millis w) (w_available w) (w_read w)
                             (w_trace w ++ [e])).

(** [unsigned long micros()] and [millis()], 32 bits on the target. *)
Definition micros : M Z :=
  fun w => match w_micros w with
           | t :: ts => Some (uint32 t, mkWorld ts (w_millis w) (w_available w) (w_read w) (w_trace w))
           | [] => None
           end.

Definition millis : M Z :=
  fun w => match w_millis w with
           | t :: ts => Some (uint32 t, mkWorld (w_micros w) ts (w_available w) (w_read w) (w_trace w))
           | [] => None
           end.

Definition serial_available : M Z :=
  fun w => match w_available w with
           | n :: ns => Some (n, mkWorld (w_micros w) (w_millis w) ns (w_read w) (w_trace w))
           | [] => None
           end.

Definition serial_read : M Z :=
  fun w => match w_read w with
           | b :: bs => Some (b, mkWorld (w_micros w) (w_millis w) (w_available w) bs (w_trace w))
           | [] => None
           end.

(** How many clock readings, and how many answers of [available()], the
    oracle still holds: the bounds of the loops that consume them. *)
Definition micros_left : M nat := fun w => Some (length (w_micros w), w).
Definition available_left : M nat := fun w => Some (length (w_available w), w).

Definition delayMicroseconds (us : Z) : M unit := emit (EvDelayMicroseconds us).
Definition delay (ms : Z) : M unit := emit (EvDelay ms).
Definition digitalWrite (pin : Z) (high : bool) : M unit := emit (EvDigitalWrite pin high).
Definition pinMode (pin : Z) : M unit := emit (EvPinMode pin).
Definition serial_write (bs : list Z) : M unit := emit (EvSerialWrite bs).
Definition serial_flush : M unit := emit EvSerialFlush.

(* ===================================================================== *)
(** ** The client object *)
(* ===================================================================== *)

(** A request pointer is an address in the heap of request objects. *)
Abbreviation ptr := nat (only parsing).

Record ModbusClientRTU := mkClient {
  MR_lastMicros : Z;          (* unsigned long *)
  MR_interval : Z;            (* uint32_t *)
  MR_rtsPin : Z;              (* int8_t, negative when no pin is used *)
  MR_qLimit : Z;              (* uint16_t *)
  MR_timeoutValue : Z;        (* uint32_t *)
  requests : list ptr;        (* std::queue<RTURequest *>, front first *)
  messageCount : Z;           (* uint32_t, inherited from ModbusClient *)
  onData : bool;              (* is a data handler registered? *)
  onError : bool              (* is an error handler registered? *)
}.

Definition set_lastMicros (v : Z) (c : ModbusClientRTU) : ModbusClientRTU :=
  mkClient v (MR_interval c) (MR_rtsPin c) (MR_qLimit c) (MR_timeoutValue c)
           (requests c) (messageCount c) (onData c) (onError c).
Definition set_interval (v : Z) (c : ModbusClientRTU) : ModbusClientRTU :=
  mkClient (MR_lastMicros c) v (MR_rtsPin c) (MR_qLimit c) (MR_timeoutValue c)
           (requests c) (messageCount c) (onData c) (onError c).
Definition set_timeoutValue (v : Z) (c : ModbusClientRTU) : ModbusClientRTU :=
  mkClient (MR_lastMicros c) (MR_interval c) (MR_rtsPin c) (MR_qLimit c) v
           (requests c) (messageCount c) (onData c) (onError c).
Definition set_requests (v : list ptr) (c : ModbusClientRTU) : ModbusClientRTU :=
  mkClient (MR_lastMicros c) (MR_interval c) (MR_rtsPin c) (MR_qLimit c) (MR_timeoutValue c)
           v (messageCount c) (onData c) (onError c).
Definition set_messageCount (v : Z) (c : ModbusClientRTU) : ModbusClientRTU :=
  mkClient (MR_lastMicros c) (MR_interval c) (MR_rtsPin c) (MR_qLimit c) (MR_timeoutValue c)
           (requests c) v (onData c) (onError c).

(** [begin]: pin set-up, worker task, inter-frame interval.  [baudRate]
    is what [MR_serial.baudRate()] answers; dividing by a zero baud rate
    is undefined, so the run ends there. *)
Definition begin (baudRate : Z) (c : ModbusClientRTU) : M ModbusClientRTU :=
  (if 0 <=? MR_rtsPin c
   then pinMode (MR_rtsPin c) ;; digitalWrite (MR_rtsPin c) false
   else ret tt) ;;
  emit EvTaskCreate ;;
  if baudRate =? 0 then fail else
  let interval := uint32 (40000000 / baudRate) in
  ret (set_interval (if interval <? 1000 then 1000 else interval) c).

(** [setTimeout] *)
Definition setTimeout (TOV : Z) (c : ModbusClientRTU) : ModbusClientRTU :=
  set_timeoutValue TOV c.

(* ===================================================================== *)
(** ** Transmit/receive engine *)
(* ===================================================================== *)

Section Engine.
Context `{EC : ErrorCodes}.
(** [RTUCRC::calcCRC], defined outside this file. *)
Variable calcCRC : list Z -> Z.

(** [while (micros() - MR_lastMicros < MR_interval) delayMicroseconds(1);] *)
Fixpoint send_wait (fuel : nat) (c : ModbusClientRTU) : M unit :=
  now <- micros ;;
  if uint32 (now - MR_lastMicros c) <? MR_interval c
  then match fuel with
       | O => fail
       | S fuel' => delayMicroseconds 1 ;; send_wait fuel' c
       end
  else ret tt.

(** [send].  Every turn of the waiting loop takes one clock reading, so
    the readings left in the oracle bound the number of turns. *)
Definition send (request : RTURequest.t) (c : ModbusClientRTU) : M ModbusClientRTU :=
  turns <- micros_left ;;
  send_wait turns c ;;
  (if 0 <=? MR_rtsPin c then digitalWrite (MR_rtsPin c) true else ret tt) ;;
  serial_write (RTURequest.data request) ;;
  serial_write [crc_lo (RTURequest.CRC request)] ;;
  serial_write [crc_hi (RTURequest.CRC request)] ;;
  serial_flush ;;
  (if 0 <=? MR_rtsPin c then digitalWrite (MR_rtsPin c) false else ret tt) ;;
  now <- micros ;;
  ret (set_lastMicros now c).

Inductive STATES :=
  WAIT_INTERVAL | WAIT_DATA | IN_PACKET | DATA_READ | ERROR_EXIT | FINISHED.

Definition BUFBLOCKSIZE : Z := 128.

(** Locals of [receive].  [buffer] holds the bytes stored so far, so
    [bufferPtr] is its length; [response = None] is the null pointer. *)
Record RxLocals := mkRx {
  buffer : list Z;
  bufferBlocks : Z;                    (* uint8_t *)
  state : STATES;
  TimeOut : Z;                         (* uint32_t *)
  errorCode : Error;
  response : option RTUResponse.t
}.

Definition bufferPtr (l : RxLocals) : Z := Z.of_nat (length (buffer l)).

Definition set_state (st : STATES) (l : RxLocals) : RxLocals :=
  mkRx (buffer l) (bufferBlocks l) st (TimeOut l) (errorCode l) (response l).
Definition set_error (e : Error) (st : STATES) (l : RxLocals) : RxLocals :=
  mkRx (buffer l) (bufferBlocks l) st (TimeOut l) e (response l).
Definition set_response (r : option RTUResponse.t) (l : RxLocals) : RxLocals :=
  mkRx (buffer l) (bufferBlocks l) (state l) (TimeOut l) (errorCode l) r.
Definition set_buffer (buf : list Z) (blocks : Z) (l : RxLocals) : RxLocals :=
  mkRx buf blocks (state l) (TimeOut l) (errorCode l) (response l).

(** IN_PACKET, the inner [while (MR_serial.available())].  Growing the
    buffer increments the [uint8_t] block count; when that wraps to 0 the
    [memcpy] length [(bufferBlocks - 1) * BUFBLOCKSIZE] is negative and
    the behaviour undefined, so the run ends. *)
Fixpoint in_packet_read (fuel : nat) (c : ModbusClientRTU) (l : RxLocals)
  : M (ModbusClientRTU * RxLocals) :=
  n <- serial_available ;;
  if n =? 0 then ret (c, l) else
  match fuel with
  | O => fail
  | S fuel' =>
      b <- serial_read ;;
      let buf := buffer l ++ [uint8 b] in
      blocks <- (if Z.of_nat (length buf) >=? bufferBlocks l * BUFBLOCKSIZE
                 then let grown := uint8 (bufferBlocks l + 1) in
                      if grown =? 0 then fail else ret grown
                 else ret (bufferBlocks l)) ;;
      now <- micros ;;
      in_packet_read fuel' (set_lastMicros now c) (set_buffer buf blocks l)
  end.

(** DATA_READ.  A response deleted on a failed check is left as [None];
    ERROR_EXIT replaces it before anything reads it. *)
Definition data_read (request : RTURequest.t) (l : RxLocals) : RxLocals :=
  if bufferPtr l >=? 5 then
    let resp :=
      RTUResponse.setCRC (rx_crc (buffer l))
        (RTUResponse.add_many (rx_message (buffer l)) RTUResponse.new) in
    if negb (RTUResponse.isValidCRC calcCRC resp) then
      set_error CRC_ERROR ERROR_EXIT (set_response None l)
    else if negb (RTUResponse.getServerID resp =? RTURequest.getServerID request) then
      set_error SERVER_ID_MISMATCH ERROR_EXIT (set_response None l)
    else if negb (Z.land (RTUResponse.getFunctionCode resp) 0x7F
                  =? RTURequest.getFunctionCode request) then
      set_error FC_MISMATCH ERROR_EXIT (set_response None l)
    else
      set_state FINISHED (set_response (Some resp) l)
  else
    set_error PACKET_LENGTH_ERROR ERROR_EXIT l.

(** DATA_READ as the spec words it (FrameComplete): fewer than 5 bytes
    is a length error; otherwise the trailing two bytes are the CRC, low
    byte first, and the checks run in order, the first failing one
    deciding the error. *)
Inductive Verdict :=
  | Accept (r : RTUResponse.t)
  | Reject (e : Error).

Definition first_failing (checks : list (bool * Error)) : option Error :=
  snd <$> List.find (fun chk => negb (fst chk)) checks.

Definition frame_complete_spec (request : RTURequest.t) (received : list Z) : Verdict :=
  if (length received <? 5)%nat then Reject PACKET_LENGTH_ERROR else
  let body := take (length received - 2) received in
  let crc := match drop (length received - 2) received with
             | [lo; hi] => lo + 256 * hi
             | _ => 0
             end in
  match first_failing
          [ (crc =? calcCRC body, CRC_ERROR);
            (nth 0 body 0 =? RTURequest.serverID request, SERVER_ID_MISMATCH);
            (Z.ldiff (nth 1 body 0) 0x80 =? RTURequest.functionCode request, FC_MISMATCH) ]
  with
  | Some e => Reject e
  | None => Accept (RTUResponse.mk body crc)
  end.

(** The error frame of the spec: server id, function code with the error
    bit set, error code, and the CRC over these three bytes. *)
Definition error_frame (request : RTURequest.t) (e : Error) : RTUResponse.t :=
  let payload := [RTURequest.serverID request;
                  Z.lor (RTURequest.functionCode request) 0x80; e] in
  RTUResponse.mk payload (calcCRC payload).

(** ERROR_EXIT *)
Definition error_exit (request : RTURequest.t) (l : RxLocals) : RxLocals :=
  let r0 := RTUResponse.new in
  let r1 := RTUResponse.add (uint8 (RTURequest.getServerID request)) r0 in
  let r2 := RTUResponse.add (uint8 (Z.lor (RTURequest.getFunctionCode request) 0x80)) r1 in
  let r3 := RTUResponse.add (uint8 (errorCode l)) r2 in
  let r4 := RTUResponse.setCRC (calcCRC (take 3 (RTUResponse.data r3))) r3 in
  set_state FINISHED (set_response (Some r4) l).

(** One turn of [while (state != FINISHED) switch (state)]. *)
Definition receive_step (request : RTURequest.t) (c : ModbusClientRTU) (l : RxLocals)
  : M (ModbusClientRTU * RxLocals) :=
  match state l with
  | WAIT_INTERVAL =>
      now <- micros ;;
      if uint32 (now - MR_lastMicros c) >=? MR_interval c
      then ret (c, set_state WAIT_DATA l)
      else delayMicroseconds 1 ;; ret (c, l)
  | WAIT_DATA =>
      n <- serial_available ;;
      ' (c', l') <-
        (if negb (n =? 0)
         then now <- micros ;; ret (set_lastMicros now c, set_state IN_PACKET l)
         else now <- millis ;;
              if uint32 (now - TimeOut l) >=? MR_timeoutValue c
              then ret (c, set_error TIMEOUT ERROR_EXIT l)
              else ret (c, l)) ;;
      delay 1 ;;
      ret (c', l')
  | IN_PACKET =>
      turns <- available_left ;;
      ' (c', l') <- in_packet_read turns c l ;;
      now <- micros ;;
      if uint32 (now - MR_lastMicros c') >=? MR_interval c'
      then ret (c', set_state DATA_READ l')
      else ret (c', l')
  | DATA_READ => ret (c, data_read request l)
  | ERROR_EXIT => ret (c, error_exit request l)
  | FINISHED => ret (c, l)
  end.

Fixpoint receive_loop (fuel : nat) (request : RTURequest.t)
    (c : ModbusClientRTU) (l : RxLocals) : M (ModbusClientRTU * RxLocals) :=
  match state l with
  | FINISHED => ret (c, l)
  | _ => match fuel with
         | O => fail
         | S fuel' =>
             ' (c', l') <- receive_step request c l ;;
             receive_loop fuel' request c' l'
         end
  end.

(** The locals as [receive] initialises them. *)
Definition rx_init (start : Z) : RxLocals :=
  mkRx [] 1 WAIT_INTERVAL start SUCCESS None.

(** [receive].  Every turn of the state machine but the DATA_READ and
    ERROR_EXIT ones takes a reading from the oracle, which bounds the
    number of turns. *)
Definition receive (request : RTURequest.t) (c : ModbusClientRTU)
  : M (ModbusClientRTU * option RTUResponse.t) :=
  start <- millis ;;
  clock_turns <- micros_left ;;
  serial_turns <- available_left ;;
  ' (c', l) <- receive_loop (clock_turns + serial_turns + 2) request c (rx_init start) ;;
  now <- micros ;;
  ret (set_lastMicros now c', response l).

(** [vectorize]: the message with its CRC, or the error code alone. *)
Definition vectorize (request : option RTURequest.t) (err : Error) : list Z :=
  if negb (err =? SUCCESS) then [err]
  else match request with
       | Some r => RTURequest.data r
                   ++ [Z.land (RTURequest.CRC r) 0xFF;
                       Z.land (Z.shiftr (RTURequest.CRC r) 8) 0xFF]
       | None => []
       end.

(** [generateErrorResponse]; [RTURequest::checkServerFC] is defined
    outside this file and is a parameter. *)
Definition generateErrorResponse (checkServerFC : Z -> Z -> Error)
    (serverID functionCode : Z) (errorCode : Error) : list Z :=
  let rc := checkServerFC serverID functionCode in
  if negb (rc =? SUCCESS) then [rc]
  else
    let payload := [uint8 serverID; uint8 (Z.lor functionCode 0x80); uint8 errorCode] in
    let crc := uint16 (calcCRC payload) in
    payload ++ [uint8 (Z.land crc 0xFF); uint8 (Z.land (Z.shiftr crc 8) 0xFF)].

(** The variant of the [receive] loop: the readings left in the oracle
    plus the turns that take none. *)
Definition turns_left (l : RxLocals) (w : World) : nat :=
  length (w_micros w) + length (w_available w) +
  match state l with FINISHED => 0 | ERROR_EXIT => 1 | _ => 2 end.

(** The errors [receive] itself raises. *)
Definition receive_errors : list Error :=
  [TIMEOUT; PACKET_LENGTH_ERROR; CRC_ERROR; SERVER_ID_MISMATCH; FC_MISMATCH].

(** What holds of the locals at each state of the machine. *)
Definition rx_inv (request : RTURequest.t) (l : RxLocals) : Prop :=
  Forall is_byte (buffer l) /\
  match state l with
  | ERROR_EXIT => In (errorCode l) receive_errors
  | FINISHED =>
      (errorCode l = SUCCESS /\
       exists r, response l = Some r /\
                 frame_complete_spec request (buffer l) = Accept r) \/
      (In (errorCode l) receive_errors /\
       response l = Some (error_frame request (errorCode l)))
  | _ => errorCode l = SUCCESS
  end.

End Engine.

(** [calcCRC] returns a [uint16_t]. *)
Definition crc_fits (calc : list Z -> Z) : Prop :=
  forall bs, Forall is_byte bs -> is_u16 (calc bs).

(** [c'] is [c] except, possibly, for the time of the last bus activity. *)
Definition same_config (c c' : ModbusClientRTU) : Prop :=
  c' = set_lastMicros (MR_lastMicros c') c.

(** [c'] has the start-up settings and the handlers of [c]. *)
Definition same_settings (c c' : ModbusClientRTU) : Prop :=
  MR_interval c' = MR_interval c /\ MR_rtsPin c' = MR_rtsPin c /\
  MR_qLimit c' = MR_qLimit c /\ MR_timeoutValue c' = MR_timeoutValue c /\
  onData c' = onData c /\ onError c' = onError c.

(** Partial-correctness assertion on a computation started in [w]. *)
Definition post {A} (m : M A) (w : World) (Q : A -> World -> Prop) : Prop :=
  forall a w', m w = Some (a, w') -> Q a w'.

(* ===================================================================== *)
(** ** Request queue and worker loop *)
(* ===================================================================== *)

(** Modelled from the spec: the builders [RTURequest::createRTURequest]
    are defined outside [ModbusClientRTU.cpp].  Per the spec they either
    marshal the arguments into a request object, or raise a validation
    error that is surfaced as the return value of the submission and
    never reaches the queue.  What a builder decided is an input here. *)
Inductive BuildResult :=
  | Built (r : RTURequest.t)
  | Invalid (rc : Error).

Inductive WorkerPC :=
  | LoopTop
  | Pulled (request : ptr)
  | SentOut (request : ptr)
  | Answered (request : ptr) (response : option RTUResponse.t)
  | Delivered (request : ptr) (response : option RTUResponse.t)
  | Popped (request : ptr) (response : option RTUResponse.t).

(** The client, the heap of request objects, the platform, the point the
    worker task has reached in [handleConnection], and the calls of
    [addRequest] made so far with what each returned. *)
Record System := mkSystem {
  inst : ModbusClientRTU;
  heap : gmap nat RTURequest.t;
  world : World;
  worker : WorkerPC;
  calls : list (BuildResult * Error)
}.

(** One caller step or one worker step; a schedule interleaves them. *)
Inductive Action :=
  | CallAddRequest (b : BuildResult)
  | WorkerTurn.

Section Client.
Context `{EC : ErrorCodes}.
Variable calcCRC : list Z -> Z.

(** Modelled from the spec: what [RTURequest::createRTURequest] hands
    back.  A request that was built is a new object at an address not in
    use, with [rc] left at SUCCESS; otherwise the null pointer and the
    builder's error. *)
Definition createRTURequest (b : BuildResult) (h : gmap nat RTURequest.t)
  : Error * option ptr * gmap nat RTURequest.t :=
  match b with
  | Built r => let p := fresh (dom h) in (SUCCESS, Some p, <[p:=r]> h)
  | Invalid rc => (rc, None, h)
  end.

(** [addToQueue] *)
Definition addToQueue (request : option ptr) (c : ModbusClientRTU)
  : bool * ModbusClientRTU :=
  match request with
  | Some p =>
      let '(rc, c1) :=
        if Z.of_nat (length (requests c)) <? MR_qLimit c
        then (true, set_requests (requests c ++ [p]) c)
        else (false, c) in
      (rc, set_messageCount (uint32 (messageCount c1 + 1)) c1)
  | None => (false, c)
  end.

(** [addRequest]: the body shared by the seven overloads, which differ
    only in the builder they call. *)
Definition addRequest (b : BuildResult) (c : ModbusClientRTU) (h : gmap nat RTURequest.t)
  : Error * ModbusClientRTU * gmap nat RTURequest.t :=
  let '(rc, r, h1) := createRTURequest b h in
  match r with
  | Some p =>
      let '(ok, c1) := addToQueue (Some p) c in
      if ok then (rc, c1, h1)
      else (REQUEST_QUEUE_FULL, c1, delete p h1)
  | None => (rc, c, h1)
  end.

(** The two handler calls of [handleConnection]. *)
Definition deliver (c : ModbusClientRTU) (request : RTURequest.t)
    (response : RTUResponse.t) : M unit :=
  if RTUResponse.getError response =? SUCCESS then
    if onData c
    then emit (EvOnData (RTUResponse.getServerID response)
                        (RTUResponse.getFunctionCode response)
                        (RTUResponse.data response)
                        (RTUResponse.len response)
                        (RTURequest.getToken request))
    else ret tt
  else
    if onError c
    then emit (EvOnError (RTUResponse.getError response) (RTURequest.getToken request))
    else ret tt.

(** [handleConnection], one statement at a time.  Reading through a
    pointer that is not in the heap, or popping an empty queue, ends the
    run. *)
Definition handleConnection_step (s : System) : option System :=
  match worker s with
  | LoopTop =>
      match requests (inst s) with
      | [] =>
          ' (_, w) ← delay 1 (world s);
          Some (mkSystem (inst s) (heap s) w LoopTop (calls s))
      | request :: _ =>
          Some (mkSystem (inst s) (heap s) (world s) (Pulled request) (calls s))
      end
  | Pulled request =>
      r ← heap s !! request;
      ' (c, w) ← send r (inst s) (world s);
      Some (mkSystem c (heap s) w (SentOut request) (calls s))
  | SentOut request =>
      r ← heap s !! request;
      ' (c, response, w) ← receive calcCRC r (inst s) (world s);
      Some (mkSystem c (heap s) w (Answered request response) (calls s))
  | Answered request response =>
      r ← heap s !! request;
      resp ← response;
      ' (_, w) ← deliver (inst s) r resp (world s);
      Some (mkSystem (inst s) (heap s) w (Delivered request response) (calls s))
  | Delivered request response =>
      match requests (inst s) with
      | [] => None
      | _ :: rest =>
          Some (mkSystem (set_requests rest (inst s)) (heap s) (world s)
                         (Popped request response) (calls s))
      end
  | Popped request response =>
      Some (mkSystem (inst s) (delete request (heap s)) (world s) LoopTop (calls s))
  end.

(** Callers and the worker run in different tasks: a call of
    [addRequest] and a statement of the worker loop are the atomic steps
    that a schedule interleaves. *)
Definition step (a : Action) (s : System) : option System :=
  match a with
  | CallAddRequest b =>
      let '(rc, c, h) := addRequest b (inst s) (heap s) in
      Some (mkSystem c h (world s) (worker s) (calls s ++ [(b, rc)]))
  | WorkerTurn => handleConnection_step s
  end.

Fixpoint run (sched : list Action) (s : System) : option System :=
  match sched with
  | [] => Some s
  | a :: sched' => s' ← step a s; run sched' s'
  end.

(** [begin] on the whole system. *)
Definition start (baudRate : Z) (s : System) : option System :=
  ' (c, w) ← begin baudRate (inst s) (world s);
  Some (mkSystem c (heap s) w (worker s) (calls s)).

(** The requests the queue took, oldest first, and the handler calls
    made, oldest first. *)
Definition accepted (s : System) : list RTURequest.t :=
  omap (fun call => match call with
                    | (Built r, rc) => if rc =? SUCCESS then Some r else None
                    | _ => None
                    end) (calls s).

Definition is_callback (e : IOEvent) : bool :=
  match e with EvOnData _ _ _ _ _ | EvOnError _ _ => true | _ => false end.

Definition callbacks_of (trace : list IOEvent) : list IOEvent :=
  List.filter is_callback trace.

Definition callbacks (s : System) : list IOEvent := callbacks_of (w_trace (world s)).

(** The handler call that answers a request: the data handler or the
    error handler, with the request's token. *)
Definition callback_for (r : RTURequest.t) (e : IOEvent) : Prop :=
  match e with
  | EvOnData _ _ _ _ tok => tok = RTURequest.token r
  | EvOnError err tok => tok = RTURequest.token r /\ err <> SUCCESS
  | _ => False
  end.

(** A freshly constructed client before any call. *)
Definition initial (s : System) : Prop :=
  requests (inst s) = [] /\ heap s = ∅ /\ worker s = LoopTop /\
  calls s = [] /\ w_trace (world s) = [].

(** The request the worker holds between [front()] and [pop()]. *)
Definition in_flight (pc : WorkerPC) : option ptr :=
  match pc with
  | Pulled p | SentOut p | Answered p _ | Delivered p _ => Some p
  | LoopTop | Popped _ _ => None
  end.

Definition delivered (pc : WorkerPC) : bool :=
  match pc with Delivered _ _ => true | _ => false end.

(** The queue's pointers lead, in order, to the given request objects. *)
Definition links (h : gmap nat RTURequest.t) (q : list ptr) (rs : list RTURequest.t)
  : Prop :=
  Forall2 (fun p r => h !! p = Some r) q rs.

(** The invariant of the system.  The accepted requests split into those
    the worker is done with and those pending; the queue holds exactly
    the pending ones, in order, through distinct live pointers (between
    the handler call and [pop()] the front entry is the last request
    done); the handler calls made so far answer, in order, some of the
    requests done, and all of them when both handlers are registered. *)
Definition sys_inv (s : System) : Prop :=
  exists finished pending fired,
    accepted s = finished ++ pending /\
    fired `sublist_of` finished /\
    Forall2 callback_for fired (callbacks s) /\
    (onData (inst s) = true -> onError (inst s) = true -> fired = finished) /\
    NoDup (requests (inst s)) /\
    match worker s with
    | LoopTop => links (heap s) (requests (inst s)) pending
    | Pulled p | SentOut p | Answered p _ =>
        links (heap s) (requests (inst s)) pending /\
        hd_error (requests (inst s)) = Some p
    | Delivered p _ =>
        exists before r,
          finished = before ++ [r] /\
          links (heap s) (requests (inst s)) (r :: pending) /\
          hd_error (requests (inst s)) = Some p
    | Popped p _ =>
        links (heap s) (requests (inst s)) pending /\
        (p ∉ requests (inst s)) /\ is_Some (heap s !! p)
    end.

End Client.

(** What a stretch of [receive] leaves behind: the configuration, the
    invariant of the locals (for a CRC of 16 bits and a request whose id
    and function code are bytes), and no handler call. *)
Definition rx_post `{EC : ErrorCodes} (calcCRC : list Z -> Z)
    (request : RTURequest.t) (c : ModbusClientRTU) (l : RxLocals)
    (w : World) (res : ModbusClientRTU * RxLocals) (w' : World) : Prop :=
  same_config c (fst res) /\
  (crc_fits calcCRC ->
   is_byte (RTURequest.serverID request) ->
   is_byte (RTURequest.functionCode request) ->
   rx_inv calcCRC request l -> rx_inv calcCRC request (snd res)) /\
  callbacks_of (w_trace w') = callbacks_of (w_trace w).


(* ===================================================================== *)
(** ** Example objects *)
(* ===================================================================== *)

(** Read one holding register of server 1 (function code 3); its CRC is
    0x0A84, sent as 0x84 0x0A. *)
Definition example_request : RTURequest.t :=
  RTURequest.mk 1 3 [0; 0; 0; 1] 2692 77.

Definition other_request : RTURequest.t :=
  RTURequest.mk 2 4 [0; 16; 0; 2] 0 78.

(** A client without direction pin, with room for [limit] requests. *)
Definition example_client (limit : Z) (data_handler error_handler : bool)
  : ModbusClientRTU :=
  mkClient 0 2000 (-1) limit 2000 [] 0 data_handler error_handler.

(** A bus on which nobody answers: the clock readings for one [send] and
    one [receive], and a serial line that stays empty until the timeout. *)
Definition silent_bus : World :=
  mkWorld [5000; 6000; 9000; 10000] [0; 2000] [0] [] [].

Definition example_system (data_handler error_handler : bool) : System :=
  mkSystem (example_client 2 data_handler error_handler) ∅ silent_bus LoopTop [].

(** One submission and the six worker steps that deal with it. *)
Definition example_schedule : list Action :=
  [CallAddRequest (Built example_request);
   WorkerTurn; WorkerTurn; WorkerTurn; WorkerTurn; WorkerTurn; WorkerTurn].

Definition silent_bus_trace : list IOEvent :=
  [EvSerialWrite [1; 3; 0; 0; 0; 1]; EvSerialWrite [132]; EvSerialWrite [10];
   EvSerialFlush; EvDelay 1].

(** The example system after the first four steps of the schedule: the
    timeout response is in, the handler not yet called. *)
Definition example_answered : System :=
  mkSystem (mkClient 10000 2000 (-1) 2 2000 [0%nat] 1 true true)
           (<[0%nat := example_request]> ∅)
           (mkWorld [] [] [] [] silent_bus_trace)
           (Answered 0 (Some (RTUResponse.mk [1; 131; 224] 47168)))
           [(Built example_request, 0)].

(** The example system after the whole schedule, with the handler calls
    that were made. *)
Definition example_finished (data_handler error_handler : bool)
    (calls_made : list IOEvent) : System :=
  mkSystem (mkClient 10000 2000 (-1) 2 2000 [] 1 data_handler error_handler)
           ∅
           (mkWorld [] [] [] [] (silent_bus_trace ++ calls_made))
           LoopTop
           [(Built example_request, 0)].

(** ... with both handlers registered: the timeout went to the error
    handler. *)
Definition example_timed_out : System :=
  example_finished true true [EvOnError 0xE0 77].

(** A client whose queue of capacity 1 is full. *)
Definition example_full : System :=
  mkSystem (mkClient 0 2000 (-1) 1 2000 [0%nat] 1 true true)
           (<[0%nat := example_request]> ∅)
           silent_bus LoopTop
           [(Built example_request, 0)].

(* ===================================================================== *)
(** ** The rest of the client: request vectors and the destructor *)
(* ===================================================================== *)

Section MoreClient.
Context `{EC : ErrorCodes}.

(** [generateRequest]: the body shared by the seven overloads.  The
    request is built, copied into a vector with its CRC, and deleted
    again. *)
Definition generateRequest (b : BuildResult) (h : gmap nat RTURequest.t)
  : list Z * gmap nat RTURequest.t :=
  let '(rc, r, h1) := createRTURequest b h in
  let rv := vectorize (p ← r; h1 !! p) rc in
  (rv, match r with Some p => delete p h1 | None => h1 end).

(** The destructor's clean-up of the queue, up to [vTaskDelete]: while
    the queue is not empty, delete the front request and pop it.
    Deleting through a pointer that is not in the heap ends the run. *)
Fixpoint drain_queue (q : list ptr) (h : gmap nat RTURequest.t)
  : option (gmap nat RTURequest.t) :=
  match q with
  | [] => Some h
  | r :: q' =>
      match h !! r with
      | Some _ => drain_queue q' (delete r h)
      | None => None
      end
  end.

Definition destructor (c : ModbusClientRTU) (h : gmap nat RTURequest.t)
  : option (ModbusClientRTU * gmap nat RTURequest.t) :=
  h' ← drain_queue (requests c) h;
  Some (set_requests [] c, h').

End MoreClient.

(** The request the worker has popped and not yet deleted. *)
Definition popped (pc : WorkerPC) : gset nat :=
  match pc with Popped p _ => {[p]} | _ => ∅ end.

(** What the worker holds of the response is not the null pointer. *)
Definition answer_present (pc : WorkerPC) : Prop :=
  match pc with
  | Answered _ resp | Delivered _ resp | Popped _ resp => is_Some resp
  | _ => True
  end.

(** The number of submissions in a schedule whose builder succeeded. *)
Definition is_built_call (a : Action) : bool :=
  match a with CallAddRequest (Built _) => true | _ => false end.

Definition built_calls (sched : list Action) : Z :=
  Z.of_nat (length (List.filter is_built_call sched)).

Definition is_delay (e : IOEvent) : bool :=
  match e with EvDelay _ | EvDelayMicroseconds _ => true | _ => false end.

(** The receive buffer has room for the next byte: [bufferPtr] is inside
    the [bufferBlocks * BUFBLOCKSIZE] bytes allocated. *)
Definition capacity_ok (l : RxLocals) : Prop :=
  1 <= bufferBlocks l <= 255 /\
  Z.of_nat (length (buffer l)) < bufferBlocks l * BUFBLOCKSIZE.

(** What a stretch of [receive] does to the serial input, the trace and
    the buffer: the bytes read are appended to the buffer in order, each
    cut to 8 bits; nothing but delays is done to the outside; the buffer
    keeps room; a finished machine has a response. *)
Definition rx_reads (l : RxLocals) (w : World) (l' : RxLocals) (w' : World) : Prop :=
  (exists consumed,
     w_read w = consumed ++ w_read w' /\
     buffer l' = buffer l ++ map uint8 consumed) /\
  (exists ds, w_trace w' = w_trace w ++ ds /\ forallb is_delay ds = true) /\
  (capacity_ok l -> capacity_ok l') /\
  ((state l = FINISHED -> is_Some (response l)) ->
   state l' = FINISHED -> is_Some (response l')).

(** More that every reachable state of the system satisfies: the queue
    is within its capacity, the live request objects are those queued
    plus the one popped and not yet deleted, and a response the worker
    holds is not null. *)
Definition sys_more (s : System) : Prop :=
  Z.of_nat (length (requests (inst s))) <= Z.max 0 (MR_qLimit (inst s)) /\
  dom (heap s) = list_to_set (requests (inst s)) ∪ popped (worker s) /\
  answer_present (worker s).

(** The bytes a trace put on the serial line, in order. *)
Definition wire_bytes (trace : list IOEvent) : list Z :=
  flat_map (fun e => match e with EvSerialWrite bs => bs | _ => [] end) trace.

(** The client after the clock readings [ts] were stored, one after the
    other, as the time of the last bus activity. *)
Definition stamp (ts : list Z) (c : ModbusClientRTU) : ModbusClientRTU :=
  fold_left (fun c' t => set_lastMicros (uint32 t) c') ts c.

(** Server 1 answering the example request with the value 5; the CRC of
    the five bytes is 0x4778. *)
Definition example_reply : list Z := [1; 3; 2; 0; 5; 120; 71].

(** A bus on which that answer arrives in one burst: the clock readings
    of [receive] (interval over, first byte seen, one per byte, the gap
    after the last byte, the end), and [available()] non-zero until the
    seven bytes are read. *)
Definition answering_bus : World :=
  mkWorld [5000; 6000; 6100; 6200; 6300; 6400; 6500; 6600; 6700; 9000; 9100]
          [0]
          [7; 7; 6; 5; 4; 3; 2; 1; 0]
          example_reply
          [].

(** The example system once the example request is queued. *)
Definition example_queued : System :=
  mkSystem (mkClient 0 2000 (-1) 2 2000 [0%nat] 1 true true)
           (<[0%nat := example_request]> ∅)
           silent_bus LoopTop
           [(Built example_request, 0)].

(** A silent bus seen through more readings: one clock reading inside
    the interval, and two polls of the line before the timeout. *)
Definition slow_silent_bus : World :=
  mkWorld [100; 5000; 6000] [0; 500; 1000; 2000] [0; 0; 0] [] [].

(** The locals of [receive] once the example reply is in the buffer. *)
Definition example_received (st : STATES) (answer : option RTUResponse.t) : RxLocals :=
  mkRx example_reply 1 st 0 0 answer.

(* ===================================================================== *)
(** ** The transactions a run takes into the handler code *)
(* ===================================================================== *)

Section Transactions.
Context `{EC : ErrorCodes}.
Variable calcCRC : list Z -> Z.

(** The request and the response with which a step enters the handler
    code of [handleConnection] ([if (response->getError()==SUCCESS)]),
    if the step is that statement. *)
Definition handed (a : Action) (s : System) : list (RTURequest.t * RTUResponse.t) :=
  match a, worker s with
  | WorkerTurn, Answered p (Some resp) =>
      match heap s !! p with
      | Some r => [(r, resp)]
      | None => []
      end
  | _, _ => []
  end.

(** The transactions taken into the handler code along a run, oldest
    first. *)
Fixpoint served (sched : list Action) (s : System)
  : list (RTURequest.t * RTUResponse.t) :=
  match sched with
  | [] => []
  | a :: sched' =>
      match step calcCRC a s with
      | Some s' => handed a s ++ served sched' s'
      | None => []
      end
  end.

(** The handler call a transaction is to get, as the corrected C1 words
    it: the data handler, with the response's fields and the request's
    token, when the response carries no error; the error handler, with
    the error and the token, otherwise; and no call when the handler
    that matches is not registered. *)
Definition expected_callback (data_handler error_handler : bool)
    (t : RTURequest.t * RTUResponse.t) : list IOEvent :=
  if RTUResponse.getError (snd t) =? SUCCESS
  then if data_handler
       then [EvOnData (RTUResponse.getServerID (snd t))
                      (RTUResponse.getFunctionCode (snd t))
                      (RTUResponse.data (snd t)) (RTUResponse.len (snd t))
                      (RTURequest.token (fst t))]
       else []
  else if error_handler
       then [EvOnError (RTUResponse.getError (snd t)) (RTURequest.token (fst t))]
       else [].

(** The response of a transaction is one [receive] returned for its
    request. *)
Definition received (t : RTURequest.t * RTUResponse.t) : Prop :=
  exists c w c' w', receive calcCRC (fst t) c w = Some (c', Some (snd t), w').

(** The invariant that ties the handler calls to the transactions.  The
    accepted requests are those of the transactions [done], in order,
    followed by those pending, which the queue holds; the handler calls
    made are those the transactions are to get; a response the worker is
    about to deliver is the one [receive] returned; and between the
    handler code and [pop()] the front entry of the queue is the request
    of the last transaction. *)
Definition log_inv (done : list (RTURequest.t * RTUResponse.t)) (s : System) : Prop :=
  exists pending,
    accepted s = map fst done ++ pending /\
    callbacks s =
      flat_map (expected_callback (onData (inst s)) (onError (inst s))) done /\
    Forall received done /\
    match worker s with
    | Answered p resp =>
        links (heap s) (requests (inst s)) pending /\
        exists r c w c' w',
          heap s !! p = Some r /\ receive calcCRC r c w = Some (c', resp, w')
    | Delivered p _ =>
        exists before r resp,
          done = before ++ [(r, resp)] /\
          links (heap s) (requests (inst s)) (r :: pending)
    | _ => links (heap s) (requests (inst s)) pending
    end.

End Transactions.

(** The example system between the handler call and [pop()]: the
    timeout went to the error handler, the request is still queued. *)
Definition example_delivered : System :=
  mkSystem (mkClient 10000 2000 (-1) 2 2000 [0%nat] 1 true true)
           (<[0%nat := example_request]> ∅)
           (mkWorld [] [] [] [] (silent_bus_trace ++ [EvOnError 0xE0 77]))
           (Delivered 0 (Some (RTUResponse.mk [1; 131; 224] 47168)))
           [(Built example_request, 0)].

(** The same point of a run without error handler: the handler code is
    over and nothing was called. *)
Definition example_unheard : System :=
  mkSystem (mkClient 10000 2000 (-1) 2 2000 [0%nat] 1 true false)
           (<[0%nat := example_request]> ∅)
           (mkWorld [] [] [] [] silent_bus_trace)
           (Delivered 0 (Some (RTUResponse.mk [1; 131; 224] 47168)))
           [(Built example_request, 0)].

(* ===================================================================== *)
(** ** Facts about the CRC engine *)
(* ===================================================================== *)

Section CRCFacts.
Import RTUCRC.

Lemma log2_below n a : 0 <= n -> 0 <= a < 2 ^ n -> a = 0 \/ Z.log2 a < n.
Proof.
  intros Hn Ha. destruct (Z.eq_dec a 0); [left; assumption | right].
  apply Z.log2_lt_pow2; lia.
Qed.

Lemma lxor_bound n a b :
  0 <= n -> 0 <= a < 2 ^ n -> 0 <= b < 2 ^ n -> 0 <= Z.lxor a b < 2 ^ n.
Proof.
  intros Hn Ha Hb.
  assert (Hpos : 0 <= Z.lxor a b) by (apply Z.lxor_nonneg; lia).
  split; [assumption|].
  destruct (Z.eq_dec (Z.lxor a b) 0) as [->|Hz]; [apply Z.pow_pos_nonneg; lia|].
  apply Z.log2_lt_pow2; [lia|].
  pose proof (Z.log2_lxor a b (proj1 Ha) (proj1 Hb)) as Hl.
  destruct (log2_below n a Hn Ha) as [->|], (log2_below n b Hn Hb) as [->|];
    rewrite ?Z.lxor_0_l, ?Z.lxor_0_r in *; simpl in *; lia.
Qed.

Lemma lxor_u16 a b : is_u16 a -> is_u16 b -> is_u16 (Z.lxor a b).
Proof. apply (lxor_bound 16); lia. Qed.

Lemma lxor_byte a b : is_byte a -> is_byte b -> is_byte (Z.lxor a b).
Proof. apply (lxor_bound 8); lia. Qed.

Lemma shiftr1_half c : Z.shiftr c 1 = c / 2.
Proof. rewrite Z.shiftr_div_pow2 by lia. reflexivity. Qed.

Lemma crc_shift_u16 c : is_u16 c -> is_u16 (crc_shift c).
Proof.
  intros Hc. unfold crc_shift.
  assert (is_u16 (Z.shiftr c 1)).
  { rewrite shiftr1_half. unfold is_u16 in *.
    split; [apply Z.div_pos; lia | apply Z.div_lt_upper_bound; lia]. }
  destruct (Z.odd c); [apply lxor_u16; [assumption | unfold is_u16; lia] | assumption].
Qed.

Lemma high_bit_clear k : 0 <= k < 32768 -> Z.testbit k 15 = false.
Proof.
  intros Hk. rewrite Z.testbit_false by lia.
  rewrite Z.div_small by lia. reflexivity.
Qed.

Lemma crc_unshift_shift c : is_u16 c -> crc_unshift (crc_shift c) = c.
Proof.
  intros [H0 H1]. unfold crc_shift, crc_unshift.
  rewrite shiftr1_half.
  assert (Hk : 0 <= c / 2 < 32768).
  { split; [apply Z.div_pos; lia | apply Z.div_lt_upper_bound; lia]. }
  pose proof (Zmod_odd c) as Hodd.
  pose proof (Z.div_mod c 2 ltac:(lia)) as Hdm.
  destruct (Z.odd c).
  - rewrite Z.lxor_spec, (high_bit_clear _ Hk). simpl.
    rewrite Z.lxor_assoc, Z.lxor_nilpotent, Z.lxor_0_r. lia.
  - rewrite (high_bit_clear _ Hk). lia.
Qed.

Lemma crc_shift_inj c c' :
  is_u16 c -> is_u16 c' -> crc_shift c = crc_shift c' -> c = c'.
Proof.
  intros Hc Hc' E.
  rewrite <- (crc_unshift_shift c Hc), <- (crc_unshift_shift c' Hc'), E.
  reflexivity.
Qed.

Lemma iter_shift_u16 n c : is_u16 c -> is_u16 (Nat.iter n crc_shift c).
Proof. intros Hc. induction n; simpl; [assumption | apply crc_shift_u16, IHn]. Qed.

Lemma iter_shift_inj n c c' :
  is_u16 c -> is_u16 c' ->
  Nat.iter n crc_shift c = Nat.iter n crc_shift c' -> c = c'.
Proof.
  intros Hc Hc'. induction n; simpl; [tauto|].
  intros E. apply IHn. apply crc_shift_inj; auto using iter_shift_u16.
Qed.

Lemma byte_u16 b : is_byte b -> is_u16 b.
Proof. unfold is_byte, is_u16. lia. Qed.

Lemma crc_byte_u16 c b : is_u16 c -> is_byte b -> is_u16 (crc_byte c b).
Proof.
  intros Hc Hb. unfold crc_byte. apply iter_shift_u16, lxor_u16; auto using byte_u16.
Qed.

Lemma lxor_cancel_l a b b' : Z.lxor a b = Z.lxor a b' -> b = b'.
Proof.
  intros E. apply (f_equal (Z.lxor a)) in E.
  rewrite <- !Z.lxor_assoc, Z.lxor_nilpotent, !Z.lxor_0_l in E. exact E.
Qed.

Lemma lxor_cancel_r a a' b : Z.lxor a b = Z.lxor a' b -> a = a'.
Proof. rewrite !(Z.lxor_comm _ b). apply lxor_cancel_l. Qed.

(** A different byte gives a different state ... *)
Lemma crc_byte_inj_byte c b b' :
  is_u16 c -> is_byte b -> is_byte b' -> crc_byte c b = crc_byte c b' -> b = b'.
Proof.
  intros Hc Hb Hb' E. unfold crc_byte in E.
  apply iter_shift_inj in E; auto using lxor_u16, byte_u16.
  eapply lxor_cancel_l, E.
Qed.

(** ... and so does a different state before the same byte. *)
Lemma crc_byte_inj_state c c' b :
  is_u16 c -> is_u16 c' -> is_byte b -> crc_byte c b = crc_byte c' b -> c = c'.
Proof.
  intros Hc Hc' Hb E. unfold crc_byte in E.
  apply iter_shift_inj in E; auto using lxor_u16, byte_u16.
  eapply lxor_cancel_r, E.
Qed.

Lemma crc_from_u16 bytes : forall c,
  is_u16 c -> Forall is_byte bytes -> is_u16 (crc_from c bytes).
Proof.
  induction bytes as [|b bytes IH]; intros c Hc Hbs; simpl; [assumption|].
  inversion Hbs; subst. apply IH; auto using crc_byte_u16.
Qed.

Lemma crc_from_inj bytes : forall c c',
  is_u16 c -> is_u16 c' -> Forall is_byte bytes ->
  crc_from c bytes = crc_from c' bytes -> c = c'.
Proof.
  induction bytes as [|b bytes IH]; intros c c' Hc Hc' Hbs E; simpl in E; [assumption|].
  inversion Hbs; subst.
  apply IH in E; auto using crc_byte_u16.
  eapply crc_byte_inj_state; eauto.
Qed.

Lemma crc_from_app c xs ys : crc_from c (xs ++ ys) = crc_from (crc_from c xs) ys.
Proof. apply fold_left_app. Qed.

Lemma calcCRC_u16 bytes : Forall is_byte bytes -> is_u16 (calcCRC bytes).
Proof. apply crc_from_u16. unfold is_u16; lia. Qed.

(** Changing one byte of a message changes its checksum. *)
Lemma calcCRC_one_byte pre b b' post :
  Forall is_byte pre -> is_byte b -> is_byte b' -> Forall is_byte post ->
  calcCRC (pre ++ b :: post) = calcCRC (pre ++ b' :: post) -> b = b'.
Proof.
  intros Hpre Hb Hb' Hpost E. unfold calcCRC in E.
  rewrite !crc_from_app in E. simpl in E.
  assert (Hc : is_u16 (crc_from 65535 pre)) by (apply crc_from_u16; [unfold is_u16; lia | assumption]).
  apply crc_from_inj in E; auto using crc_byte_u16.
  eapply crc_byte_inj_byte; eauto.
Qed.

(** *** The two bytes on the wire and the value read back *)

Lemma land_255 c : Z.land c 255 = c mod 256.
Proof. change 255 with (Z.ones 8). rewrite Z.land_ones by lia. reflexivity. Qed.

Lemma crc_lo_byte c : is_byte (crc_lo c).
Proof. unfold crc_lo, is_byte. rewrite land_255. apply Z.mod_pos_bound; lia. Qed.

Lemma crc_hi_byte c : is_byte (crc_hi c).
Proof. unfold crc_hi, is_byte. rewrite land_255. apply Z.mod_pos_bound; lia. Qed.

Lemma bytes_disjoint lo hi : is_byte lo -> Z.land lo (Z.shiftl hi 8) = 0.
Proof.
  intros Hlo. apply Z.bits_inj'. intros n Hn.
  rewrite Z.land_spec, Z.bits_0.
  destruct (Z.lt_ge_cases n 8) as [Hlt|Hge].
  - rewrite (Z.shiftl_spec_low hi 8 n Hlt). apply andb_false_r.
  - assert (Z.testbit lo n = false) as ->; [|reflexivity].
    rewrite Z.testbit_false by lia.
    assert (2 ^ 8 <= 2 ^ n) by (apply Z.pow_le_mono_r; lia).
    unfold is_byte in Hlo. rewrite Z.div_small by lia. reflexivity.
Qed.

Lemma lor_bytes lo hi : is_byte lo -> Z.lor lo (Z.shiftl hi 8) = lo + 256 * hi.
Proof.
  intros Hlo. rewrite <- Z.lxor_lor, <- Z.add_nocarry_lxor by (apply bytes_disjoint, Hlo).
  rewrite Z.shiftl_mul_pow2 by lia. lia.
Qed.

Lemma crc_lo_hi c : is_u16 c -> crc_lo c + 256 * crc_hi c = c.
Proof.
  intros Hc. unfold crc_lo, crc_hi, is_u16 in *. rewrite !land_255.
  rewrite Z.shiftr_div_pow2 by lia. change (2 ^ 8) with 256.
  rewrite (Z.mod_small (c / 256)) by (split; [apply Z.div_pos; lia | apply Z.div_lt_upper_bound; lia]).
  pose proof (Z.div_mod c 256 ltac:(lia)). lia.
Qed.

Lemma rx_message_app frame lo hi : rx_message (frame ++ [lo; hi]) = frame.
Proof.
  unfold rx_message. rewrite length_app. simpl.
  replace (length frame + 2 - 2)%nat with (length frame) by lia.
  apply take_app_length.
Qed.

Lemma rx_crc_app frame lo hi :
  is_byte lo -> is_byte hi -> rx_crc (frame ++ [lo; hi]) = lo + 256 * hi.
Proof.
  intros Hlo Hhi. unfold rx_crc. rewrite length_app. simpl.
  replace (length frame + 2 - 2)%nat with (length frame + 0)%nat by lia.
  replace (length frame + 2 - 1)%nat with (length frame + 1)%nat by lia.
  rewrite !app_nth2_plus. simpl.
  apply lor_bytes. assumption.
Qed.

(** Flipping a bit of a byte gives another byte, and a different one. *)
Lemma flip_byte b (j : nat) :
  is_byte b -> (j < 8)%nat ->
  is_byte (Z.lxor b (Z.shiftl 1 (Z.of_nat j))) /\ Z.lxor b (Z.shiftl 1 (Z.of_nat j)) <> b.
Proof.
  intros Hb Hj. rewrite Z.shiftl_1_l.
  assert (Hp : 0 < 2 ^ Z.of_nat j < 256).
  { split; [apply Z.pow_pos_nonneg; lia|].
    change 256 with (2 ^ 8). apply Z.pow_lt_mono_r; lia. }
  split; [apply lxor_byte; unfold is_byte in *; lia|].
  intros E. rewrite <- (Z.lxor_0_r b) in E at 2.
  apply lxor_cancel_l in E. lia.
Qed.

End CRCFacts.

(* ===================================================================== *)
(** ** CRC round trip *)
(* ===================================================================== *)

Section RoundTrip.
Import RTUCRC.

Lemma crc_valid_unfold calc buffer :
  crc_valid calc buffer = (uint16 (rx_crc buffer) =? uint16 (calc (rx_message buffer))).
Proof. reflexivity. Qed.

Lemma uint16_id c : is_u16 c -> uint16 c = c.
Proof. intros Hc. apply Z.mod_small. exact Hc. Qed.

Lemma alter_split {A} (f : A -> A) k (l : list A) :
  (k < length l)%nat ->
  exists pre b post, l = pre ++ b :: post /\ alter f k l = pre ++ f b :: post.
Proof.
  revert k. induction l as [|a l IH]; intros k Hk; simpl in Hk; [lia|].
  destruct k as [|k].
  - exists [], a, l. split; reflexivity.
  - destruct (IH k ltac:(lia)) as (pre & b & post & -> & E).
    exists (a :: pre), b, post. split; [reflexivity|].
    simpl. f_equal. exact E.
Qed.

(** A flipped bit inside the message is caught. *)
Lemma flip_in_message frame lo hi k j :
  Forall is_byte frame -> is_byte lo -> is_byte hi ->
  lo + 256 * hi = calcCRC frame ->
  (k < length frame)%nat -> (j < 8)%nat ->
  crc_valid calcCRC (flip_bit k j (frame ++ [lo; hi])) = false.
Proof.
  intros Hf Hlo Hhi Hcrc Hk Hj. unfold flip_bit.
  rewrite alter_app_l by exact Hk.
  rewrite crc_valid_unfold, rx_message_app, rx_crc_app, Hcrc by assumption.
  destruct (alter_split (fun b => Z.lxor b (Z.shiftl 1 (Z.of_nat j))) k frame Hk)
    as (pre & b & post & -> & ->).
  apply Forall_app in Hf as [Hpre Hbp]. inversion Hbp as [|? ? Hb Hpost]; subst.
  destruct (flip_byte b j Hb Hj) as [Hfb Hne].
  rewrite !uint16_id by (apply calcCRC_u16, Forall_app; split; [|constructor]; assumption).
  apply Z.eqb_neq. intros E.
  apply calcCRC_one_byte in E; auto.
Qed.

(** A flipped bit in either CRC byte is caught. *)
Lemma flip_in_crc frame lo hi lo' hi' :
  Forall is_byte frame -> is_byte lo -> is_byte hi -> is_byte lo' -> is_byte hi' ->
  lo + 256 * hi = calcCRC frame ->
  lo' <> lo \/ hi' <> hi ->
  crc_valid calcCRC (frame ++ [lo'; hi']) = false.
Proof.
  intros Hf Hlo Hhi Hlo' Hhi' Hcrc Hne.
  rewrite crc_valid_unfold, rx_message_app, rx_crc_app by assumption.
  rewrite (uint16_id (calcCRC frame)) by (apply calcCRC_u16; assumption).
  rewrite uint16_id by (unfold is_u16, is_byte in *; lia).
  apply Z.eqb_neq. unfold is_byte in *. lia.
Qed.

(** Whatever the checksum, as long as it has 16 bits. *)
Lemma append_crc_valid calc frame :
  is_u16 (calc frame) -> crc_valid calc (append_crc calc frame) = true.
Proof.
  intros Hc. unfold append_crc.
  rewrite crc_valid_unfold, rx_message_app, rx_crc_app
    by (apply crc_lo_byte || apply crc_hi_byte).
  rewrite crc_lo_hi by exact Hc. apply Z.eqb_refl.
Qed.

End RoundTrip.

(** C8.  Appending [calcCRC frame], low byte first, to a frame and then
    checking the result as DATA_READ does always passes; flipping any one
    bit of the frame or of the two CRC bytes always makes the check fail. *)
Theorem crc_round_trip (frame : list Z) :
  Forall is_byte frame ->
  crc_valid RTUCRC.calcCRC (append_crc RTUCRC.calcCRC frame) = true /\
  (forall k j : nat, (k < length frame + 2)%nat -> (j < 8)%nat ->
     crc_valid RTUCRC.calcCRC (flip_bit k j (append_crc RTUCRC.calcCRC frame)) = false).
Proof.
  intros Hf. unfold append_crc.
  set (crc := RTUCRC.calcCRC frame).
  assert (Hcrc : is_u16 crc) by (apply calcCRC_u16, Hf).
  pose proof (crc_lo_byte crc) as Hlo. pose proof (crc_hi_byte crc) as Hhi.
  pose proof (crc_lo_hi crc Hcrc) as Hsum.
  split.
  - rewrite crc_valid_unfold, rx_message_app, rx_crc_app, Hsum by assumption.
    apply Z.eqb_refl.
  - intros k j Hk Hj.
    destruct (Nat.lt_ge_cases k (length frame)) as [Hin|Hout].
    + apply flip_in_message; assumption.
    + unfold flip_bit.
      replace k with (length frame + (k - length frame))%nat by lia.
      rewrite alter_app_r.
      destruct (k - length frame)%nat as [|[|n]] eqn:Ek; [| |lia]; simpl.
      * destruct (flip_byte (crc_lo crc) j Hlo Hj) as [Hb Hne].
        apply (flip_in_crc frame (crc_lo crc) (crc_hi crc)); auto.
      * destruct (flip_byte (crc_hi crc) j Hhi Hj) as [Hb Hne].
        apply (flip_in_crc frame (crc_lo crc) (crc_hi crc)); auto.
Qed.

Lemma crc_round_trip_witness :
  crc_valid RTUCRC.calcCRC (append_crc RTUCRC.calcCRC [1; 3; 0; 0; 0; 1]) = true /\
  (forall k j : nat, (k < 6 + 2)%nat -> (j < 8)%nat ->
     crc_valid RTUCRC.calcCRC
       (flip_bit k j (append_crc RTUCRC.calcCRC [1; 3; 0; 0; 0; 1])) = false).
Proof.
  apply (crc_round_trip [1; 3; 0; 0; 0; 1]).
  repeat constructor; unfold is_byte; lia.
Defined.

(* ===================================================================== *)
(** ** Frame validation and the error frame *)
(* ===================================================================== *)

Lemma split_last_two {A} (l : list A) :
  (2 <= length l)%nat -> exists body lo hi, l = body ++ [lo; hi].
Proof.
  intros Hl.
  destruct (drop (length l - 2) l) as [|lo [|hi [|x tl]]] eqn:E;
    pose proof (f_equal length E) as HL; rewrite length_drop in HL; simpl in HL; try lia.
  exists (take (length l - 2) l), lo, hi.
  rewrite <- E. symmetry. apply take_drop.
Qed.

Lemma mask_error_bit b : is_byte b -> Z.ldiff b 0x80 = Z.land b 0x7F.
Proof.
  intros Hb. apply Z.bits_inj'. intros n Hn.
  rewrite Z.ldiff_spec, Z.land_spec.
  change 128 with (2 ^ 7). change 127 with (Z.ones 7).
  rewrite Z.pow2_bits_eqb, Z.testbit_ones by lia.
  destruct (Z.leb_spec 0 n); [|lia].
  destruct (Z.eqb_spec 7 n) as [<-|Hne]; cbn [negb andb].
  - rewrite !andb_false_r. reflexivity.
  - destruct (Z.ltb_spec n 7); [reflexivity|].
    rewrite andb_false_r, andb_true_r.
    rewrite Z.testbit_false by lia.
    assert (2 ^ 8 <= 2 ^ n) by (apply Z.pow_le_mono_r; lia).
    unfold is_byte in Hb. rewrite Z.div_small by lia. reflexivity.
Qed.

Lemma lor_byte a b : is_byte a -> is_byte b -> is_byte (Z.lor a b).
Proof.
  intros Ha Hb. unfold is_byte in *.
  assert (Hpos : 0 <= Z.lor a b) by (apply Z.lor_nonneg; lia).
  split; [assumption|].
  destruct (Z.eq_dec (Z.lor a b) 0) as [->|Hz]; [lia|].
  change 256 with (2 ^ 8). apply Z.log2_lt_pow2; [lia|].
  rewrite Z.log2_lor by lia.
  destruct (log2_below 8 a ltac:(lia) Ha) as [->|], (log2_below 8 b ltac:(lia) Hb) as [->|];
    simpl; lia.
Qed.

Lemma uint8_id b : is_byte b -> uint8 b = b.
Proof. intros Hb. apply Z.mod_small. exact Hb. Qed.

Lemma uint8_byte x : is_byte (uint8 x).
Proof. apply Z.mod_pos_bound. lia. Qed.

(** *** Symbolic execution of platform computations *)

Lemma post_ret {A} (a : A) w Q : Q a w -> post (ret a) w Q.
Proof. intros HQ a' w' E. inversion E; subst. exact HQ. Qed.

Lemma post_fail {A} w (Q : A -> World -> Prop) : post fail w Q.
Proof. intros a w' E. discriminate E. Qed.

Lemma post_bind {A B} (m : M A) (k : A -> M B) w Q :
  post m w (fun a w1 => post (k a) w1 Q) -> post (bind m k) w Q.
Proof.
  intros Hm b w' E. unfold bind in E.
  destruct (m w) as [[a w1]|] eqn:Em; [|discriminate E].
  exact (Hm a w1 Em b w' E).
Qed.

Lemma post_micros_left w Q : Q (length (w_micros w)) w -> post micros_left w Q.
Proof. intros HQ a w' E. inversion E; subst. exact HQ. Qed.

Lemma post_available_left w Q : Q (length (w_available w)) w -> post available_left w Q.
Proof. intros HQ a w' E. inversion E; subst. exact HQ. Qed.

Lemma post_weaken {A} (m : M A) w (Q Q' : A -> World -> Prop) :
  post m w Q -> (forall a w', Q a w' -> Q' a w') -> post m w Q'.
Proof. intros Hm HQ a w' E. apply HQ, Hm, E. Qed.

Lemma post_emit e w Q :
  Q tt (mkWorld (w_micros w) (w_millis w) (w_available w) (w_read w) (w_trace w ++ [e])) ->
  post (emit e) w Q.
Proof. intros HQ a w' E. inversion E; subst. exact HQ. Qed.

Lemma post_micros w Q :
  (forall t ts, w_micros w = t :: ts ->
     Q (uint32 t) (mkWorld ts (w_millis w) (w_available w) (w_read w) (w_trace w))) ->
  post micros w Q.
Proof.
  intros HQ a w' E. unfold micros in E.
  destruct (w_micros w) as [|t ts] eqn:Em; [discriminate E|].
  inversion E; subst. apply HQ. reflexivity.
Qed.

Lemma post_millis w Q :
  (forall t ts, w_millis w = t :: ts ->
     Q (uint32 t) (mkWorld (w_micros w) ts (w_available w) (w_read w) (w_trace w))) ->
  post millis w Q.
Proof.
  intros HQ a w' E. unfold millis in E.
  destruct (w_millis w) as [|t ts] eqn:Em; [discriminate E|].
  inversion E; subst. apply HQ. reflexivity.
Qed.

Lemma post_available w Q :
  (forall n ns, w_available w = n :: ns ->
     Q n (mkWorld (w_micros w) (w_millis w) ns (w_read w) (w_trace w))) ->
  post serial_available w Q.
Proof.
  intros HQ a w' E. unfold serial_available in E.
  destruct (w_available w) as [|n ns] eqn:Em; [discriminate E|].
  inversion E; subst. apply HQ. reflexivity.
Qed.

Lemma post_read w Q :
  (forall b bs, w_read w = b :: bs ->
     Q b (mkWorld (w_micros w) (w_millis w) (w_available w) bs (w_trace w))) ->
  post serial_read w Q.
Proof.
  intros HQ a w' E. unfold serial_read in E.
  destruct (w_read w) as [|b bs] eqn:Em; [discriminate E|].
  inversion E; subst. apply HQ. reflexivity.
Qed.

Lemma callbacks_of_snoc trace e :
  callbacks_of (trace ++ [e]) =
  callbacks_of trace ++ (if is_callback e then [e] else []).
Proof. unfold callbacks_of. rewrite List.filter_app. reflexivity. Qed.

(** One symbolic step: split a bind, run a primitive, branch. *)
Ltac io_step :=
  lazymatch goal with
  | |- post (bind _ _) _ _ => apply post_bind
  | |- post (ret _) _ _ => apply post_ret
  | |- post fail _ _ => apply post_fail
  | |- post micros _ _ => apply post_micros; intros ? ? ?
  | |- post millis _ _ => apply post_millis; intros ? ? ?
  | |- post serial_available _ _ => apply post_available; intros ? ? ?
  | |- post serial_read _ _ => apply post_read; intros ? ? ?
  | |- post micros_left _ _ => apply post_micros_left
  | |- post available_left _ _ => apply post_available_left
  | |- post (emit _) _ _ => apply post_emit
  | |- post (delayMicroseconds _) _ _ => apply post_emit
  | |- post (delay _) _ _ => apply post_emit
  | |- post (digitalWrite _ _) _ _ => apply post_emit
  | |- post (pinMode _) _ _ => apply post_emit
  | |- post (serial_write _) _ _ => apply post_emit
  | |- post serial_flush _ _ => apply post_emit
  | |- post (if ?b then _ else _) _ _ => destruct b eqn:?
  | |- post (let '(_, _) := ?p in _) _ _ => destruct p
  end.

Lemma same_config_refl c : same_config c c.
Proof. destruct c. reflexivity. Qed.

Lemma same_config_set v c c' : same_config c c' -> same_config c (set_lastMicros v c').
Proof. intros ->. destruct c. reflexivity. Qed.

Lemma same_config_trans c1 c2 c3 :
  same_config c1 c2 -> same_config c2 c3 -> same_config c1 c3.
Proof. intros -> ->. destruct c1. reflexivity. Qed.

Create HintDb rtu.
#[local] Hint Resolve same_config_refl same_config_set : rtu.

Section EngineFacts.
Context `{EC : ErrorCodes}.
Variable calcCRC : list Z -> Z.
Hypothesis calcCRC_range : crc_fits calcCRC.

Lemma data_read_spec request l :
  Forall is_byte (buffer l) ->
  match frame_complete_spec calcCRC request (buffer l) with
  | Reject e =>
      state (data_read calcCRC request l) = ERROR_EXIT /\
      errorCode (data_read calcCRC request l) = e
  | Accept r =>
      state (data_read calcCRC request l) = FINISHED /\
      response (data_read calcCRC request l) = Some r /\
      errorCode (data_read calcCRC request l) = errorCode l
  end.
Proof.
  intros Hbytes. unfold data_read, frame_complete_spec, bufferPtr.
  destruct (Nat.ltb_spec (length (buffer l)) 5) as [Hshort|Hlong].
  - destruct (Z.geb_spec (Z.of_nat (length (buffer l))) 5); [lia|]. split; reflexivity.
  - destruct (Z.geb_spec (Z.of_nat (length (buffer l))) 5); [|lia].
    destruct (split_last_two (buffer l) ltac:(lia)) as (body & lo & hi & E).
    rewrite E in Hbytes |- *.
    apply Forall_app in Hbytes as [Hbody Hcrc].
    inversion Hcrc as [|? ? Hlo Hcrc']; subst. inversion Hcrc' as [|? ? Hhi _]; subst.
    assert (Hlen : (length (body ++ [lo; hi]) - 2 = length body)%nat)
      by (rewrite length_app; simpl; lia).
    rewrite Hlen, take_app_length, drop_app_length.
    fold (rx_message (body ++ [lo; hi])).
    rewrite rx_message_app, rx_crc_app by assumption.
    unfold RTUResponse.isValidCRC, RTUResponse.getServerID, RTUResponse.getFunctionCode,
      RTUResponse.setCRC, RTUResponse.add_many, RTUResponse.new, first_failing,
      RTURequest.getServerID, RTURequest.getFunctionCode. simpl.
    rewrite (uint16_id (lo + 256 * hi)) by (unfold is_u16, is_byte in *; lia).
    rewrite (uint16_id (calcCRC body)) by (apply calcCRC_range, Hbody).
    assert (Hfc : Z.ldiff (nth 1 body 0) 128 = Z.land (nth 1 body 0) 127).
    { apply mask_error_bit.
      destruct (nth_in_or_default 1 body 0) as [Hin | ->]; [|unfold is_byte; lia].
      rewrite Forall_forall in Hbody. apply Hbody, list_elem_of_In, Hin. }
    rewrite Hfc.
    destruct (lo + 256 * hi =? calcCRC body); simpl; [|split; reflexivity].
    destruct (nth 0 body 0 =? RTURequest.serverID request); simpl; [|split; reflexivity].
    destruct (Z.land (nth 1 body 0) 127 =? RTURequest.functionCode request); simpl;
      repeat split; reflexivity.
Qed.


Lemma error_exit_frame request l :
  is_byte (RTURequest.serverID request) ->
  is_byte (RTURequest.functionCode request) ->
  is_byte (errorCode l) ->
  response (error_exit calcCRC request l) =
    Some (error_frame calcCRC request (errorCode l)) /\
  state (error_exit calcCRC request l) = FINISHED /\
  errorCode (error_exit calcCRC request l) = errorCode l /\
  buffer (error_exit calcCRC request l) = buffer l.
Proof.
  intros Hsid Hfc He.
  assert (Hfc' : is_byte (Z.lor (RTURequest.functionCode request) 128))
    by (apply lor_byte; [assumption | unfold is_byte; lia]).
  unfold error_exit, error_frame, RTUResponse.setCRC, RTUResponse.add, RTUResponse.new,
    RTUResponse.data, RTURequest.getServerID, RTURequest.getFunctionCode. simpl.
  rewrite !uint8_id by assumption.
  rewrite uint16_id
    by (apply calcCRC_range; repeat (apply List.Forall_cons; [assumption|]); apply List.Forall_nil).
  repeat split; reflexivity.
Qed.

Lemma receive_errors_bytes e : In e receive_errors -> is_byte e.
Proof.
  pose proof codes_bytes as Hb. rewrite Forall_forall in Hb.
  intros Hin. apply Hb, list_elem_of_In. unfold receive_errors in Hin. simpl in *.
  intuition auto.
Qed.

Lemma reject_is_receive_error request buf e :
  frame_complete_spec calcCRC request buf = Reject e -> In e receive_errors.
Proof.
  unfold frame_complete_spec, first_failing, receive_errors.
  destruct (length buf <? 5)%nat; [intros [= <-]; simpl; auto|].
  simpl.
  repeat match goal with
         | |- context [negb ?b] => destruct b; simpl
         end; intros [= <-]; simpl; auto 6.
Qed.

Lemma data_read_buffer request l : buffer (data_read calcCRC request l) = buffer l.
Proof.
  unfold data_read.
  repeat match goal with
         | |- context [if ?b then _ else _] => destruct b
         end; reflexivity.
Qed.

Lemma data_read_inv request l :
  state l = DATA_READ -> rx_inv calcCRC request l ->
  rx_inv calcCRC request (data_read calcCRC request l).
Proof.
  intros Hst [Hby Hi]. rewrite Hst in Hi.
  split; [rewrite data_read_buffer; exact Hby|].
  pose proof (data_read_spec request l Hby) as Hspec.
  rewrite data_read_buffer.
  destruct (frame_complete_spec calcCRC request (buffer l)) as [r|e] eqn:Ev.
  - destruct Hspec as (-> & Hr & He). left. rewrite He, Hr. eauto.
  - destruct Hspec as (-> & ->). eapply reject_is_receive_error, Ev.
Qed.

Lemma error_exit_inv request l :
  is_byte (RTURequest.serverID request) ->
  is_byte (RTURequest.functionCode request) ->
  state l = ERROR_EXIT -> rx_inv calcCRC request l ->
  rx_inv calcCRC request (error_exit calcCRC request l).
Proof.
  intros Hsid Hfc Hst [Hby Hi]. rewrite Hst in Hi.
  destruct (error_exit_frame request l Hsid Hfc (receive_errors_bytes _ Hi))
    as (Hr & Hs & He & Hb).
  split; [rewrite Hb; exact Hby|].
  rewrite Hs, He, Hr. right. split; [exact Hi | reflexivity].
Qed.

End EngineFacts.

(** *** The receive state machine keeps its invariant, the configuration
    and the handlers' silence *)

Section EngineRuns.
Context `{EC : ErrorCodes}.
Variable calcCRC : list Z -> Z.

Lemma rx_post_same request c l w w' :
  callbacks_of (w_trace w') = callbacks_of (w_trace w) ->
  rx_post calcCRC request c l w (c, l) w'.
Proof.
  intros Hq. split; [apply same_config_refl | split; [intros _ _ _ H; exact H | exact Hq]].
Qed.

Lemma in_packet_read_post request fuel : forall c l w,
  state l = IN_PACKET ->
  post (in_packet_read fuel c l) w
    (fun res w' => rx_post calcCRC request c l w res w' /\ state (snd res) = IN_PACKET).
Proof.
  assert (Hstep : forall fuel c l w (buf : list Z) blocks wx,
    (forall c l w, state l = IN_PACKET ->
       post (in_packet_read fuel c l) w
         (fun res w' => rx_post calcCRC request c l w res w' /\ state (snd res) = IN_PACKET)) ->
    state l = IN_PACKET ->
    (Forall is_byte (buffer l) -> Forall is_byte buf) ->
    callbacks_of (w_trace wx) = callbacks_of (w_trace w) ->
    post (bind micros (fun now =>
            in_packet_read fuel (set_lastMicros now c) (set_buffer buf blocks l))) wx
      (fun res w' => rx_post calcCRC request c l w res w' /\ state (snd res) = IN_PACKET)).
  { intros fuel' c l w buf blocks wx IH Hst Hbuf Hq. io_step. io_step.
    eapply post_weaken; [apply IH; exact Hst|].
    intros [c' l'] w' [(Hc & Hinv & Hcb) Hst']. simpl in *.
    split; [|exact Hst'].
    split; [|split]; simpl.
    - eapply same_config_trans; [|exact Hc]. auto with rtu.
    - intros Hfit Hsid Hfc [Hby Hi]. apply Hinv; try assumption.
      unfold rx_inv, set_buffer; simpl.
      rewrite Hst in *. split; [apply Hbuf, Hby | exact Hi].
    - rewrite Hcb. simpl. exact Hq. }
  induction fuel as [|fuel IH]; intros c l w Hst; simpl.
  - io_step. io_step. io_step; io_step.
    split; [apply rx_post_same; reflexivity | exact Hst].
  - io_step. io_step.
    io_step; [io_step; split; [apply rx_post_same; reflexivity | exact Hst]|].
    io_step. io_step.
    assert (Hbuf : Forall is_byte (buffer l) -> Forall is_byte (buffer l ++ [uint8 b])).
    { intros Hby. apply Forall_app. split; [exact Hby|].
      apply List.Forall_cons; [apply uint8_byte | apply List.Forall_nil]. }
    io_step.
    io_step; [io_step; [io_step | io_step; apply Hstep; auto]
             | io_step; apply Hstep; auto].
Qed.

Lemma receive_step_post request c l w :
  post (receive_step calcCRC request c l) w (rx_post calcCRC request c l w).
Proof.
  unfold receive_step.
  destruct (state l) eqn:Hst.
  - (* WAIT_INTERVAL *)
    io_step. io_step. io_step.
    + io_step. split; [apply same_config_refl | split; [|reflexivity]].
      intros _ _ _ [Hby Hi]. split; [exact Hby|]. rewrite Hst in Hi. exact Hi.
    + io_step. io_step. io_step. apply rx_post_same. simpl. rewrite callbacks_of_snoc. apply app_nil_r.
  - (* WAIT_DATA *)
    io_step. io_step. io_step.
    assert (Hrest : forall c' l' wx,
      same_config c c' ->
      (crc_fits calcCRC -> is_byte (RTURequest.serverID request) ->
       is_byte (RTURequest.functionCode request) ->
       rx_inv calcCRC request l -> rx_inv calcCRC request l') ->
      callbacks_of (w_trace wx) = callbacks_of (w_trace w) ->
      post (bind (delay 1) (fun _ => ret (c', l'))) wx (rx_post calcCRC request c l w)).
    { intros c' l' wx Hc Hinv Hq. io_step. io_step. io_step.
      split; [exact Hc | split; [exact Hinv|]]. simpl.
      rewrite callbacks_of_snoc, app_nil_r. exact Hq. }
    io_step.
    + io_step. io_step. io_step. apply Hrest; [auto with rtu | | reflexivity].
      intros _ _ _ [Hby Hi]. split; [exact Hby|]. rewrite Hst in Hi. exact Hi.
    + io_step. io_step. io_step.
      * io_step. apply Hrest; [auto with rtu | | reflexivity].
        intros _ _ _ [Hby Hi]. split; [exact Hby|]. simpl. unfold receive_errors. simpl. auto.
      * io_step. apply Hrest; [auto with rtu | auto | reflexivity].
  - (* IN_PACKET *)
    io_step. io_step. io_step. eapply post_weaken; [apply (in_packet_read_post request); exact Hst|].
    intros [c' l'] w1 [(Hc & Hinv & Hq) Hst']. simpl in *.
    io_step. io_step. io_step; io_step.
    + split; [exact Hc | split; [|exact Hq]].
      intros Hfit Hsid Hfc Hl. destruct (Hinv Hfit Hsid Hfc Hl) as [Hby Hi].
      split; [exact Hby|]. rewrite Hst' in Hi. exact Hi.
    + split; [exact Hc | split; [exact Hinv | exact Hq]].
  - (* DATA_READ *)
    io_step. split; [apply same_config_refl | split; [|reflexivity]].
    intros Hfit _ _. apply data_read_inv; assumption.
  - (* ERROR_EXIT *)
    io_step. split; [apply same_config_refl | split; [|reflexivity]].
    intros Hfit Hsid Hfc. apply error_exit_inv; assumption.
  - (* FINISHED *)
    io_step. apply rx_post_same. reflexivity.
Qed.

Lemma receive_loop_post request fuel : forall c l w,
  post (receive_loop calcCRC fuel request c l) w
    (fun res w' => rx_post calcCRC request c l w res w' /\ state (snd res) = FINISHED).
Proof.
  assert (Hturn : forall fuel c l w,
    (forall c l w,
       post (receive_loop calcCRC fuel request c l) w
         (fun res w' => rx_post calcCRC request c l w res w' /\ state (snd res) = FINISHED)) ->
    post (bind (receive_step calcCRC request c l)
            (fun '(c', l') => receive_loop calcCRC fuel request c' l')) w
      (fun res w' => rx_post calcCRC request c l w res w' /\ state (snd res) = FINISHED)).
  { intros fuel' c l w IH. io_step.
    eapply post_weaken; [apply receive_step_post|].
    intros [c1 l1] w1 (Hc1 & Hinv1 & Hq1). simpl in *.
    eapply post_weaken; [apply IH|].
    intros [c2 l2] w2 [(Hc2 & Hinv2 & Hq2) Hfin]. simpl in *.
    split; [|exact Hfin].
    split; [eapply same_config_trans; eassumption | split; [auto|]].
    simpl. rewrite Hq2. exact Hq1. }
  induction fuel as [|fuel IH]; intros c l w; simpl.
  - destruct (state l) eqn:Hst; try apply post_fail.
    io_step. split; [apply rx_post_same; reflexivity | exact Hst].
  - destruct (state l) eqn:Hst; try (apply Hturn; intros; apply IH).
    io_step. split; [apply rx_post_same; reflexivity | exact Hst].
Qed.

End EngineRuns.

Section EngineTheorems.
Context `{EC : ErrorCodes}.
Variable calcCRC : list Z -> Z.
Hypothesis calcCRC_range : crc_fits calcCRC.

(** C3.  DATA_READ is the spec's frame validation: a buffer of fewer than
    5 bytes gives PACKET_LENGTH_ERROR; otherwise the last two bytes are
    the CRC and the CRC, server id and function code (error bit masked)
    checks run in that order, the first failing one giving the error; a
    5-byte buffer passing the three checks is accepted. *)
Theorem frame_validation request c l w :
  state l = DATA_READ -> Forall is_byte (buffer l) ->
  exists l',
    receive_step calcCRC request c l w = Some (c, l', w) /\
    match frame_complete_spec calcCRC request (buffer l) with
    | Reject e => state l' = ERROR_EXIT /\ errorCode l' = e
    | Accept r => state l' = FINISHED /\ response l' = Some r /\ errorCode l' = errorCode l
    end /\
    ((length (buffer l) < 5)%nat ->
       state l' = ERROR_EXIT /\ errorCode l' = PACKET_LENGTH_ERROR) /\
    (forall a b x lo hi,
       buffer l = [a; b; x; lo; hi] ->
       lo + 256 * hi = calcCRC [a; b; x] ->
       a = RTURequest.serverID request ->
       Z.land b 0x7F = RTURequest.functionCode request ->
       state l' = FINISHED /\
       response l' = Some (RTUResponse.mk [a; b; x] (lo + 256 * hi))).
Proof.
  intros Hst Hby. exists (data_read calcCRC request l).
  split; [unfold receive_step; rewrite Hst; reflexivity|].
  pose proof (data_read_spec calcCRC calcCRC_range request l Hby) as Hspec.
  split; [exact Hspec|]. split.
  - intros Hlen. unfold frame_complete_spec in Hspec.
    destruct (Nat.ltb_spec (length (buffer l)) 5); [exact Hspec | lia].
  - intros a b x lo hi Hbuf Hcrc Hsid Hfc.
    rewrite Hbuf in Hspec, Hby.
    assert (Hb : is_byte b).
    { rewrite Forall_forall in Hby. apply Hby. set_solver. }
    unfold frame_complete_spec, first_failing in Hspec. simpl in Hspec.
    rewrite (mask_error_bit b Hb) in Hspec.
    rewrite Hcrc, Hsid, Hfc, !Z.eqb_refl in Hspec. simpl in Hspec.
    destruct Hspec as (H1 & H2 & _).
    split; [exact H1 | rewrite H2, Hcrc, Hsid; reflexivity].
Qed.

(** C4.  When [receive] ends in an error, the response it returns is the
    synthesized error frame: three bytes (the request's server id, its
    function code with bit 0x80 set, the error code) and the CRC
    computed over them.  A [receive] that returns is the run of its
    state machine, from the initial locals, on the world left by the
    reading of [millis()]; the response returned is the one in the final
    locals of that run.  If that run ends with an error code other than
    SUCCESS, the code is one of the five and [receive] returns that
    frame.  The frame is built by the ERROR_EXIT turn, from the error
    code the locals hold. *)
Theorem receive_error_frame request c w :
  is_byte (RTURequest.serverID request) ->
  is_byte (RTURequest.functionCode request) ->
  (forall c' resp w',
     receive calcCRC request c w = Some (c', resp, w') ->
     exists start ms c1 l w1 t,
       w_millis w = start :: ms /\
       receive_loop calcCRC (length (w_micros w) + length (w_available w) + 2) request c
         (rx_init (uint32 start))
         (mkWorld (w_micros w) ms (w_available w) (w_read w) (w_trace w)) =
         Some (c1, l, w1) /\
       w_micros w1 = t :: w_micros w' /\
       w' = mkWorld (w_micros w') (w_millis w1) (w_available w1) (w_read w1) (w_trace w1) /\
       c' = set_lastMicros (uint32 t) c1 /\
       state l = FINISHED /\
       resp = response l /\
       (errorCode l = SUCCESS \/ In (errorCode l) receive_errors) /\
       (errorCode l <> SUCCESS ->
          resp = Some (RTUResponse.mk
                         [RTURequest.serverID request;
                          Z.lor (RTURequest.functionCode request) 0x80;
                          errorCode l]
                         (calcCRC [RTURequest.serverID request;
                                   Z.lor (RTURequest.functionCode request) 0x80;
                                   errorCode l])))) /\
  (forall start ms c1 l w1 t rest,
     w_millis w = start :: ms ->
     receive_loop calcCRC (length (w_micros w) + length (w_available w) + 2) request c
       (rx_init (uint32 start))
       (mkWorld (w_micros w) ms (w_available w) (w_read w) (w_trace w)) =
       Some (c1, l, w1) ->
     w_micros w1 = t :: rest ->
     errorCode l <> SUCCESS ->
     In (errorCode l) receive_errors /\
     receive calcCRC request c w =
       Some (set_lastMicros (uint32 t) c1,
             Some (RTUResponse.mk
                     [RTURequest.serverID request;
                      Z.lor (RTURequest.functionCode request) 0x80;
                      errorCode l]
                     (calcCRC [RTURequest.serverID request;
                               Z.lor (RTURequest.functionCode request) 0x80;
                               errorCode l])),
             mkWorld rest (w_millis w1) (w_available w1) (w_read w1) (w_trace w1))) /\
  (forall c0 l0 w0,
     state l0 = ERROR_EXIT -> is_byte (errorCode l0) ->
     exists l',
       receive_step calcCRC request c0 l0 w0 = Some (c0, l', w0) /\
       state l' = FINISHED /\
       errorCode l' = errorCode l0 /\
       response l' =
         Some (RTUResponse.mk
                 [RTURequest.serverID request;
                  Z.lor (RTURequest.functionCode request) 0x80;
                  errorCode l0]
                 (calcCRC [RTURequest.serverID request;
                           Z.lor (RTURequest.functionCode request) 0x80;
                           errorCode l0]))).
Proof.
  intros Hsid Hfc.
  assert (Hend : forall start n w0 c1 l w1,
    receive_loop calcCRC n request c (rx_init start) w0 = Some (c1, l, w1) ->
    state l = FINISHED /\
    (errorCode l = SUCCESS \/ In (errorCode l) receive_errors) /\
    (errorCode l <> SUCCESS ->
     In (errorCode l) receive_errors /\
     response l = Some (error_frame calcCRC request (errorCode l)))).
  { intros start n w0 c1 l w1 Hloop.
    destruct (receive_loop_post calcCRC request _ c (rx_init start) w0 _ _ Hloop)
      as [(_ & Hinv & _) Hfin]. simpl in Hinv, Hfin.
    assert (Hinit : rx_inv calcCRC request (rx_init start)).
    { split; [apply List.Forall_nil | reflexivity]. }
    destruct (Hinv calcCRC_range Hsid Hfc Hinit) as [_ Hl]. rewrite Hfin in Hl.
    split; [exact Hfin|].
    destruct Hl as [(He & _) | (He & Hr)].
    - split; [left; exact He | intros Hne; contradiction].
    - split; [right; exact He | intros _; split; assumption]. }
  split; [|split].
  - intros c' resp w'.
    unfold receive, bind, micros_left, available_left, millis, micros, ret.
    destruct (w_millis w) as [|start ms] eqn:Hms; [discriminate|].
    cbn [w_micros w_available].
    destruct (receive_loop calcCRC (length (w_micros w) + length (w_available w) + 2)
                request c (rx_init (uint32 start))
                (mkWorld (w_micros w) ms (w_available w) (w_read w) (w_trace w)))
      as [[[c1 l] w1]|] eqn:Eloop; [|discriminate].
    destruct (w_micros w1) as [|t ts] eqn:Hus; [discriminate|].
    intros [= <- <- <-].
    destruct (Hend _ _ _ _ _ _ Eloop) as (Hfin & Hcode & Herr).
    exists start, ms, c1, l, w1, t.
    split; [reflexivity|]. split; [exact Eloop|]. split; [exact Hus|].
    split; [reflexivity|].
    split; [reflexivity|]. split; [exact Hfin|]. split; [reflexivity|].
    split; [exact Hcode|].
    intros Hne. apply Herr, Hne.
  - intros start ms c1 l w1 t rest Hms Hloop Hus Hne.
    destruct (Hend _ _ _ _ _ _ Hloop) as (_ & _ & Herr).
    destruct (Herr Hne) as [Hin Hresp].
    split; [exact Hin|].
    unfold receive, bind, micros_left, available_left, millis, micros, ret.
    rewrite Hms. cbn [w_micros w_available]. rewrite Hloop, Hus, Hresp. reflexivity.
  - intros c0 l0 w0 Hst He.
    exists (error_exit calcCRC request l0).
    split; [unfold receive_step; rewrite Hst; reflexivity|].
    destruct (error_exit_frame calcCRC calcCRC_range request l0 Hsid Hfc He)
      as (Hresp & Hfin & Hcode & _).
    split; [exact Hfin|]. split; [exact Hcode|]. exact Hresp.
Qed.

(** [generateErrorResponse] builds the same frame as ERROR_EXIT, with
    the CRC appended low byte first, and the frame passes the check of
    DATA_READ. *)
Lemma generateErrorResponse_frame checkServerFC serverID functionCode e :
  checkServerFC serverID functionCode = SUCCESS ->
  is_byte serverID -> is_byte functionCode -> is_byte e ->
  generateErrorResponse calcCRC checkServerFC serverID functionCode e =
    append_crc calcCRC [serverID; Z.lor functionCode 0x80; e] /\
  crc_valid calcCRC
    (generateErrorResponse calcCRC checkServerFC serverID functionCode e) = true.
Proof.
  intros Hok Hsid Hfc He.
  assert (Hfc' : is_byte (Z.lor functionCode 128))
    by (apply lor_byte; [assumption | unfold is_byte; lia]).
  assert (Hcrc : is_u16 (calcCRC [serverID; Z.lor functionCode 128; e])).
  { apply calcCRC_range. repeat (apply List.Forall_cons; [assumption|]). apply List.Forall_nil. }
  assert (E : generateErrorResponse calcCRC checkServerFC serverID functionCode e =
              append_crc calcCRC [serverID; Z.lor functionCode 128; e]).
  { unfold generateErrorResponse, append_crc. rewrite Hok, Z.eqb_refl. simpl.
    rewrite !(uint8_id serverID), !(uint8_id (Z.lor functionCode 128)), !(uint8_id e)
      by assumption.
    rewrite (uint16_id _ Hcrc).
    fold (crc_lo (calcCRC [serverID; Z.lor functionCode 128; e])).
    fold (crc_hi (calcCRC [serverID; Z.lor functionCode 128; e])).
    rewrite !uint8_id by (apply crc_lo_byte || apply crc_hi_byte). reflexivity. }
  split; [exact E|]. rewrite E. apply append_crc_valid, Hcrc.
Qed.

End EngineTheorems.

Lemma frame_validation_witness :
  exists l',
    receive_step (EC := example_codes) RTUCRC.calcCRC
      (RTURequest.mk 1 3 [0; 0; 0; 1] 2692 77)
      (mkClient 0 2000 (-1) 2 2000 [] 0 true true)
      (mkRx [1; 131; 2; 192; 241] 1 DATA_READ 0 0 None)
      (mkWorld [] [] [] [] []) =
    Some (mkClient 0 2000 (-1) 2 2000 [] 0 true true, l', mkWorld [] [] [] [] []) /\
    state l' = FINISHED /\
    response l' = Some (RTUResponse.mk [1; 131; 2] 61888).
Proof.
  destruct (frame_validation (EC := example_codes) RTUCRC.calcCRC calcCRC_u16
              (RTURequest.mk 1 3 [0; 0; 0; 1] 2692 77)
              (mkClient 0 2000 (-1) 2 2000 [] 0 true true)
              (mkRx [1; 131; 2; 192; 241] 1 DATA_READ 0 0 None)
              (mkWorld [] [] [] [] []))
    as (l' & Hstep & _ & _ & Hfive).
  - reflexivity.
  - repeat (apply List.Forall_cons; [unfold is_byte; lia|]). apply List.Forall_nil.
  - exists l'. split; [exact Hstep|].
    apply (Hfive 1 131 2 192 241); reflexivity.
Defined.

Lemma receive_error_frame_witness :
  In 0xE0 (receive_errors (EC := example_codes)) /\
  receive (EC := example_codes) RTUCRC.calcCRC example_request
    (example_client 2 true true) (mkWorld [5000; 6000] [0; 2000] [0] [] []) =
    Some (mkClient 6000 2000 (-1) 2 2000 [] 0 true true,
          Some (RTUResponse.mk [1; Z.lor 3 0x80; 0xE0]
                  (RTUCRC.calcCRC [1; Z.lor 3 0x80; 0xE0])),
          mkWorld [] [] [] [] [EvDelay 1]).
Proof.
  destruct (receive_error_frame (EC := example_codes) RTUCRC.calcCRC calcCRC_u16
              example_request (example_client 2 true true)
              (mkWorld [5000; 6000] [0; 2000] [0] [] []))
    as (_ & Herror & _).
  - unfold is_byte; simpl; lia.
  - unfold is_byte; simpl; lia.
  - apply (Herror 0 [2000] (example_client 2 true true)
             (mkRx [] 1 FINISHED 0 0xE0 (Some (RTUResponse.mk [1; 131; 224] 47168)))
             (mkWorld [6000] [] [] [] [EvDelay 1]) 6000 []).
    + reflexivity.
    + vm_compute. reflexivity.
    + reflexivity.
    + simpl. lia.
Defined.

(* ===================================================================== *)
(** ** Sending a request *)
(* ===================================================================== *)

Lemma uint32_sub t t_last : uint32 (uint32 t - uint32 t_last) = uint32 (t - t_last).
Proof. unfold uint32. symmetry. apply Zminus_mod. Qed.

Lemma send_wait_runs c t_last t rest early : forall fuel w,
  MR_lastMicros c = uint32 t_last ->
  Forall (fun x => uint32 (x - t_last) < MR_interval c) early ->
  MR_interval c <= uint32 (t - t_last) ->
  w_micros w = early ++ t :: rest ->
  (length early <= fuel)%nat ->
  send_wait fuel c w =
    Some (tt, mkWorld rest (w_millis w) (w_available w) (w_read w)
                (w_trace w ++ repeat (EvDelayMicroseconds 1) (length early))).
Proof.
  intros fuel w Hlast. revert fuel w.
  induction early as [|x early IH]; intros fuel w Hearly Hexit Hw Hfuel.
  - assert (E : send_wait fuel c w =
                bind micros (fun now =>
                  if uint32 (now - MR_lastMicros c) <? MR_interval c
                  then match fuel with
                       | O => fail
                       | S fuel' => bind (delayMicroseconds 1) (fun _ => send_wait fuel' c)
                       end
                  else ret tt) w) by (destruct fuel; reflexivity).
    rewrite E. unfold bind, micros. simpl in Hw. rewrite Hw.
    rewrite Hlast, uint32_sub.
    destruct (Z.ltb_spec (uint32 (t - t_last)) (MR_interval c)); [lia|].
    simpl. rewrite app_nil_r. reflexivity.
  - destruct fuel as [|fuel]; [simpl in Hfuel; lia|].
    inversion Hearly as [|? ? Hx Hearly']; subst.
    simpl. unfold bind at 1. unfold micros. simpl in Hw. rewrite Hw.
    rewrite Hlast, uint32_sub.
    destruct (Z.ltb_spec (uint32 (x - t_last)) (MR_interval c)); [|lia].
    unfold bind at 1. unfold delayMicroseconds, emit. simpl.
    erewrite IH; [| exact Hearly' | exact Hexit | reflexivity | simpl in Hfuel; lia].
    simpl. rewrite <- app_assoc. reflexivity.
Qed.

(** Conversely, a [send] that returns found the clock readings in
    exactly that shape. *)
Lemma send_wait_shape fuel c : forall w u w',
  send_wait fuel c w = Some (u, w') ->
  exists early t,
    w_micros w = early ++ t :: w_micros w' /\
    Forall (fun x => uint32 (uint32 x - MR_lastMicros c) < MR_interval c) early /\
    MR_interval c <= uint32 (uint32 t - MR_lastMicros c).
Proof.
  induction fuel as [|fuel IH]; intros w u w' Hrun; simpl in Hrun;
    unfold bind, micros in Hrun;
    destruct (w_micros w) as [|t ts] eqn:Hw; try discriminate;
    destruct (Z.ltb_spec (uint32 (uint32 t - MR_lastMicros c)) (MR_interval c)) as [Hlt|Hge].
  - discriminate.
  - inversion Hrun; subst. exists [], t. simpl. auto.
  - simpl in Hrun. apply IH in Hrun as (early & t' & Heq & Hearly & Hexit).
    simpl in Heq. exists (t :: early), t'. rewrite Heq. auto.
  - inversion Hrun; subst. exists [], t. simpl. auto.
Qed.

Lemma send_shape request c w c' w' :
  send request c w = Some (c', w') ->
  exists early t t_done,
    w_micros w = early ++ t :: t_done :: w_micros w' /\
    Forall (fun x => uint32 (uint32 x - MR_lastMicros c) < MR_interval c) early /\
    MR_interval c <= uint32 (uint32 t - MR_lastMicros c) /\
    c' = set_lastMicros (uint32 t_done) c.
Proof.
  unfold send. unfold bind at 1. unfold micros_left. unfold bind at 1.
  destruct (send_wait (length (w_micros w)) c w) as [[u w1]|] eqn:Hwait; [|discriminate].
  apply send_wait_shape in Hwait as (early & t & Heq & Hearly & Hexit).
  intros Hrest.
  assert (Hdone : exists t_done, w_micros w1 = t_done :: w_micros w' /\
                                 c' = set_lastMicros (uint32 t_done) c).
  { revert Hrest.
    destruct (0 <=? MR_rtsPin c);
      unfold bind, digitalWrite, serial_write, serial_flush, emit, ret, micros; simpl;
      destruct (w_micros w1) as [|t_done rest]; try discriminate;
      intros [= <- <-]; eauto. }
  destruct Hdone as (t_done & Hw1 & ->).
  exists early, t, t_done. rewrite Heq, Hw1. auto.
Qed.

(** C7.  [send] waits while the clock shows less than one inter-frame
    interval since the last bus activity, then raises the direction pin
    if there is one, writes server id, function code and payload, the CRC
    low byte and the CRC high byte, flushes, lowers the pin, and records
    the time read after that as the time of the last bus activity. *)
Theorem send_frame request c w t_last early t t_done rest :
  MR_lastMicros c = uint32 t_last ->
  w_micros w = early ++ t :: t_done :: rest ->
  Forall (fun x => uint32 (x - t_last) < MR_interval c) early ->
  MR_interval c <= uint32 (t - t_last) ->
  t_last <= t ->
  send request c w =
    Some (set_lastMicros (uint32 t_done) c,
          mkWorld rest (w_millis w) (w_available w) (w_read w)
            (w_trace w
             ++ repeat (EvDelayMicroseconds 1) (length early)
             ++ (if 0 <=? MR_rtsPin c then [EvDigitalWrite (MR_rtsPin c) true] else [])
             ++ [EvSerialWrite (RTURequest.serverID request
                                :: RTURequest.functionCode request
                                :: RTURequest.payload request);
                 EvSerialWrite [RTURequest.CRC request mod 256];
                 EvSerialWrite [(RTURequest.CRC request / 256) mod 256];
                 EvSerialFlush]
             ++ (if 0 <=? MR_rtsPin c then [EvDigitalWrite (MR_rtsPin c) false] else []))) /\
  MR_interval c <= t - t_last.
Proof.
  intros Hlast Hw Hearly Hexit Hmono. split.
  - unfold send. unfold bind at 1. unfold micros_left. unfold bind at 1.
    rewrite (send_wait_runs c t_last t (t_done :: rest) early _ w Hlast Hearly Hexit Hw)
      by (rewrite Hw, length_app; lia).
    unfold crc_lo, crc_hi. rewrite !land_255, Z.shiftr_div_pow2 by lia.
    change (2 ^ 8) with 256.
    destruct (0 <=? MR_rtsPin c);
      unfold bind, digitalWrite, serial_write, serial_flush, emit, ret, micros,
        RTURequest.data; simpl;
      rewrite <- ?app_assoc; reflexivity.
  - pose proof (Z.mod_le (t - t_last) 4294967296 ltac:(lia) ltac:(lia)) as Hle.
    unfold uint32 in Hexit. lia.
Qed.

Lemma send_frame_witness :
  send (RTURequest.mk 1 3 [0; 0; 0; 1] 2692 77)
       (mkClient 0 2000 4 2 2000 [] 0 true true)
       (mkWorld [100; 2500; 3000; 3001] [] [] [] []) =
    Some (mkClient 3000 2000 4 2 2000 [] 0 true true,
          mkWorld [3001] [] [] []
            [EvDelayMicroseconds 1; EvDigitalWrite 4 true;
             EvSerialWrite [1; 3; 0; 0; 0; 1]; EvSerialWrite [132]; EvSerialWrite [10];
             EvSerialFlush; EvDigitalWrite 4 false]) /\
  2000 <= 2500 - 0.
Proof.
  apply (send_frame (RTURequest.mk 1 3 [0; 0; 0; 1] 2692 77)
           (mkClient 0 2000 4 2 2000 [] 0 true true)
           (mkWorld [100; 2500; 3000; 3001] [] [] [] []) 0 [100] 2500 3000 [3001]).
  - reflexivity.
  - reflexivity.
  - apply List.Forall_cons; [vm_compute; reflexivity | apply List.Forall_nil].
  - vm_compute. discriminate.
  - lia.
Defined.

(* ===================================================================== *)
(** ** What the worker's calls leave alone *)
(* ===================================================================== *)

Lemma same_config_settings c c' : same_config c c' -> same_settings c c'.
Proof. intros ->. repeat split. Qed.

Lemma same_config_requests c c' : same_config c c' -> requests c' = requests c.
Proof. intros ->. reflexivity. Qed.

Lemma same_settings_refl c : same_settings c c.
Proof. repeat split. Qed.

Lemma same_settings_trans c1 c2 c3 :
  same_settings c1 c2 -> same_settings c2 c3 -> same_settings c1 c3.
Proof. unfold same_settings. intuition congruence. Qed.

Lemma send_wait_post fuel c : forall w,
  post (send_wait fuel c) w
    (fun _ w' => callbacks_of (w_trace w') = callbacks_of (w_trace w)).
Proof.
  induction fuel as [|fuel IH]; intros w; simpl.
  - io_step. io_step. io_step; io_step. reflexivity.
  - io_step. io_step. io_step; [|io_step; reflexivity].
    io_step. io_step. eapply post_weaken; [apply IH|].
    intros u w' Hq. simpl in Hq. rewrite Hq. rewrite callbacks_of_snoc. apply app_nil_r.
Qed.

Lemma send_post request c w :
  post (send request c) w
    (fun c' w' => same_config c c' /\
                  callbacks_of (w_trace w') = callbacks_of (w_trace w)).
Proof.
  unfold send. io_step. io_step. io_step.
  eapply post_weaken; [apply send_wait_post|].
  intros u w1 Hq. simpl in Hq.
  assert (Hpin : forall high wx Q,
    (forall wy, callbacks_of (w_trace wy) = callbacks_of (w_trace wx) -> Q tt wy) ->
    post (if 0 <=? MR_rtsPin c then digitalWrite (MR_rtsPin c) high else ret tt) wx Q).
  { intros high wx Q HQ. io_step; io_step; apply HQ; [|reflexivity].
    simpl. rewrite callbacks_of_snoc. apply app_nil_r. }
  io_step. apply Hpin. intros w2 Hq2.
  do 4 (io_step; io_step).
  io_step. apply Hpin. intros w3 Hq3.
  io_step. io_step. io_step.
  split; [auto with rtu|]. simpl.
  rewrite Hq3. simpl. rewrite !callbacks_of_snoc, !app_nil_r. simpl.
  rewrite Hq2. exact Hq.
Qed.

Section ReceiveFrame.
Context `{EC : ErrorCodes}.
Variable calcCRC : list Z -> Z.

Lemma receive_post request c w :
  post (receive calcCRC request c) w
    (fun res w' => same_config c (fst res) /\
                   callbacks_of (w_trace w') = callbacks_of (w_trace w)).
Proof.
  unfold receive. do 3 (io_step; io_step). io_step.
  eapply post_weaken; [apply receive_loop_post|].
  intros [c1 l1] w1 [(Hc & _ & Hq) _]. simpl in *.
  io_step. io_step. io_step.
  split; [apply same_config_set, Hc | exact Hq].
Qed.

End ReceiveFrame.

(* ===================================================================== *)
(** ** The inter-frame interval *)
(* ===================================================================== *)

Lemma begin_interval baudRate c w :
  0 < baudRate < 4294967296 ->
  exists w',
    begin baudRate c w = Some (set_interval (Z.max 1000 (40000000 / baudRate)) c, w').
Proof.
  intros Hb.
  assert (Hq : 0 <= 40000000 / baudRate <= 40000000).
  { split; [apply Z.div_pos; lia|].
    apply Z.div_le_upper_bound; [lia|]. nia. }
  assert (Hset : (if uint32 (40000000 / baudRate) <? 1000
                  then 1000 else uint32 (40000000 / baudRate))
                 = Z.max 1000 (40000000 / baudRate)).
  { unfold uint32. rewrite Z.mod_small by lia.
    destruct (Z.ltb_spec (40000000 / baudRate) 1000); lia. }
  unfold begin. destruct (Z.eqb_spec baudRate 0) as [->|_]; [lia|].
  rewrite Hset.
  destruct (0 <=? MR_rtsPin c); eexists; reflexivity.
Qed.

Section SystemFrame.
Context `{EC : ErrorCodes}.
Variable calcCRC : list Z -> Z.

Lemma addToQueue_settings request c :
  same_settings c (snd (addToQueue request c)).
Proof.
  unfold addToQueue. destruct request as [p|]; [|apply same_settings_refl].
  destruct (Z.of_nat (length (requests c)) <? MR_qLimit c); repeat split.
Qed.

Lemma addRequest_settings b c h :
  same_settings c (snd (fst (addRequest b c h))).
Proof.
  unfold addRequest. destruct b as [r|rc]; cbn [createRTURequest];
    [|apply same_settings_refl].
  pose proof (addToQueue_settings (Some (fresh (dom h))) c) as Hs.
  destruct (addToQueue (Some (fresh (dom h))) c) as [[|] c1]; exact Hs.
Qed.

Lemma handleConnection_step_settings s s' :
  handleConnection_step calcCRC s = Some s' -> same_settings (inst s) (inst s').
Proof.
  unfold handleConnection_step. intros Hstep.
  destruct (worker s) as [|p|p|p resp|p resp|p resp].
  - destruct (requests (inst s)); simplify_option_eq; apply same_settings_refl.
  - destruct (heap s !! p) as [r|]; [|discriminate]. simpl in Hstep.
    destruct (send r (inst s) (world s)) as [[c w]|] eqn:E; [|discriminate].
    inversion Hstep; subst; simpl.
    apply same_config_settings, (send_post r (inst s) (world s) _ _ E).
  - destruct (heap s !! p) as [r|]; [|discriminate]. simpl in Hstep.
    destruct (receive calcCRC r (inst s) (world s)) as [[[c resp] w]|] eqn:E; [|discriminate].
    inversion Hstep; subst; simpl.
    apply same_config_settings, (receive_post calcCRC r (inst s) (world s) _ _ E).
  - destruct (heap s !! p) as [r|]; [|discriminate]. simpl in Hstep.
    destruct resp as [resp|]; [|discriminate]. simpl in Hstep.
    destruct (deliver (inst s) r resp (world s)) as [[u w]|]; [|discriminate].
    inversion Hstep; subst; simpl. apply same_settings_refl.
  - destruct (requests (inst s)); [discriminate|].
    inversion Hstep; subst; simpl. repeat split.
  - inversion Hstep; subst; simpl. apply same_settings_refl.
Qed.

Lemma step_settings a s s' :
  step calcCRC a s = Some s' -> same_settings (inst s) (inst s').
Proof.
  destruct a as [b|]; simpl; [|apply handleConnection_step_settings].
  pose proof (addRequest_settings b (inst s) (heap s)) as Hs.
  destruct (addRequest b (inst s) (heap s)) as [[rc c] h].
  intros [= <-]. exact Hs.
Qed.

Lemma run_settings sched : forall s s',
  run calcCRC sched s = Some s' -> same_settings (inst s) (inst s').
Proof.
  induction sched as [|a sched IH]; intros s s' Hrun; simpl in Hrun.
  - inversion Hrun; subst. apply same_settings_refl.
  - destruct (step calcCRC a s) as [s1|] eqn:E; [|discriminate]. simpl in Hrun.
    eapply same_settings_trans; [eapply step_settings, E | apply IH, Hrun].
Qed.

(** C6.  [begin] sets the inter-frame interval to
    [max 1000 (40000000 / baud)] microseconds, and nothing a caller or the
    worker does afterwards changes it. *)
Theorem interval_fixed_at_startup baudRate s sched :
  0 < baudRate < 4294967296 ->
  exists s1,
    start baudRate s = Some s1 /\
    MR_interval (inst s1) = Z.max 1000 (40000000 / baudRate) /\
    (forall s', run calcCRC sched s1 = Some s' ->
       MR_interval (inst s') = Z.max 1000 (40000000 / baudRate)).
Proof.
  intros Hb. destruct (begin_interval baudRate (inst s) (world s) Hb) as [w' Hbegin].
  unfold start. rewrite Hbegin. simpl. eexists. split; [reflexivity|].
  split; [reflexivity|].
  intros s' Hrun. apply run_settings in Hrun. destruct Hrun as [Hi _].
  rewrite Hi. reflexivity.
Qed.

End SystemFrame.

Lemma interval_fixed_at_startup_witness :
  exists s1,
    start 115200 (example_system true true) = Some s1 /\
    MR_interval (inst s1) = Z.max 1000 (40000000 / 115200) /\
    (forall s', run (EC := example_codes) RTUCRC.calcCRC example_schedule s1 = Some s' ->
       MR_interval (inst s') = Z.max 1000 (40000000 / 115200)).
Proof.
  apply (interval_fixed_at_startup (EC := example_codes) RTUCRC.calcCRC 115200
           (example_system true true) example_schedule).
  lia.
Defined.

(* ===================================================================== *)
(** ** Submitting a request *)
(* ===================================================================== *)

Section QueueFacts.
Context `{EC : ErrorCodes}.
Variable calcCRC : list Z -> Z.

Lemma queue_full_not_success : REQUEST_QUEUE_FULL <> SUCCESS.
Proof.
  pose proof codes_distinct as Hd.
  apply NoDup_cons in Hd as [Hnot _].
  intros E. apply Hnot. rewrite <- E. set_solver.
Qed.

Lemma fresh_unused (h : gmap nat RTURequest.t) : h !! fresh (dom h) = None.
Proof. apply not_elem_of_dom, is_fresh. Qed.

Lemma addRequest_Built r c h :
  addRequest (Built r) c h =
  if Z.of_nat (length (requests c)) <? MR_qLimit c
  then (SUCCESS,
        set_messageCount (uint32 (messageCount c + 1))
          (set_requests (requests c ++ [fresh (dom h)]) c),
        <[fresh (dom h) := r]> h)
  else (REQUEST_QUEUE_FULL, set_messageCount (uint32 (messageCount c + 1)) c, h).
Proof.
  unfold addRequest, createRTURequest, addToQueue.
  destruct (Z.of_nat (length (requests c)) <? MR_qLimit c); [reflexivity|].
  rewrite delete_insert_id by apply fresh_unused. reflexivity.
Qed.

(** C2.  For a well-formed request, [addRequest] returns
    REQUEST_QUEUE_FULL exactly when the queue already holds [MR_qLimit]
    entries or more; it always returns; on that rejection the queue is
    as before and the request object is deleted again; otherwise the
    request is appended to the queue. *)
Theorem addRequest_queue_full r c h :
  exists rc c' h',
    addRequest (Built r) c h = (rc, c', h') /\
    (rc = REQUEST_QUEUE_FULL <-> MR_qLimit c <= Z.of_nat (length (requests c))) /\
    (rc = REQUEST_QUEUE_FULL -> requests c' = requests c /\ h' = h) /\
    (rc <> REQUEST_QUEUE_FULL ->
       rc = SUCCESS /\
       exists p, h !! p = None /\ requests c' = requests c ++ [p] /\ h' = <[p := r]> h).
Proof.
  rewrite addRequest_Built.
  destruct (Z.ltb_spec (Z.of_nat (length (requests c))) (MR_qLimit c)) as [Hroom|Hfull].
  - eexists _, _, _. split; [reflexivity|].
    pose proof queue_full_not_success as Hne.
    split; [split; [intros E; congruence | lia]|].
    split; [intros E; congruence|].
    intros _. split; [reflexivity|].
    exists (fresh (dom h)). split; [apply fresh_unused | split; reflexivity].
  - eexists _, _, _. split; [reflexivity|].
    split; [split; [intros _; exact Hfull | reflexivity]|].
    split; [intros _; split; reflexivity | intros Hne; contradiction].
Qed.

(** C10.  [addToQueue] with a request adds one to [messageCount]
    (a 32-bit counter) whether or not the request is queued; without a
    request it leaves the counter alone. *)
Theorem addToQueue_counts_attempts p c :
  messageCount (snd (addToQueue (Some p) c)) = uint32 (messageCount c + 1) /\
  (0 <= messageCount c < 4294967295 ->
     messageCount (snd (addToQueue (Some p) c)) = messageCount c + 1) /\
  (fst (addToQueue (Some p) c) = true <->
     Z.of_nat (length (requests c)) < MR_qLimit c) /\
  (fst (addToQueue (Some p) c) = false ->
     requests (snd (addToQueue (Some p) c)) = requests c) /\
  messageCount (snd (addToQueue None c)) = messageCount c.
Proof.
  unfold addToQueue.
  destruct (Z.ltb_spec (Z.of_nat (length (requests c))) (MR_qLimit c)) as [Hroom|Hfull];
    simpl.
  - split; [reflexivity|]. split; [intros Hr; unfold uint32; apply Z.mod_small; lia|].
    split; [tauto|]. split; [discriminate | reflexivity].
  - split; [reflexivity|]. split; [intros Hr; unfold uint32; apply Z.mod_small; lia|].
    split; [split; [discriminate | lia]|]. split; reflexivity.
Qed.

(** C5, as the code has it.  A submission that finds the queue full
    returns REQUEST_QUEUE_FULL and calls no handler: the platform, and
    with it the trace of handler calls, is as before the call. *)
Theorem queue_full_is_only_returned r s :
  MR_qLimit (inst s) <= Z.of_nat (length (requests (inst s))) ->
  exists s',
    step calcCRC (CallAddRequest (Built r)) s = Some s' /\
    calls s' = calls s ++ [(Built r, REQUEST_QUEUE_FULL)] /\
    world s' = world s /\
    callbacks s' = callbacks s /\
    requests (inst s') = requests (inst s) /\
    heap s' = heap s.
Proof.
  intros Hfull. unfold step. rewrite addRequest_Built.
  destruct (Z.ltb_spec (Z.of_nat (length (requests (inst s)))) (MR_qLimit (inst s)));
    [lia|].
  eexists. split; [reflexivity|]. repeat split.
Qed.

End QueueFacts.

Lemma queue_full_is_only_returned_witness :
  exists s',
    step (EC := example_codes) RTUCRC.calcCRC (CallAddRequest (Built other_request))
      example_full = Some s' /\
    calls s' = calls example_full ++ [(Built other_request, 0xE8)] /\
    world s' = world example_full /\
    callbacks s' = callbacks example_full /\
    requests (inst s') = requests (inst example_full) /\
    heap s' = heap example_full.
Proof.
  apply (queue_full_is_only_returned (EC := example_codes) RTUCRC.calcCRC
           other_request example_full).
  simpl. lia.
Defined.

(** C5 as the specification states it does not hold: the queue is full,
    an error handler is registered, the submission returns
    REQUEST_QUEUE_FULL, and no handler call is in the trace. *)
Lemma queue_full_calls_no_handler :
  step (EC := example_codes) RTUCRC.calcCRC (CallAddRequest (Built other_request))
    example_full =
  Some (mkSystem (mkClient 0 2000 (-1) 1 2000 [0%nat] 2 true true)
                 (<[0%nat := example_request]> ∅)
                 silent_bus LoopTop
                 [(Built example_request, 0); (Built other_request, 0xE8)]) /\
  onError (inst example_full) = true /\
  ~ In (EvOnError 0xE8 (RTURequest.token other_request)) (w_trace silent_bus).
Proof.
  split; [vm_compute; reflexivity|]. split; [reflexivity|].
  simpl. tauto.
Qed.

(* ===================================================================== *)
(** ** The worker loop and the queue *)
(* ===================================================================== *)

Section SystemInvariant.
Context `{EC : ErrorCodes}.
Variable calcCRC : list Z -> Z.

Lemma links_live h q rs p : links h q rs -> p ∈ q -> is_Some (h !! p).
Proof.
  unfold links. induction 1 as [|p' r q' rs' Hp _ IH]; intros Hin.
  - set_solver.
  - apply elem_of_cons in Hin as [->|Hin]; [eauto | auto].
Qed.

Lemma links_insert h q rs p r :
  h !! p = None -> links h q rs -> links (<[p := r]> h) q rs.
Proof.
  intros Hp. unfold links. induction 1 as [|p' r' q' rs' Hp' _ IH]; constructor; [|exact IH].
  rewrite lookup_insert_ne; [exact Hp' | congruence].
Qed.

Lemma links_delete h q rs p :
  p ∉ q -> links h q rs -> links (delete p h) q rs.
Proof.
  unfold links. intros Hp. induction 1 as [|p' r' q' rs' Hp' _ IH]; constructor.
  - rewrite lookup_delete_ne; [exact Hp' | set_solver].
  - apply IH. set_solver.
Qed.

Lemma links_snoc h q rs p r :
  h !! p = None -> links h q rs ->
  links (<[p := r]> h) (q ++ [p]) (rs ++ [r]).
Proof.
  intros Hp Hl. apply Forall2_app; [apply links_insert; assumption|].
  constructor; [apply lookup_insert_eq | constructor].
Qed.

Lemma fresh_not_queued h q rs : links h q rs -> fresh (dom h) ∉ q.
Proof.
  intros Hl Hin. destruct (links_live _ _ _ _ Hl Hin) as [r Hr].
  rewrite fresh_unused in Hr. discriminate.
Qed.

Lemma hd_error_app {A} (q : list A) p x : hd_error q = Some p -> hd_error (q ++ [x]) = Some p.
Proof. destruct q; [discriminate | exact (fun H => H)]. Qed.

Lemma accepted_snoc s b rc c h w pc :
  accepted (mkSystem c h w pc (calls s ++ [(b, rc)])) =
  accepted s ++
  match b with
  | Built r => if rc =? SUCCESS then [r] else []
  | Invalid _ => []
  end.
Proof.
  unfold accepted. simpl. rewrite omap_app. f_equal.
  destruct b as [r|e]; simpl; [destruct (rc =? SUCCESS)|]; reflexivity.
Qed.

Lemma deliver_post c r resp w :
  post (deliver c r resp) w
    (fun _ w' =>
       exists evs,
         callbacks_of (w_trace w') = callbacks_of (w_trace w) ++ evs /\
         (evs = [] \/ exists ev, evs = [ev] /\ callback_for r ev) /\
         (onData c = true -> onError c = true ->
            exists ev, evs = [ev] /\ callback_for r ev)).
Proof.
  unfold deliver.
  destruct (Z.eqb_spec (RTUResponse.getError resp) SUCCESS) as [Hok|Herr];
    [destruct (onData c) | destruct (onError c)]; io_step; simpl;
    rewrite ?callbacks_of_snoc; simpl.
  - eexists. split; [reflexivity|].
    assert (exists ev, [EvOnData (RTUResponse.getServerID resp)
                          (RTUResponse.getFunctionCode resp) (RTUResponse.data resp)
                          (RTUResponse.len resp) (RTURequest.getToken r)] = [ev] /\
                       callback_for r ev) by (eexists; split; reflexivity).
    split; [right; assumption | intros _ _; assumption].
  - exists []. rewrite app_nil_r. split; [reflexivity|].
    split; [left; reflexivity | intros Hd; discriminate].
  - eexists. split; [reflexivity|].
    assert (exists ev, [EvOnError (RTUResponse.getError resp) (RTURequest.getToken r)] = [ev] /\
                       callback_for r ev)
      by (eexists; split; [reflexivity | split; [reflexivity | exact Herr]]).
    split; [right; assumption | intros _ _; assumption].
  - exists []. rewrite app_nil_r. split; [reflexivity|].
    split; [left; reflexivity | intros _ He; discriminate].
Qed.

Lemma inv_links s : sys_inv s -> exists rs, links (heap s) (requests (inst s)) rs.
Proof.
  intros (fin & pend & fired & _ & _ & _ & _ & _ & Hpc).
  destruct (worker s) as [|p|p|p resp|p resp|p resp].
  - eauto.
  - destruct Hpc as [Hl _]. eauto.
  - destruct Hpc as [Hl _]. eauto.
  - destruct Hpc as [Hl _]. eauto.
  - destruct Hpc as (before & r & _ & Hl & _). eauto.
  - destruct Hpc as [Hl _]. eauto.
Qed.

(** A step that leaves queue, heap, worker and handler calls alone. *)
Lemma sys_inv_ext s s' :
  accepted s' = accepted s -> callbacks s' = callbacks s ->
  requests (inst s') = requests (inst s) -> heap s' = heap s ->
  worker s' = worker s ->
  onData (inst s') = onData (inst s) -> onError (inst s') = onError (inst s) ->
  sys_inv s -> sys_inv s'.
Proof.
  intros Ha Hc Hq Hh Hw Hd He. unfold sys_inv.
  rewrite Ha, Hc, Hq, Hh, Hw, Hd, He. exact (fun H => H).
Qed.

Lemma submit_inv b s s' :
  sys_inv s -> step calcCRC (CallAddRequest b) s = Some s' -> sys_inv s'.
Proof.
  intros Hinv. unfold step. destruct b as [r|rc].
  - rewrite addRequest_Built.
    destruct (Z.of_nat (length (requests (inst s))) <? MR_qLimit (inst s)).
    + intros [= <-].
      destruct (inv_links s Hinv) as [rs Hrs].
      pose proof (fresh_not_queued _ _ _ Hrs) as Hfresh.
      pose proof (fresh_unused (heap s)) as Hnone.
      destruct Hinv as (fin & pend & fired & Hacc & Hsub & Hcb & Hall & Hnd & Hpc).
      exists fin, (pend ++ [r]), fired.
      rewrite accepted_snoc, Z.eqb_refl, Hacc, app_assoc. simpl.
      split; [reflexivity|]. split; [exact Hsub|]. split; [exact Hcb|].
      split; [exact Hall|].
      split.
      { apply NoDup_app. split; [exact Hnd|]. split; [|apply NoDup_singleton].
        intros x Hx Hx'. apply list_elem_of_singleton in Hx' as ->. exact (Hfresh Hx). }
      destruct (worker s) as [|p|p|p resp|p resp|p resp].
      * apply links_snoc; assumption.
      * destruct Hpc as [Hl Hhd]. split; [apply links_snoc; assumption | apply hd_error_app, Hhd].
      * destruct Hpc as [Hl Hhd]. split; [apply links_snoc; assumption | apply hd_error_app, Hhd].
      * destruct Hpc as [Hl Hhd]. split; [apply links_snoc; assumption | apply hd_error_app, Hhd].
      * destruct Hpc as (before & r0 & Hfin & Hl & Hhd). exists before, r0.
        split; [exact Hfin|].
        split; [apply (links_snoc _ _ (r0 :: pend)); assumption | apply hd_error_app, Hhd].
      * destruct Hpc as (Hl & Hnot & Hlive).
        assert (Hne : p <> fresh (dom (heap s))).
        { intros ->. rewrite Hnone in Hlive. destruct Hlive as [? ?]; discriminate. }
        split; [apply links_snoc; assumption|].
        split.
        { intros Hin. apply elem_of_app in Hin as [Hin|Hin]; [exact (Hnot Hin)|].
          apply list_elem_of_singleton in Hin. exact (Hne Hin). }
        rewrite lookup_insert_ne; [exact Hlive | congruence].
    + intros [= <-]. revert Hinv. apply sys_inv_ext; try reflexivity.
      rewrite accepted_snoc.
      destruct (Z.eqb_spec REQUEST_QUEUE_FULL SUCCESS) as [E|_];
        [destruct (queue_full_not_success E) | apply app_nil_r].
  - cbn [addRequest createRTURequest]. intros [= <-]. revert Hinv.
    apply sys_inv_ext; try reflexivity.
    rewrite accepted_snoc. apply app_nil_r.
Qed.

Lemma links_head h p q rs :
  links h (p :: q) rs -> exists r rs', rs = r :: rs' /\ h !! p = Some r /\ links h q rs'.
Proof. intros Hl. inversion Hl; subst. eauto. Qed.

(** Conjuncts of the invariant that a step leaves as they were. *)
Ltac keep_conjuncts :=
  repeat match goal with
         | |- _ /\ _ => split; [assumption|]
         end.

Lemma worker_inv s s' :
  sys_inv s -> handleConnection_step calcCRC s = Some s' -> sys_inv s'.
Proof.
  intros (fin & pend & fired & Hacc & Hsub & Hcb & Hall & Hnd & Hpc) Hstep.
  unfold handleConnection_step in Hstep.
  destruct (worker s) as [|p|p|p resp|p resp|p resp] eqn:Hw.
  - (* top of the loop *)
    destruct (requests (inst s)) as [|p q] eqn:Hq.
    + simpl in Hstep. inversion Hstep; subst; clear Hstep.
      exists fin, pend, fired. unfold accepted, callbacks in *; simpl.
      rewrite callbacks_of_snoc, app_nil_r, Hq.
      keep_conjuncts. assumption.
    + inversion Hstep; subst; clear Hstep.
      exists fin, pend, fired. unfold accepted, callbacks in *; simpl. rewrite Hq.
      keep_conjuncts. reflexivity.
  - (* send *)
    destruct (heap s !! p) as [r|]; [|discriminate]. simpl in Hstep.
    destruct (send r (inst s) (world s)) as [[c w]|] eqn:E; [|discriminate].
    inversion Hstep; subst; clear Hstep.
    destruct (send_post r (inst s) (world s) _ _ E) as [Hc Hquiet].
    pose proof (same_config_requests _ _ Hc) as Hreq.
    destruct (same_config_settings _ _ Hc) as (_ & _ & _ & _ & Hd & He).
    exists fin, pend, fired. unfold accepted, callbacks in *; simpl.
    rewrite Hquiet, Hreq, Hd, He.
    keep_conjuncts. assumption.
  - (* receive *)
    destruct (heap s !! p) as [r|]; [|discriminate]. simpl in Hstep.
    destruct (receive calcCRC r (inst s) (world s)) as [[[c resp] w]|] eqn:E; [|discriminate].
    inversion Hstep; subst; clear Hstep.
    destruct (receive_post calcCRC r (inst s) (world s) _ _ E) as [Hc Hquiet].
    simpl in Hc.
    pose proof (same_config_requests _ _ Hc) as Hreq.
    destruct (same_config_settings _ _ Hc) as (_ & _ & _ & _ & Hd & He).
    exists fin, pend, fired. unfold accepted, callbacks in *; simpl.
    rewrite Hquiet, Hreq, Hd, He.
    keep_conjuncts. assumption.
  - (* the handler call *)
    destruct (heap s !! p) as [r|] eqn:Hp; [|discriminate]. simpl in Hstep.
    destruct resp as [resp|]; [|discriminate]. simpl in Hstep.
    destruct (deliver (inst s) r resp (world s)) as [[u w]|] eqn:E; [|discriminate].
    inversion Hstep; subst; clear Hstep.
    destruct (deliver_post (inst s) r resp (world s) _ _ E) as (evs & Hevs & Hone & Hboth).
    destruct Hpc as [Hl Hhd].
    destruct (requests (inst s)) as [|p0 q] eqn:Hq; [discriminate|].
    injection Hhd as ->.
    destruct (links_head _ _ _ _ Hl) as (r' & pend' & -> & Hp' & Hl').
    assert (r' = r) as -> by congruence.
    exists (fin ++ [r]), pend'.
    exists (fired ++ match evs with [] => [] | _ => [r] end).
    unfold accepted, callbacks in *; simpl. rewrite Hevs, Hq.
    split; [rewrite Hacc, <- app_assoc; reflexivity|].
    split.
    { destruct Hone as [->|(ev & -> & _)].
      - rewrite app_nil_r. apply sublist_inserts_r, Hsub.
      - apply sublist_app; [exact Hsub | reflexivity]. }
    split.
    { destruct Hone as [->|(ev & -> & Hev)].
      - rewrite !app_nil_r. exact Hcb.
      - apply Forall2_app; [exact Hcb | constructor; [exact Hev | constructor]]. }
    split.
    { intros Hd He. destruct (Hboth Hd He) as (ev & -> & _).
      rewrite (Hall Hd He). reflexivity. }
    split; [exact Hnd|].
    exists fin, r. split; [reflexivity|]. split; [exact Hl | reflexivity].
  - (* pop *)
    destruct (requests (inst s)) as [|p0 q] eqn:Hq; [discriminate|].
    inversion Hstep; subst; clear Hstep.
    destruct Hpc as (before & r & Hfin & Hl & Hhd). injection Hhd as ->.
    destruct (links_head _ _ _ _ Hl) as (r' & pend' & Heq & Hp' & Hl').
    injection Heq as <- <-.
    apply NoDup_cons in Hnd as [Hnot Hnd'].
    exists fin, pend, fired. unfold accepted, callbacks in *; simpl.
    keep_conjuncts. eauto.
  - (* delete *)
    inversion Hstep; subst; clear Hstep.
    destruct Hpc as (Hl & Hnot & _).
    exists fin, pend, fired. unfold accepted, callbacks in *; simpl.
    keep_conjuncts.
    apply links_delete; assumption.
Qed.

Lemma step_inv a s s' : sys_inv s -> step calcCRC a s = Some s' -> sys_inv s'.
Proof. destruct a; [apply submit_inv | apply worker_inv]. Qed.

Lemma initial_inv s : initial s -> sys_inv s.
Proof.
  intros (Hq & Hh & Hw & Hc & Ht).
  exists [], [], []. unfold accepted, callbacks, callbacks_of.
  rewrite Hq, Hw, Hc, Ht. simpl.
  split; [reflexivity|]. split; [reflexivity|]. split; [constructor|].
  split; [reflexivity|]. split; constructor.
Qed.

Lemma run_inv sched : forall s s',
  sys_inv s -> run calcCRC sched s = Some s' -> sys_inv s'.
Proof.
  induction sched as [|a sched IH]; intros s s' Hinv Hrun; simpl in Hrun.
  - inversion Hrun; subst. exact Hinv.
  - destruct (step calcCRC a s) as [s1|] eqn:E; [|discriminate]. simpl in Hrun.
    eapply IH; [eapply step_inv; eassumption | exact Hrun].
Qed.

Lemma hd_error_cons {A} (q : list A) p : hd_error q = Some p -> exists rest, q = p :: rest.
Proof. destruct q as [|x rest]; [discriminate|]. intros [= ->]. eauto. Qed.

Lemma in_flight_front s p :
  sys_inv s -> in_flight (worker s) = Some p ->
  exists rest, requests (inst s) = p :: rest /\ is_Some (heap s !! p).
Proof.
  intros (fin & pend & fired & _ & _ & _ & _ & _ & Hpc) Hfl.
  assert (Hboth : exists rs, links (heap s) (requests (inst s)) rs /\
                             hd_error (requests (inst s)) = Some p).
  { destruct (worker s) as [|p'|p'|p' resp|p' resp|p' resp]; simpl in Hfl;
      try discriminate; injection Hfl as ->.
    - destruct Hpc; eauto.
    - destruct Hpc; eauto.
    - destruct Hpc; eauto.
    - destruct Hpc as (before & r & _ & Hl & Hhd); eauto. }
  destruct Hboth as (rs & Hl & Hhd).
  destruct (hd_error_cons _ _ Hhd) as [rest Hq]. exists rest. split; [exact Hq|].
  eapply links_live; [exact Hl|]. rewrite Hq. set_solver.
Qed.

Lemma deliver_expected c r resp w u w' :
  deliver c r resp w = Some (u, w') ->
  callbacks_of (w_trace w') =
    callbacks_of (w_trace w) ++ expected_callback (onData c) (onError c) (r, resp).
Proof.
  unfold deliver, expected_callback. cbn [fst snd].
  destruct (RTUResponse.getError resp =? SUCCESS);
    [destruct (onData c) | destruct (onError c)];
    unfold emit, ret; intros [= _ <-]; cbn [w_trace];
    rewrite ?callbacks_of_snoc, ?app_nil_r; reflexivity.
Qed.

Lemma log_submit b s s' done :
  log_inv calcCRC done s -> step calcCRC (CallAddRequest b) s = Some s' ->
  log_inv calcCRC done s'.
Proof.
  intros (pend & Hacc & Hcb & Hrecv & Hpc). unfold step. destruct b as [r|rc].
  - rewrite addRequest_Built.
    destruct (Z.of_nat (length (requests (inst s))) <? MR_qLimit (inst s)).
    + intros [= <-].
      pose proof (fresh_unused (heap s)) as Hnone.
      exists (pend ++ [r]). rewrite accepted_snoc, Z.eqb_refl, Hacc, app_assoc.
      split; [reflexivity|]. split; [exact Hcb|]. split; [exact Hrecv|]. simpl.
      destruct (worker s) as [|p|p|p resp|p resp|p resp];
        try (apply links_snoc; assumption).
      * destruct Hpc as (Hl & r0 & c0 & w0 & c1 & w1 & Hp & Hr).
        split; [apply links_snoc; assumption|].
        exists r0, c0, w0, c1, w1. split; [|exact Hr].
        rewrite lookup_insert_ne; [exact Hp|].
        intros E. rewrite E in Hnone. congruence.
      * destruct Hpc as (before & r0 & resp0 & Hd & Hl).
        exists before, r0, resp0. split; [exact Hd|].
        apply (links_snoc _ _ (r0 :: pend)); assumption.
    + intros [= <-]. exists pend. rewrite accepted_snoc.
      destruct (Z.eqb_spec REQUEST_QUEUE_FULL SUCCESS) as [E|_];
        [destruct (queue_full_not_success E)|].
      rewrite app_nil_r. repeat (split; [assumption|]). exact Hpc.
  - simpl. intros [= <-]. exists pend. rewrite accepted_snoc, app_nil_r.
    repeat (split; [assumption|]). exact Hpc.
Qed.

Lemma log_worker s s' done :
  sys_inv s -> log_inv calcCRC done s ->
  handleConnection_step calcCRC s = Some s' ->
  log_inv calcCRC (done ++ handed WorkerTurn s) s'.
Proof.
  intros Hinv (pend & Hacc & Hcb & Hrecv & Hpc).
  unfold log_inv, handleConnection_step, handed.
  destruct s as [c h w pc cs]. unfold accepted, callbacks in *. simpl in *.
  destruct pc as [|p|p|p resp|p resp|p resp].
  - rewrite app_nil_r. destruct (requests c) as [|p q] eqn:Hq.
    + unfold delay, emit. simpl. intros [= <-]. exists pend. simpl.
      rewrite callbacks_of_snoc, app_nil_r, Hq. auto.
    + intros [= <-]. exists pend. simpl. rewrite Hq. auto.
  - rewrite app_nil_r. destruct (h !! p) as [r|]; [|discriminate]. simpl.
    destruct (send r c w) as [[c1 w1]|] eqn:E; [|discriminate].
    intros [= <-]. destruct (send_post r c w _ _ E) as [Hc Hq]. simpl in Hq.
    exists pend. simpl. rewrite Hc. simpl. rewrite Hq. auto.
  - rewrite app_nil_r. destruct (h !! p) as [r|] eqn:Hp; [|discriminate]. simpl.
    destruct (receive calcCRC r c w) as [[[c1 resp] w1]|] eqn:E; [|discriminate].
    intros [= <-]. destruct (receive_post calcCRC r c w _ _ E) as [Hc Hq].
    simpl in Hc, Hq.
    exists pend. simpl. rewrite Hc. simpl. rewrite Hq.
    repeat (split; [assumption|]). exists r, c, w, c1, w1. auto.
  - destruct Hpc as (Hl & r0 & c0 & w0 & c1 & w1 & Hp & Hr).
    rewrite Hp. simpl. destruct resp as [resp|]; [|discriminate]. simpl.
    destruct (deliver c r0 resp w) as [[u w2]|] eqn:E; [|discriminate].
    intros [= <-].
    destruct (in_flight_front _ p Hinv eq_refl) as (rest & Hq & _).
    simpl in Hq. rewrite Hq in Hl.
    destruct (links_head _ _ _ _ Hl) as (r' & pend' & -> & Hp' & Hl').
    assert (r' = r0) by congruence. subst r'.
    exists pend'. simpl.
    split; [rewrite Hacc, map_app, <- app_assoc; reflexivity|].
    split.
    { rewrite (deliver_expected _ _ _ _ _ _ E), Hcb, flat_map_app. simpl.
      rewrite app_nil_r. reflexivity. }
    split.
    { apply Forall_app. split; [exact Hrecv|].
      apply List.Forall_cons; [exists c0, w0, c1, w1; exact Hr | apply List.Forall_nil]. }
    exists done, r0, resp. split; [reflexivity|]. rewrite Hq. exact Hl.
  - rewrite app_nil_r. destruct (requests c) as [|p0 rest] eqn:Hq; [discriminate|].
    intros [= <-]. destruct Hpc as (before & r & resp0 & Hd & Hl).
    destruct (links_head _ _ _ _ Hl) as (r' & pend' & Heq & _ & Hl').
    injection Heq as <- <-.
    exists pend. simpl. auto.
  - rewrite app_nil_r. intros [= <-].
    destruct Hinv as (fin & pend0 & fired & _ & _ & _ & _ & _ & Hpc0).
    simpl in Hpc0. destruct Hpc0 as (_ & Hnot & _).
    exists pend. simpl. repeat (split; [assumption|]).
    apply links_delete; assumption.
Qed.

Lemma run_log sched : forall s s' done,
  sys_inv s -> log_inv calcCRC done s -> run calcCRC sched s = Some s' ->
  log_inv calcCRC (done ++ served calcCRC sched s) s'.
Proof.
  induction sched as [|a sched IH]; intros s s' done Hinv Hlog Hrun; simpl in Hrun |- *.
  - inversion Hrun; subst. rewrite app_nil_r. exact Hlog.
  - destruct (step calcCRC a s) as [s1|] eqn:E; [|discriminate]. simpl in Hrun.
    rewrite app_assoc. apply (IH s1); [eapply step_inv; eassumption | | exact Hrun].
    destruct a as [b|].
    + simpl. rewrite app_nil_r. eapply log_submit; eassumption.
    + apply log_worker; assumption.
Qed.

Lemma initial_log s : initial s -> log_inv calcCRC [] s.
Proof.
  intros (Hq & Hh & Hw & Hc & Ht).
  exists []. unfold accepted, callbacks, callbacks_of. rewrite Hc, Ht, Hw, Hq.
  simpl. repeat split; constructor.
Qed.

Lemma reachable_log sched s0 s :
  initial s0 -> run calcCRC sched s0 = Some s ->
  log_inv calcCRC (served calcCRC sched s0) s.
Proof.
  intros Hinit Hrun.
  apply (run_log sched s0 s [] (initial_inv s0 Hinit) (initial_log s0 Hinit) Hrun).
Qed.


(** C9, as the code has it.  From [front()] to [pop()] the request the
    worker holds is still the front entry of the queue and a live
    object, so it counts in the capacity check of [addRequest]; the only
    worker step that shortens the queue is the [pop()] after the handler
    code, and it removes that front entry.  At that point the handler
    code for the request has run: it is the last transaction served, and
    the handler calls made end with the call it is to get, which is no
    call at all when the matching handler is not registered. *)
Theorem in_flight_request_keeps_its_slot sched s0 s p :
  initial s0 -> run calcCRC sched s0 = Some s ->
  in_flight (worker s) = Some p ->
  exists rest,
    requests (inst s) = p :: rest /\
    is_Some (heap s !! p) /\
    (forall r, exists rc c' h',
       addRequest (Built r) (inst s) (heap s) = (rc, c', h') /\
       (rc = REQUEST_QUEUE_FULL <-> MR_qLimit (inst s) <= 1 + Z.of_nat (length rest))) /\
    (forall s', handleConnection_step calcCRC s = Some s' ->
       requests (inst s') <> requests (inst s) ->
       delivered (worker s) = true /\ requests (inst s') = rest) /\
    (delivered (worker s) = true ->
     exists r resp earlier,
       heap s !! p = Some r /\
       served calcCRC sched s0 = earlier ++ [(r, resp)] /\
       received calcCRC (r, resp) /\
       callbacks s =
         flat_map (expected_callback (onData (inst s)) (onError (inst s))) earlier
         ++ expected_callback (onData (inst s)) (onError (inst s)) (r, resp)).
Proof.
  intros Hinit Hrun Hfl.
  pose proof (run_inv sched s0 s (initial_inv s0 Hinit) Hrun) as Hinv.
  destruct (in_flight_front s p Hinv Hfl) as (rest & Hq & Hlive).
  exists rest. split; [exact Hq|]. split; [exact Hlive|]. split; [|split].
  - intros r. rewrite addRequest_Built, Hq.
    pose proof queue_full_not_success as Hne.
    destruct (Z.ltb_spec (Z.of_nat (length (p :: rest))) (MR_qLimit (inst s)))
      as [Hroom|Hfull]; simpl length in *;
      eexists _, _, _; (split; [reflexivity|]); split; intros; try lia; congruence.
  - intros s' Hstep Hne. unfold handleConnection_step in Hstep.
    destruct (worker s) as [|p'|p'|p' resp|p' resp|p' resp]; simpl in Hfl;
      try discriminate.
    + exfalso. destruct (heap s !! p') as [r|]; [|discriminate]. simpl in Hstep.
      destruct (send r (inst s) (world s)) as [[c w]|] eqn:E; [|discriminate].
      inversion Hstep; subst; clear Hstep. simpl in Hne.
      destruct (send_post r (inst s) (world s) _ _ E) as [Hc _].
      apply Hne, same_config_requests, Hc.
    + exfalso. destruct (heap s !! p') as [r|]; [|discriminate]. simpl in Hstep.
      destruct (receive calcCRC r (inst s) (world s)) as [[[c resp] w]|] eqn:E;
        [|discriminate].
      inversion Hstep; subst; clear Hstep. simpl in Hne.
      destruct (receive_post calcCRC r (inst s) (world s) _ _ E) as [Hc _].
      apply Hne, same_config_requests, Hc.
    + exfalso. destruct (heap s !! p') as [r|]; [|discriminate]. simpl in Hstep.
      destruct resp as [resp|]; [|discriminate]. simpl in Hstep.
      destruct (deliver (inst s) r resp (world s)) as [[u w]|]; [|discriminate].
      inversion Hstep; subst; clear Hstep. apply Hne. reflexivity.
    + rewrite Hq in Hstep. inversion Hstep; subst; clear Hstep.
      split; reflexivity.
  - intros Hdel.
    destruct (reachable_log sched s0 s Hinit Hrun) as (pend & _ & Hcb & Hrecv & Hpc).
    destruct (worker s) as [|p'|p'|p' resp|p' resp|p' resp]; simpl in Hdel, Hfl;
      try discriminate.
    injection Hfl as ->.
    destruct Hpc as (before & r & resp0 & Hd & Hl).
    rewrite Hq in Hl. destruct (links_head _ _ _ _ Hl) as (r' & pend' & Heq & Hp & _).
    injection Heq as <- <-.
    exists r, resp0, before. split; [exact Hp|]. split; [exact Hd|].
    rewrite Hd in Hcb, Hrecv. split.
    + apply Forall_app in Hrecv as [_ Hlast]. inversion Hlast; subst. assumption.
    + rewrite Hcb, flat_map_app. simpl. rewrite app_nil_r. reflexivity.
Qed.

End SystemInvariant.



Lemma in_flight_request_keeps_its_slot_witness :
  exists rest,
    requests (inst example_delivered) = 0%nat :: rest /\
    is_Some (heap example_delivered !! 0%nat) /\
    (forall r, exists rc c' h',
       addRequest (EC := example_codes) (Built r) (inst example_delivered)
         (heap example_delivered) = (rc, c', h') /\
       (rc = 0xE8 <-> MR_qLimit (inst example_delivered) <= 1 + Z.of_nat (length rest))) /\
    (forall s',
       handleConnection_step (EC := example_codes) RTUCRC.calcCRC example_delivered = Some s' ->
       requests (inst s') <> requests (inst example_delivered) ->
       delivered (worker example_delivered) = true /\ requests (inst s') = rest) /\
    (delivered (worker example_delivered) = true ->
     exists r resp earlier,
       heap example_delivered !! 0%nat = Some r /\
       served (EC := example_codes) RTUCRC.calcCRC (take 5 example_schedule)
         (example_system true true) = earlier ++ [(r, resp)] /\
       received (EC := example_codes) RTUCRC.calcCRC (r, resp) /\
       callbacks example_delivered =
         flat_map (expected_callback (EC := example_codes)
                     (onData (inst example_delivered)) (onError (inst example_delivered)))
           earlier
         ++ expected_callback (EC := example_codes)
              (onData (inst example_delivered)) (onError (inst example_delivered))
              (r, resp)).
Proof.
  apply (in_flight_request_keeps_its_slot (EC := example_codes) RTUCRC.calcCRC
           (take 5 example_schedule) (example_system true true) example_delivered 0%nat).
  - repeat split.
  - vm_compute. reflexivity.
  - reflexivity.
Defined.

(** C9 as the claim states it does not hold: with no error handler
    registered, the request that timed out is popped after the handler
    code made no call at all. *)
Lemma popped_without_callback :
  initial (example_system true false) /\
  run (EC := example_codes) RTUCRC.calcCRC (take 5 example_schedule)
    (example_system true false) = Some example_unheard /\
  in_flight (worker example_unheard) = Some 0%nat /\
  requests (inst example_unheard) = [0%nat] /\
  callbacks example_unheard = [] /\
  exists s',
    handleConnection_step (EC := example_codes) RTUCRC.calcCRC example_unheard = Some s' /\
    requests (inst s') = [] /\
    callbacks s' = [].
Proof.
  split; [repeat split|]. split; [vm_compute; reflexivity|].
  split; [reflexivity|]. split; [reflexivity|]. split; [reflexivity|].
  eexists. split; [reflexivity|]. split; reflexivity.
Qed.

(* ===================================================================== *)
(** ** The loop bounds taken from the oracle are enough *)
(* ===================================================================== *)

(** Each loop is given as many turns as the oracle has readings for it.
    Whenever some number of turns lets a loop return, that number does
    too: a run ends early only because the oracle is exhausted or the
    behaviour is undefined. *)

Lemma bind_transfer {A B} (m : M A) (k k' : A -> M B) w r (P : A -> World -> Prop) :
  post m w P ->
  (forall a w1, P a w1 -> k a w1 = Some r -> k' a w1 = Some r) ->
  bind m k w = Some r -> bind m k' w = Some r.
Proof.
  intros Hm Hk. unfold bind. destruct (m w) as [[a w1]|] eqn:E; [|discriminate].
  apply Hk, Hm, E.
Qed.

Lemma send_wait_turns n c : forall w r,
  send_wait n c w = Some r -> send_wait (length (w_micros w)) c w = Some r.
Proof.
  assert (Hempty : forall n w r, w_micros w = [] -> send_wait n c w = Some r -> False).
  { intros n' w r Hw Hrun. destruct n'; simpl in Hrun; unfold bind, micros in Hrun;
      rewrite Hw in Hrun; discriminate. }
  induction n as [|n IH]; intros w r Hrun;
    (destruct (w_micros w) as [|t ts] eqn:Hw; [destruct (Hempty _ w r Hw Hrun)|]);
    simpl in Hrun |- *; revert Hrun;
    apply (bind_transfer _ _ _ _ _ (fun _ w1 => w_micros w1 = ts));
    try (apply post_micros; intros t' ts' Ht; simpl; congruence);
    intros now w1 Hw1;
    destruct (uint32 (now - MR_lastMicros c) <? MR_interval c); try discriminate; auto.
  apply (bind_transfer _ _ _ _ _ (fun _ w2 => w_micros w2 = ts));
    [apply post_emit; exact Hw1|].
  intros u w2 Hw2 Hrun. apply IH in Hrun. rewrite Hw2 in Hrun. exact Hrun.
Qed.

Section LoopBounds.
Context `{EC : ErrorCodes}.
Variable calcCRC : list Z -> Z.

Lemma in_packet_read_turns n : forall c l w r,
  in_packet_read n c l w = Some r ->
  in_packet_read (length (w_available w)) c l w = Some r.
Proof.
  assert (Hempty : forall n c l w r,
    w_available w = [] -> in_packet_read n c l w = Some r -> False).
  { intros n' c l w r Hw Hrun.
    destruct n'; simpl in Hrun; unfold bind, serial_available in Hrun;
      rewrite Hw in Hrun; discriminate. }
  induction n as [|n IH]; intros c l w r Hrun;
    (destruct (w_available w) as [|a rest] eqn:Hw;
     [destruct (Hempty _ c l w r Hw Hrun)|]);
    simpl in Hrun |- *; revert Hrun;
    apply (bind_transfer _ _ _ _ _ (fun _ w1 => w_available w1 = rest));
    try (apply post_available; intros a' rest' Ha; simpl; congruence);
    intros a0 w1 Hw1;
    destruct (a0 =? 0); try discriminate; auto.
  apply (bind_transfer _ _ _ _ _ (fun _ w2 => w_available w2 = rest));
    [apply post_read; intros; exact Hw1|].
  intros b w2 Hw2.
  apply (bind_transfer _ _ _ _ _ (fun _ w3 => w_available w3 = rest)).
  { repeat io_step; exact Hw2. }
  intros blocks w3 Hw3.
  apply (bind_transfer _ _ _ _ _ (fun _ w4 => w_available w4 = rest));
    [apply post_micros; intros; exact Hw3|].
  intros now w4 Hw4 Hrun. apply IH in Hrun. rewrite Hw4 in Hrun. exact Hrun.
Qed.

Lemma state_eq_dec (a b : STATES) : {a = b} + {a <> b}.
Proof. decide equality. Qed.

(** Turn what is known of the oracle's lists into facts on lengths. *)
Ltac oracle_lengths :=
  repeat match goal with
         | E : _ = _ :: _ |- _ => apply (f_equal length) in E; simpl in E
         end;
  simpl in *.

Lemma in_packet_read_consumes n : forall c l w,
  post (in_packet_read n c l) w
    (fun res w' =>
       (length (w_available w') < length (w_available w))%nat /\
       (length (w_micros w') <= length (w_micros w))%nat /\
       state (snd res) = state l).
Proof.
  induction n as [|n IH]; intros c l w; simpl.
  - io_step. io_step. io_step; io_step. oracle_lengths. split; [lia | auto].
  - io_step. io_step. io_step; [io_step; oracle_lengths; split; [lia | auto]|].
    io_step. io_step. io_step.
    assert (Hrest : forall blocks wx,
      w_available wx = ns -> (length (w_micros wx) <= length (w_micros w))%nat ->
      post (bind micros (fun now =>
              in_packet_read n (set_lastMicros now c)
                (set_buffer (buffer l ++ [uint8 b]) blocks l))) wx
        (fun res w' =>
           (length (w_available w') < length (w_available w))%nat /\
           (length (w_micros w') <= length (w_micros w))%nat /\
           state (snd res) = state l)).
    { intros blocks wx Hav Hmi. io_step. io_step.
      eapply post_weaken; [apply IH|].
      intros res w' (Ha & Hm & Hs). rewrite <- Hav in *. oracle_lengths.
      split; [lia | split; [lia | exact Hs]]. }
    io_step; [io_step; [io_step | io_step; apply Hrest; auto] | io_step; apply Hrest; auto].
Qed.

Lemma receive_step_turns request c l w :
  state l <> FINISHED ->
  post (receive_step calcCRC request c l) w
    (fun res w' => (turns_left (snd res) w' < turns_left l w)%nat).
Proof.
  intros Hnot. unfold receive_step, turns_left.
  destruct (state l) eqn:Hst; [| | | | |contradiction].
  - io_step. io_step. io_step; [io_step | io_step; io_step; io_step];
      simpl; rewrite ?Hst; oracle_lengths; lia.
  - io_step. io_step. io_step.
    assert (Hrest : forall c' l' wx,
      (length (w_micros wx) + length (w_available wx) <
       length (w_micros w) + length (w_available w))%nat ->
      post (bind (delay 1) (fun _ => ret (c', l'))) wx
        (fun (res : ModbusClientRTU * RxLocals) w' =>
           (length (w_micros w') + length (w_available w') +
            match state (snd res) with FINISHED => 0 | ERROR_EXIT => 1 | _ => 2 end <
            length (w_micros w) + length (w_available w) + 2)%nat)).
    { intros c' l' wx Hlt. io_step. io_step. io_step. simpl.
      destruct (state l'); lia. }
    io_step.
    + io_step. io_step. io_step. apply Hrest. oracle_lengths. lia.
    + io_step. io_step. io_step; io_step; apply Hrest; oracle_lengths; lia.
  - io_step. io_step. io_step.
    eapply post_weaken; [apply in_packet_read_consumes|].
    intros [c' l'] w1 (Ha & Hm & Hs). simpl in Ha, Hm, Hs.
    io_step. io_step. io_step; io_step; simpl; rewrite ?Hs, ?Hst; oracle_lengths; lia.
  - io_step. simpl. unfold data_read.
    repeat match goal with
           | |- context [if ?b then _ else _] => destruct b
           end; simpl; lia.
  - io_step. simpl. lia.
Qed.

Lemma receive_loop_turns request n : forall c l w r,
  receive_loop calcCRC n request c l w = Some r ->
  forall m, (turns_left l w <= m)%nat ->
  receive_loop calcCRC m request c l w = Some r.
Proof.
  assert (Hdone : forall n m c l w,
    state l = FINISHED ->
    receive_loop calcCRC n request c l w = receive_loop calcCRC m request c l w).
  { intros n' m c l w Hst. destruct n', m; simpl; rewrite Hst; reflexivity. }
  assert (Hturn : forall n c l w,
    state l <> FINISHED ->
    receive_loop calcCRC (S n) request c l w =
    bind (receive_step calcCRC request c l)
         (fun '(c', l') => receive_loop calcCRC n request c' l') w).
  { intros n' c l w Hst. simpl. destruct (state l); try reflexivity. contradiction. }
  induction n as [|n IH]; intros c l w r Hrun m Hm;
    (destruct (state_eq_dec (state l) FINISHED) as [Hst|Hst];
     [erewrite Hdone by exact Hst; exact Hrun|]).
  - simpl in Hrun. destruct (state l); try discriminate. contradiction.
  - destruct m as [|m].
    { unfold turns_left in Hm. destruct (state l); try lia. contradiction. }
    rewrite Hturn in Hrun |- * by exact Hst. revert Hrun.
    apply (bind_transfer _ _ _ _ _
             (fun res w' => (turns_left (snd res) w' < turns_left l w)%nat));
      [apply receive_step_turns; exact Hst|].
    intros [c' l'] w1 Hlt. simpl in Hlt. intros Hrun.
    apply (IH _ _ _ _ Hrun). lia.
Qed.

(** So the bound [receive] takes from the oracle loses no run. *)
Lemma receive_bound_enough request c start w n r :
  receive_loop calcCRC n request c (rx_init start) w = Some r ->
  receive_loop calcCRC (length (w_micros w) + length (w_available w) + 2) request c
    (rx_init start) w = Some r.
Proof. intros Hrun. eapply receive_loop_turns; [exact Hrun | reflexivity]. Qed.

End LoopBounds.

(* ===================================================================== *)
(** ** Receiving: the buffer, the serial input and the trace *)
(* ===================================================================== *)

Lemma rx_reads_same l w l' w' :
  w_read w' = w_read w -> w_trace w' = w_trace w -> buffer l' = buffer l ->
  (capacity_ok l -> capacity_ok l') ->
  ((state l = FINISHED -> is_Some (response l)) ->
   state l' = FINISHED -> is_Some (response l')) ->
  rx_reads l w l' w'.
Proof.
  intros Hr Ht Hb Hc HJ. split; [|split; [|split; assumption]].
  - exists []. rewrite Hr, Hb. simpl. rewrite app_nil_r. split; reflexivity.
  - exists []. rewrite Ht, app_nil_r. split; reflexivity.
Qed.

Lemma rx_reads_trans l1 w1 l2 w2 l3 w3 :
  rx_reads l1 w1 l2 w2 -> rx_reads l2 w2 l3 w3 -> rx_reads l1 w1 l3 w3.
Proof.
  intros ((r1 & Hr1 & Hb1) & (d1 & Hd1 & Hf1) & Hc1 & HJ1)
         ((r2 & Hr2 & Hb2) & (d2 & Hd2 & Hf2) & Hc2 & HJ2).
  split; [|split; [|split]].
  - exists (r1 ++ r2). rewrite Hr1, Hr2, Hb2, Hb1, map_app, !app_assoc.
    split; reflexivity.
  - exists (d1 ++ d2). rewrite Hd2, Hd1, app_assoc, forallb_app, Hf1, Hf2.
    split; reflexivity.
  - auto.
  - intros HJ Hfin. apply HJ2; [|exact Hfin]. apply HJ1, HJ.
Qed.

Lemma capacity_after_byte l b blocks :
  capacity_ok l ->
  (if Z.of_nat (length (buffer l ++ [b])) >=? bufferBlocks l * BUFBLOCKSIZE
   then uint8 (bufferBlocks l + 1) <> 0 /\ blocks = uint8 (bufferBlocks l + 1)
   else blocks = bufferBlocks l) ->
  capacity_ok (set_buffer (buffer l ++ [b]) blocks l).
Proof.
  unfold capacity_ok, set_buffer, BUFBLOCKSIZE. simpl. rewrite length_app. simpl.
  intros [Hbb Hlen] Hgrow.
  destruct (Z.geb_spec (Z.of_nat (length (buffer l) + 1)) (bufferBlocks l * 128))
    as [Hfull|Hroom].
  - destruct Hgrow as [Hnz ->]. unfold uint8 in *.
    destruct (Z.eq_dec (bufferBlocks l) 255) as [E|E];
      [rewrite E in Hnz; exfalso; apply Hnz; reflexivity|].
    rewrite Z.mod_small by lia. lia.
  - subst blocks. lia.
Qed.

Section ReceiveReads.
Context `{EC : ErrorCodes}.
Variable calcCRC : list Z -> Z.

Lemma in_packet_read_reads n : forall c l w,
  post (in_packet_read n c l) w
    (fun res w' =>
       rx_reads l w (snd res) w' /\ state (snd res) = state l /\
       response (snd res) = response l /\ w_trace w' = w_trace w).
Proof.
  induction n as [|n IH]; intros c l w; simpl.
  - apply post_bind, post_available. intros a rest Ha.
    destruct (a =? 0); [apply post_ret | apply post_fail].
    simpl. split; [apply rx_reads_same; auto | auto].
  - apply post_bind, post_available. intros a rest Ha.
    destruct (a =? 0); [apply post_ret; simpl; split; [apply rx_reads_same; auto | auto]|].
    apply post_bind, post_read. intros b bs Hread. simpl in Hread.
    assert (Hrest : forall blocks,
      (capacity_ok l -> capacity_ok (set_buffer (buffer l ++ [uint8 b]) blocks l)) ->
      post (bind micros (fun now =>
              in_packet_read n (set_lastMicros now c)
                (set_buffer (buffer l ++ [uint8 b]) blocks l)))
        (mkWorld (w_micros w) (w_millis w) rest bs (w_trace w))
        (fun res w' =>
           rx_reads l w (snd res) w' /\ state (snd res) = state l /\
           response (snd res) = response l /\ w_trace w' = w_trace w)).
    { intros blocks Hcap. apply post_bind, post_micros. intros t ts Ht.
      eapply post_weaken; [apply IH|].
      intros [c' l'] w' (((r & Hr & Hb) & _ & Hc & _) & Hs & Hresp & Htr).
      simpl in *.
      split; [|auto].
      split; [|split; [|split]].
      - exists (b :: r). rewrite Hread, Hr, Hb. simpl. rewrite <- app_assoc.
        split; reflexivity.
      - exists []. rewrite Htr, app_nil_r. split; reflexivity.
      - auto.
      - intros HJ Hfin. rewrite Hresp. apply HJ. rewrite <- Hs. exact Hfin. }
    apply post_bind.
    destruct (Z.of_nat (length (buffer l ++ [uint8 b])) >=? bufferBlocks l * BUFBLOCKSIZE)
      eqn:Hfull.
    + destruct (uint8 (bufferBlocks l + 1) =? 0) eqn:Hwrap; [apply post_fail|].
      apply post_ret. apply Hrest. intros Hcap.
      apply capacity_after_byte; [exact Hcap|]. rewrite Hfull.
      split; [apply Z.eqb_neq, Hwrap | reflexivity].
    + apply post_ret. apply Hrest. intros Hcap.
      apply capacity_after_byte; [exact Hcap|]. rewrite Hfull. reflexivity.
Qed.

Lemma rx_reads_delays l w l' w' ds :
  w_read w' = w_read w -> w_trace w' = w_trace w ++ ds -> forallb is_delay ds = true ->
  buffer l' = buffer l -> bufferBlocks l' = bufferBlocks l ->
  (state l' = FINISHED -> is_Some (response l')) ->
  rx_reads l w l' w'.
Proof.
  intros Hr Ht Hd Hb Hbb HJ. split; [|split; [|split]].
  - exists []. rewrite Hr, Hb. simpl. rewrite app_nil_r. split; reflexivity.
  - exists ds. split; assumption.
  - unfold capacity_ok. rewrite Hb, Hbb. exact (fun H => H).
  - intros _. exact HJ.
Qed.

Lemma data_read_result request l :
  buffer (data_read calcCRC request l) = buffer l /\
  bufferBlocks (data_read calcCRC request l) = bufferBlocks l /\
  (state (data_read calcCRC request l) = FINISHED ->
   is_Some (response (data_read calcCRC request l))).
Proof.
  unfold data_read.
  repeat match goal with
         | |- context [if ?b then _ else _] => destruct b
         end; simpl; repeat split; eauto; discriminate.
Qed.

Lemma receive_step_reads request c l w :
  state l <> FINISHED ->
  post (receive_step calcCRC request c l) w (fun res w' => rx_reads l w (snd res) w').
Proof.
  intros Hnot. unfold receive_step.
  destruct (state l) eqn:Hst; [| | | | |contradiction].
  - (* WAIT_INTERVAL *)
    apply post_bind, post_micros. intros t ts Ht.
    destruct (uint32 (uint32 t - MR_lastMicros c) >=? MR_interval c).
    + apply post_ret. simpl. apply (rx_reads_delays _ _ _ _ []); auto using app_nil_r.
      simpl. discriminate.
    + apply post_bind, post_emit, post_ret. simpl.
      apply (rx_reads_delays _ _ _ _ [EvDelayMicroseconds 1]); auto.
      rewrite Hst. discriminate.
  - (* WAIT_DATA *)
    apply post_bind, post_available. intros a rest Ha.
    assert (Hrest : forall c' l' wx,
      w_read wx = w_read w -> w_trace wx = w_trace w ->
      buffer l' = buffer l -> bufferBlocks l' = bufferBlocks l ->
      state l' <> FINISHED ->
      post (bind (delay 1) (fun _ => ret (c', l'))) wx
        (fun (res : ModbusClientRTU * RxLocals) w' => rx_reads l w (snd res) w')).
    { intros c' l' wx Hr Ht Hb Hbb Hs. apply post_bind, post_emit, post_ret. simpl.
      apply (rx_reads_delays _ _ _ _ [EvDelay 1]); auto.
      - rewrite Ht. reflexivity.
      - intros Hfin. contradiction. }
    apply post_bind.
    destruct (negb (a =? 0)).
    + apply post_bind, post_micros. intros t ts Ht. apply post_ret.
      apply Hrest; auto; simpl; discriminate.
    + apply post_bind, post_millis. intros t ts Ht.
      destruct (uint32 (uint32 t - TimeOut l) >=? MR_timeoutValue c);
        apply post_ret; apply Hrest; auto; simpl; try discriminate;
        rewrite Hst; discriminate.
  - (* IN_PACKET *)
    apply post_bind, post_available_left, post_bind.
    eapply post_weaken; [apply in_packet_read_reads|].
    intros [c' l'] w1 (Hreads & Hs & Hresp & Htr). simpl in *.
    apply post_bind, post_micros. intros t ts Ht.
    assert (Hlast : forall st,
      st <> FINISHED ->
      rx_reads l w (set_state st l')
        (mkWorld ts (w_millis w1) (w_available w1) (w_read w1) (w_trace w1))).
    { intros st Hne. eapply rx_reads_trans; [exact Hreads|].
      apply (rx_reads_delays _ _ _ _ []); auto using app_nil_r.
      simpl. intros Hfin. contradiction. }
    destruct (uint32 (uint32 t - MR_lastMicros c') >=? MR_interval c'); apply post_ret; simpl.
    + apply Hlast. discriminate.
    + replace l' with (set_state IN_PACKET l') at 1
        by (destruct l'; simpl in *; rewrite Hs, Hst; reflexivity).
      apply Hlast. discriminate.
  - (* DATA_READ *)
    apply post_ret. simpl.
    destruct (data_read_result request l) as (Hb & Hbb & HJ).
    apply (rx_reads_delays _ _ _ _ []); auto using app_nil_r.
  - (* ERROR_EXIT *)
    apply post_ret. simpl.
    apply (rx_reads_delays _ _ _ _ []); auto using app_nil_r; simpl; eauto.
Qed.

Lemma receive_loop_reads request n : forall c l w,
  post (receive_loop calcCRC n request c l) w
    (fun res w' => rx_reads l w (snd res) w' /\ state (snd res) = FINISHED).
Proof.
  assert (Hdone : forall c l w,
    state l = FINISHED ->
    post (ret (c, l)) w
      (fun (res : ModbusClientRTU * RxLocals) w' =>
         rx_reads l w (snd res) w' /\ state (snd res) = FINISHED)).
  { intros c l w Hst. apply post_ret. simpl. split; [|exact Hst].
    apply rx_reads_same; auto. }
  induction n as [|n IH]; intros c l w;
    destruct (state_eq_dec (state l) FINISHED) as [Hst|Hst].
  - simpl. rewrite Hst. apply Hdone, Hst.
  - simpl. destruct (state l); try apply post_fail. contradiction.
  - simpl. rewrite Hst. apply Hdone, Hst.
  - assert (E : receive_loop calcCRC (S n) request c l =
                bind (receive_step calcCRC request c l)
                     (fun '(c', l') => receive_loop calcCRC n request c' l')).
    { simpl. destruct (state l); try reflexivity. contradiction. }
    rewrite E. apply post_bind.
    eapply post_weaken; [apply receive_step_reads, Hst|].
    intros [c1 l1] w1 H1. simpl in H1.
    eapply post_weaken; [apply IH|].
    intros [c2 l2] w2 [H2 Hfin]. simpl in *.
    split; [eapply rx_reads_trans; eassumption | exact Hfin].
Qed.

End ReceiveReads.

Section ReceiveResults.
Context `{EC : ErrorCodes}.
Variable calcCRC : list Z -> Z.

Lemma receive_runs request c w c' resp w' :
  receive calcCRC request c w = Some (c', resp, w') ->
  exists start w0 n c1 l w1 t,
    w_millis w = start :: w_millis w0 /\
    w_read w0 = w_read w /\ w_trace w0 = w_trace w /\
    receive_loop calcCRC n request c (rx_init (uint32 start)) w0 = Some (c1, l, w1) /\
    w_micros w1 = t :: w_micros w' /\
    w_read w' = w_read w1 /\ w_trace w' = w_trace w1 /\
    resp = response l /\ c' = set_lastMicros (uint32 t) c1.
Proof.
  unfold receive, bind, micros_left, available_left, millis, micros, ret.
  destruct (w_millis w) as [|start ms] eqn:Hms; [discriminate|].
  match goal with
  | |- context [receive_loop calcCRC ?n request c ?l0 ?w0] =>
      destruct (receive_loop calcCRC n request c l0 w0) as [[[c1 l] w1]|] eqn:Eloop;
      [|discriminate]
  end.
  destruct (w_micros w1) as [|t ts] eqn:Hus; [discriminate|].
  intros [= <- <- <-].
  eexists start, (mkWorld (w_micros w) ms (w_available w) (w_read w) (w_trace w)),
    _, c1, l, w1, t. simpl.
  split; [reflexivity|]. split; [reflexivity|]. split; [reflexivity|].
  split; [exact Eloop|]. auto.
Qed.

(** X1.  Whenever [receive] returns, the pointer it returns is not null:
    the handler code of the worker may read through it. *)
Theorem receive_never_null request c w c' resp w' :
  receive calcCRC request c w = Some (c', resp, w') -> is_Some resp.
Proof.
  intros Hrun.
  destruct (receive_runs _ _ _ _ _ _ Hrun)
    as (start & w0 & n & c1 & l & w1 & t & _ & _ & _ & Hloop & _ & _ & _ & -> & _).
  destruct (receive_loop_reads calcCRC request n c _ w0 _ _ Hloop)
    as [(_ & _ & _ & HJ) Hfin]. simpl in HJ, Hfin.
  apply HJ; [discriminate | exact Hfin].
Qed.

(** X2.  While it receives, the client does nothing to the outside but
    wait: [receive] writes nothing to the serial line, leaves the
    direction pin alone and calls no handler; it takes its bytes from the
    front of the serial input and leaves the client's settings and queue
    as they are. *)
Theorem receive_only_waits request c w c' resp w' :
  receive calcCRC request c w = Some (c', resp, w') ->
  (exists ds, w_trace w' = w_trace w ++ ds /\ forallb is_delay ds = true) /\
  (exists consumed, w_read w = consumed ++ w_read w') /\
  same_settings c c' /\ requests c' = requests c /\ messageCount c' = messageCount c.
Proof.
  intros Hrun.
  pose proof (receive_post calcCRC request c w _ _ Hrun) as [Hc _]. simpl in Hc.
  destruct (receive_runs _ _ _ _ _ _ Hrun)
    as (start & w0 & n & c1 & l & w1 & t & _ & Hr0 & Ht0 & Hloop & _ & Hr1 & Ht1 & _ & _).
  destruct (receive_loop_reads calcCRC request n c _ w0 _ _ Hloop)
    as [((consumed & Hcons & _) & (ds & Hds & Hdel) & _ & _) _]. simpl in *.
  split; [exists ds; rewrite Ht1, Hds, Ht0; auto|].
  split; [exists consumed; rewrite Hr1, <- Hr0; exact Hcons|].
  split; [apply same_config_settings, Hc|].
  split; [apply same_config_requests, Hc|].
  rewrite Hc. reflexivity.
Qed.

(** X3.  The receive buffer loses nothing and never overflows: when the
    state machine finishes, the buffer holds exactly the bytes read from
    the serial line, in the order read, each as an 8-bit value, and their
    number is below the [bufferBlocks * 128] bytes allocated, with at
    most 255 blocks, hence below 32640. *)
Theorem receive_buffer_complete request c start n w c' l w' :
  receive_loop calcCRC n request c (rx_init start) w = Some (c', l, w') ->
  exists consumed,
    w_read w = consumed ++ w_read w' /\
    buffer l = map uint8 consumed /\
    1 <= bufferBlocks l <= 255 /\
    Z.of_nat (length consumed) < bufferBlocks l * 128 /\
    Z.of_nat (length consumed) < 32640.
Proof.
  intros Hloop.
  destruct (receive_loop_reads calcCRC request n c _ w _ _ Hloop)
    as [((consumed & Hcons & Hbuf) & _ & Hcap & _) _]. simpl in *.
  assert (Hinit : capacity_ok (rx_init start))
    by (unfold capacity_ok, BUFBLOCKSIZE; simpl; lia).
  destruct (Hcap Hinit) as [Hbb Hlen].
  rewrite Hbuf, length_map in Hlen. unfold BUFBLOCKSIZE in Hlen.
  exists consumed. repeat split; try assumption; lia.
Qed.

End ReceiveResults.

(* ===================================================================== *)
(** ** Memory and capacity in every reachable state *)
(* ===================================================================== *)

#[local] Set Warnings "-clear-no-such-hyp".

Section SystemMore.
Context `{EC : ErrorCodes}.
Variable calcCRC : list Z -> Z.

Lemma receive_some_response request c w c' resp w' :
  receive calcCRC request c w = Some (c', resp, w') -> is_Some resp.
Proof.
  intros Hrun.
  destruct (receive_runs calcCRC _ _ _ _ _ _ Hrun)
    as (start & w0 & n & c1 & l & w1 & t & _ & _ & _ & Hloop & _ & _ & _ & -> & _).
  destruct (receive_loop_reads calcCRC request n c _ w0 _ _ Hloop)
    as [(_ & _ & _ & HJ) Hfin]. simpl in HJ, Hfin.
  apply HJ; [discriminate | exact Hfin].
Qed.

Lemma submit_more b s s' :
  sys_inv s -> sys_more s -> step calcCRC (CallAddRequest b) s = Some s' -> sys_more s'.
Proof.
  intros Hinv (Hcap & Hdom & Hans). unfold step. destruct b as [r|rc].
  - rewrite addRequest_Built.
    destruct (Z.ltb_spec (Z.of_nat (length (requests (inst s)))) (MR_qLimit (inst s)))
      as [Hroom|Hfull]; intros [= <-]; unfold sys_more; simpl.
    + split; [rewrite length_app; simpl; lia|]. split; [|exact Hans].
      rewrite dom_insert_L, list_to_set_app_L, Hdom. simpl. set_solver.
    + auto.
  - cbn [addRequest createRTURequest]. intros [= <-]. unfold sys_more. simpl. auto.
Qed.

Lemma worker_more s s' :
  sys_inv s -> sys_more s -> handleConnection_step calcCRC s = Some s' -> sys_more s'.
Proof.
  intros (fin & pend & fired & _ & _ & _ & _ & Hnd & Hpc) (Hcap & Hdom & Hans) Hstep.
  unfold handleConnection_step in Hstep. unfold sys_more.
  destruct (worker s) as [|p|p|p resp|p resp|p resp] eqn:Hw; simpl in Hdom, Hans.
  - destruct (requests (inst s)) as [|p q] eqn:Hq; simpl in Hstep;
      inversion Hstep; subst; clear Hstep; simpl; rewrite Hq; auto.
  - destruct (heap s !! p) as [r|]; [|discriminate]. simpl in Hstep.
    destruct (send r (inst s) (world s)) as [[c w]|] eqn:E; [|discriminate].
    inversion Hstep; subst; clear Hstep. simpl.
    destruct (send_post r (inst s) (world s) _ _ E) as [Hc _].
    rewrite (same_config_requests _ _ Hc).
    destruct (same_config_settings _ _ Hc) as (_ & _ & -> & _). auto.
  - destruct (heap s !! p) as [r|]; [|discriminate]. simpl in Hstep.
    destruct (receive calcCRC r (inst s) (world s)) as [[[c resp] w]|] eqn:E; [|discriminate].
    inversion Hstep; subst; clear Hstep. simpl.
    destruct (receive_post calcCRC r (inst s) (world s) _ _ E) as [Hc _]. simpl in Hc.
    rewrite (same_config_requests _ _ Hc).
    destruct (same_config_settings _ _ Hc) as (_ & _ & -> & _).
    split; [exact Hcap|]. split; [exact Hdom|].
    eapply receive_some_response, E.
  - destruct (heap s !! p) as [r|]; [|discriminate]. simpl in Hstep.
    destruct resp as [resp|]; [|discriminate]. simpl in Hstep.
    destruct (deliver (inst s) r resp (world s)) as [[u w]|]; [|discriminate].
    inversion Hstep; subst; clear Hstep. simpl. auto.
  - destruct (requests (inst s)) as [|p0 q] eqn:Hq; [discriminate|].
    inversion Hstep; subst; clear Hstep. simpl.
    destruct Hpc as (before & r & _ & _ & Hhd). injection Hhd as ->.
    simpl in Hcap, Hdom. split; [lia|]. split; [|exact Hans].
    rewrite Hdom. set_solver.
  - inversion Hstep; subst; clear Hstep. simpl.
    destruct Hpc as (_ & Hnot & _).
    split; [exact Hcap|]. split; [|exact I].
    rewrite dom_delete_L, Hdom.
    assert (p ∉ (list_to_set (requests (inst s)) : gset nat))
      by (rewrite elem_of_list_to_set; exact Hnot).
    set_solver.
Qed.

Lemma run_more sched : forall s s',
  sys_inv s -> sys_more s -> run calcCRC sched s = Some s' -> sys_inv s' /\ sys_more s'.
Proof.
  induction sched as [|a sched IH]; intros s s' Hinv Hmore Hrun; simpl in Hrun.
  - inversion Hrun; subst. auto.
  - destruct (step calcCRC a s) as [s1|] eqn:E; [|discriminate]. simpl in Hrun.
    apply (IH s1); [eapply step_inv; eassumption | | exact Hrun].
    destruct a; [eapply submit_more | eapply worker_more]; eassumption.
Qed.

Lemma initial_more s : initial s -> sys_more s.
Proof.
  intros (Hq & Hh & Hw & _ & _). unfold sys_more. rewrite Hq, Hh, Hw. simpl.
  split; [lia|]. split; [set_solver | exact I].
Qed.

Lemma reachable_more sched s0 s :
  initial s0 -> run calcCRC sched s0 = Some s -> sys_inv s /\ sys_more s.
Proof.
  intros Hinit. apply run_more; [apply initial_inv | apply initial_more]; exact Hinit.
Qed.

Lemma deliver_returns c r resp w : is_Some (deliver c r resp w).
Proof.
  unfold deliver.
  destruct (RTUResponse.getError resp =? SUCCESS), (onData c), (onError c);
    unfold emit, ret; eauto.
Qed.

(** X4.  The queue never holds more than [MR_qLimit] requests, whatever
    callers and worker do, in whatever order. *)
Theorem queue_within_capacity sched s0 s :
  initial s0 -> run calcCRC sched s0 = Some s ->
  Z.of_nat (length (requests (inst s))) <= Z.max 0 (MR_qLimit (inst s0)).
Proof.
  intros Hinit Hrun.
  destruct (reachable_more sched s0 s Hinit Hrun) as [_ (Hcap & _)].
  destruct (run_settings calcCRC sched s0 s Hrun) as (_ & _ & Hq & _).
  rewrite <- Hq. exact Hcap.
Qed.

(** X5.  No request object leaks or dangles: in every reachable state the
    live request objects are exactly those the queue points to, plus the
    one the worker has popped and is about to delete, and no pointer is
    queued twice. *)
Theorem live_requests_are_queued sched s0 s :
  initial s0 -> run calcCRC sched s0 = Some s ->
  NoDup (requests (inst s)) /\
  (forall p, is_Some (heap s !! p) <-> p ∈ requests (inst s) \/ p ∈ popped (worker s)).
Proof.
  intros Hinit Hrun.
  destruct (reachable_more sched s0 s Hinit Hrun)
    as [(fin & pend & fired & _ & _ & _ & _ & Hnd & _) (_ & Hdom & _)].
  split; [exact Hnd|].
  intros p. rewrite <- elem_of_dom, Hdom, elem_of_union, elem_of_list_to_set.
  reflexivity.
Qed.

(** X6.  The worker never reads through a deleted request or a null
    response and never pops an empty queue: in every reachable state its
    next statement runs, unless it is [send] or [receive] and that call
    itself does not return. *)
Theorem worker_steps_are_safe sched s0 s :
  initial s0 -> run calcCRC sched s0 = Some s ->
  match worker s with
  | Pulled p =>
      exists r, heap s !! p = Some r /\
        (handleConnection_step calcCRC s = None <-> send r (inst s) (world s) = None)
  | SentOut p =>
      exists r, heap s !! p = Some r /\
        (handleConnection_step calcCRC s = None <->
         receive calcCRC r (inst s) (world s) = None)
  | _ => is_Some (handleConnection_step calcCRC s)
  end.
Proof.
  intros Hinit Hrun.
  destruct (reachable_more sched s0 s Hinit Hrun) as [Hinv (_ & _ & Hans)].
  pose proof (in_flight_front s) as Hfront.
  unfold handleConnection_step.
  destruct (worker s) as [|p|p|p resp|p resp|p resp] eqn:Hw; simpl in Hans.
  - destruct (requests (inst s)); simpl; eauto.
  - destruct (Hfront p Hinv eq_refl) as (rest & _ & [r Hr]).
    exists r. split; [exact Hr|]. rewrite Hr. simpl.
    destruct (send r (inst s) (world s)) as [[c w]|]; simpl; split; congruence.
  - destruct (Hfront p Hinv eq_refl) as (rest & _ & [r Hr]).
    exists r. split; [exact Hr|]. rewrite Hr. simpl.
    destruct (receive calcCRC r (inst s) (world s)) as [[[c resp] w]|]; simpl;
      split; congruence.
  - destruct (Hfront p Hinv eq_refl) as (rest & _ & [r Hr]).
    destruct Hans as [answer ->]. rewrite Hr. simpl.
    destruct (deliver_returns (inst s) r answer (world s)) as [[u w] ->]. simpl. eauto.
  - destruct (Hfront p Hinv eq_refl) as (rest & -> & _). eauto.
  - eauto.
Qed.

Lemma uint32_range x : 0 <= uint32 x < 4294967296.
Proof. apply Z.mod_pos_bound. lia. Qed.

Lemma step_messageCount a s s' :
  step calcCRC a s = Some s' ->
  messageCount (inst s') =
    if is_built_call a then uint32 (messageCount (inst s) + 1) else messageCount (inst s).
Proof.
  destruct a as [[r|rc]|]; simpl.
  - rewrite addRequest_Built.
    destruct (Z.of_nat (length (requests (inst s))) <? MR_qLimit (inst s));
      intros [= <-]; reflexivity.
  - intros [= <-]. reflexivity.
  - unfold handleConnection_step.
    destruct (worker s) as [|p|p|p resp|p resp|p resp].
    + destruct (requests (inst s)); simpl; intros [= <-]; reflexivity.
    + destruct (heap s !! p) as [r|]; [|discriminate]. simpl.
      destruct (send r (inst s) (world s)) as [[c w]|] eqn:E; [|discriminate].
      intros [= <-]. simpl.
      destruct (send_post r (inst s) (world s) _ _ E) as [-> _]. reflexivity.
    + destruct (heap s !! p) as [r|]; [|discriminate]. simpl.
      destruct (receive calcCRC r (inst s) (world s)) as [[[c resp] w]|] eqn:E;
        [|discriminate].
      intros [= <-]. simpl.
      destruct (receive_post calcCRC r (inst s) (world s) _ _ E) as [Hc _].
      simpl in Hc. rewrite Hc. reflexivity.
    + destruct (heap s !! p) as [r|]; [|discriminate]. simpl.
      destruct resp as [resp|]; [|discriminate]. simpl.
      destruct (deliver (inst s) r resp (world s)) as [[u w]|]; [|discriminate].
      intros [= <-]. reflexivity.
    + destruct (requests (inst s)); [discriminate|]. intros [= <-]. reflexivity.
    + intros [= <-]. reflexivity.
Qed.

(** X7.  [messageCount] counts the submissions whose request was built,
    queued or not, modulo 2^32; failed builds and the worker do not
    change it. *)
Theorem messageCount_counts_built_calls sched : forall s0 s,
  0 <= messageCount (inst s0) < 4294967296 ->
  run calcCRC sched s0 = Some s ->
  messageCount (inst s) = uint32 (messageCount (inst s0) + built_calls sched).
Proof.
  unfold built_calls.
  induction sched as [|a sched IH]; intros s0 s Hrange Hrun; simpl in Hrun.
  - inversion Hrun; subst. simpl. rewrite Z.add_0_r. symmetry. apply Z.mod_small, Hrange.
  - destruct (step calcCRC a s0) as [s1|] eqn:E; [|discriminate]. simpl in Hrun.
    pose proof (step_messageCount a s0 s1 E) as Hmc.
    simpl. destruct (is_built_call a).
    + rewrite (IH s1 s) by (rewrite ?Hmc; auto using uint32_range).
      rewrite Hmc. simpl length. unfold uint32.
      rewrite Zplus_mod_idemp_l. f_equal. lia.
    + rewrite (IH s1 s) by (rewrite ?Hmc; auto). rewrite Hmc. reflexivity.
Qed.

(** X8.  Submissions made back to back, with no worker step in between,
    are accepted while the queue has room and rejected from then on: the
    call number [i] returns SUCCESS if the queue length at the start plus
    [i] is below [MR_qLimit] and REQUEST_QUEUE_FULL otherwise, and the
    platform is not touched. *)
Theorem back_to_back_submissions rs : forall s,
  exists s',
    run calcCRC (map (fun r => CallAddRequest (Built r)) rs) s = Some s' /\
    calls s' =
      calls s ++
      imap (fun i r =>
              (Built r,
               if Z.of_nat (length (requests (inst s))) + Z.of_nat i <? MR_qLimit (inst s)
               then SUCCESS else REQUEST_QUEUE_FULL)) rs /\
    length (requests (inst s')) =
      (length (requests (inst s)) +
       Z.to_nat (Z.min (Z.of_nat (length rs))
                       (MR_qLimit (inst s) - Z.of_nat (length (requests (inst s))))))%nat /\
    world s' = world s /\ worker s' = worker s.
Proof.
  induction rs as [|r rs IH]; intros s; simpl.
  - exists s. rewrite app_nil_r. repeat split. lia.
  - rewrite addRequest_Built.
    destruct (Z.ltb_spec (Z.of_nat (length (requests (inst s)))) (MR_qLimit (inst s)))
      as [Hroom|Hfull]; simpl;
      match goal with
      | |- context [run calcCRC _ ?s1] => destruct (IH s1) as (s' & Hrun & Hcalls & Hlen & Hw & Hpc)
      end; simpl in *; exists s'; (split; [exact Hrun|]);
      rewrite Hcalls, Hlen, Hw, Hpc, <- app_assoc; simpl;
      rewrite Z.add_0_r.
    + destruct (Z.ltb_spec (Z.of_nat (length (requests (inst s)))) (MR_qLimit (inst s)));
        [|lia].
      split; [|split; [|split; reflexivity]].
      * do 2 f_equal. apply imap_ext. intros i x _. simpl.
        rewrite length_app. simpl.
        replace (Z.of_nat (length (requests (inst s)) + 1) + Z.of_nat i)
          with (Z.of_nat (length (requests (inst s))) + Z.of_nat (S i)) by lia.
        reflexivity.
      * rewrite length_app. simpl. lia.
    + destruct (Z.ltb_spec (Z.of_nat (length (requests (inst s)))) (MR_qLimit (inst s)));
        [lia|].
      split; [|split; [|split; reflexivity]].
      * do 2 f_equal. apply imap_ext. intros i x _. simpl.
        destruct (Z.ltb_spec (Z.of_nat (length (requests (inst s))) + Z.of_nat i)
                             (MR_qLimit (inst s))); [lia|].
        destruct (Z.ltb_spec (Z.of_nat (length (requests (inst s))) + Z.of_nat (S i))
                             (MR_qLimit (inst s))); [lia|].
        reflexivity.
      * lia.
Qed.

Lemma drain_queue_spec q : forall h,
  NoDup q -> (forall p, p ∈ q -> is_Some (h !! p)) ->
  exists h', drain_queue q h = Some h' /\ dom h' = dom h ∖ list_to_set q.
Proof.
  induction q as [|p q IH]; intros h Hnd Hlive; simpl.
  - exists h. split; [reflexivity|]. set_solver.
  - apply NoDup_cons in Hnd as [Hp Hnd].
    destruct (Hlive p) as [r Hr]; [left|]. rewrite Hr.
    destruct (IH (delete p h) Hnd) as (h' & Hrun & Hdom).
    + intros p' Hin. rewrite lookup_delete_ne by (intros ->; contradiction).
      apply Hlive. right. exact Hin.
    + exists h'. split; [exact Hrun|]. rewrite Hdom, dom_delete_L. set_solver.
Qed.

(** X9.  The destructor, run in any reachable state, finds every queued
    pointer live, deletes each once and leaves the queue empty.  What is
    left on the heap is exactly a request the worker had already popped
    and not yet deleted; a request the worker is still working on (it is
    at the front of the queue) is deleted under it.  The settings and
    [messageCount] are unchanged. *)
Theorem destructor_empties_queue sched s0 s :
  initial s0 -> run calcCRC sched s0 = Some s ->
  exists c' h',
    destructor (inst s) (heap s) = Some (c', h') /\
    requests c' = [] /\
    dom h' = popped (worker s) /\
    (forall p, in_flight (worker s) = Some p -> is_Some (heap s !! p) /\ h' !! p = None) /\
    same_settings (inst s) c' /\ messageCount c' = messageCount (inst s).
Proof.
  intros Hinit Hrun.
  destruct (reachable_more sched s0 s Hinit Hrun) as [Hinv (Hcap & Hdom & Hresp)].
  pose proof Hinv as (fin & pend & fired & _ & _ & _ & _ & Hnd & Hpc).
  assert (Hlive : forall p, p ∈ requests (inst s) -> is_Some (heap s !! p)).
  { intros p Hin. apply elem_of_dom. rewrite Hdom. set_solver. }
  destruct (drain_queue_spec (requests (inst s)) (heap s) Hnd Hlive) as (h' & Hdrain & Hdom').
  assert (Hout : forall p, p ∈ popped (worker s) -> p ∉ requests (inst s)).
  { intros p. destruct (worker s); simpl; set_solver. }
  exists (set_requests [] (inst s)), h'. unfold destructor. rewrite Hdrain.
  split; [reflexivity|]. split; [reflexivity|]. split; [|split].
  - rewrite Hdom', Hdom. apply set_eq. intros p.
    rewrite elem_of_difference, elem_of_union, elem_of_list_to_set.
    specialize (Hout p). tauto.
  - intros p Hp.
    assert (Hfront : hd_error (requests (inst s)) = Some p).
    { destruct (worker s); simpl in Hp; try discriminate; inversion Hp; subst;
        [destruct Hpc as [_ H]; exact H ..| destruct Hpc as (? & ? & _ & _ & H); exact H]. }
    assert (Hin : p ∈ requests (inst s)).
    { destruct (requests (inst s)); [discriminate|]. inversion Hfront; subst. left. }
    split; [apply Hlive, Hin|].
    apply not_elem_of_dom. rewrite Hdom'. set_solver.
  - split; [|reflexivity]. destruct (inst s). repeat split.
Qed.

End SystemMore.

Section BuildOnly.
Context `{EC : ErrorCodes}.

(** X10.  [generateRequest] builds the frame without queueing anything:
    the request object it creates is deleted again, so the heap is as
    before.  A built request gives its bytes followed by the CRC, low
    byte first; a failed build gives the one byte of the error code, or
    nothing if the code is SUCCESS. *)
Theorem generateRequest_leaves_heap b h :
  snd (generateRequest b h) = h /\
  fst (generateRequest b h) =
    match b with
    | Built r =>
        RTURequest.data r ++
        [Z.land (RTURequest.CRC r) 255; Z.land (Z.shiftr (RTURequest.CRC r) 8) 255]
    | Invalid rc => if rc =? SUCCESS then [] else [rc]
    end.
Proof.
  unfold generateRequest. destruct b as [r|rc]; simpl.
  - rewrite lookup_insert_eq, delete_insert_id by apply fresh_unused.
    split; [reflexivity|]. unfold vectorize. rewrite Z.eqb_refl. reflexivity.
  - split; [reflexivity|]. unfold vectorize. destruct (rc =? SUCCESS); reflexivity.
Qed.

End BuildOnly.

(* ===================================================================== *)
(** ** Frames through DATA_READ and on to the handlers *)
(* ===================================================================== *)

Lemma land_127_small b : 0 <= b < 128 -> Z.land b 127 = b.
Proof.
  intros Hb. change 127 with (Z.ones 7). rewrite Z.land_ones by lia.
  apply Z.mod_small. change (2 ^ 7) with 128. lia.
Qed.

Lemma error_bit_masked fc : 0 <= fc < 128 -> Z.land (Z.lor fc 128) 127 = fc.
Proof.
  intros Hfc. rewrite Z.land_lor_distr_l. change (Z.land 128 127) with 0.
  rewrite Z.lor_0_r. apply land_127_small, Hfc.
Qed.

Lemma error_bit_set fc : Z.testbit (Z.lor fc 128) 7 = true.
Proof. rewrite Z.lor_spec. change (Z.testbit 128 7) with true. apply orb_true_r. Qed.

Lemma error_bit_clear b : is_byte b -> Z.testbit b 7 = false -> 0 <= b < 128.
Proof.
  unfold is_byte. intros Hb Hbit.
  pose proof (Z.testbit_spec' b 7 ltac:(lia)) as Hspec.
  rewrite Hbit in Hspec. change (2 ^ 7) with 128 in Hspec. simpl in Hspec.
  assert (b / 128 < 2) by (apply Z.div_lt_upper_bound; lia).
  assert (0 <= b / 128) by (apply Z.div_pos; lia).
  assert (Hq : b / 128 = 0).
  { destruct (Z.eq_dec (b / 128) 0) as [E|E]; [exact E|].
    assert (E1 : b / 128 = 1) by lia. rewrite E1 in Hspec. discriminate. }
  apply Z.div_small_iff in Hq; lia.
Qed.

Lemma nth_byte bs k : Forall is_byte bs -> is_byte (nth k bs 0).
Proof.
  intros Hbs. revert k. induction Hbs as [|b bs Hb _ IH]; intros [|k]; simpl; auto;
    unfold is_byte; lia.
Qed.

Lemma success_not_raised `{EC : ErrorCodes} : ~ In SUCCESS receive_errors.
Proof.
  pose proof codes_distinct as Hnd.
  apply NoDup_cons in Hnd as [Hfirst _].
  unfold receive_errors. simpl. intros Hin. apply Hfirst.
  repeat (destruct Hin as [<-|Hin]; [set_solver|]). destruct Hin.
Qed.

Section FrameResults.
Context `{EC : ErrorCodes}.
Variable calcCRC : list Z -> Z.
Hypothesis calcCRC_range : crc_fits calcCRC.

Lemma append_crc_bytes body : Forall is_byte (append_crc calcCRC body) <-> Forall is_byte body.
Proof.
  unfold append_crc. rewrite Forall_app. split; [tauto|].
  intros Hb. split; [exact Hb|].
  repeat (apply List.Forall_cons; [apply crc_lo_byte || apply crc_hi_byte|]).
  apply List.Forall_nil.
Qed.

Lemma frame_accepted request body :
  Forall is_byte body -> (3 <= length body)%nat ->
  nth 0 body 0 = RTURequest.serverID request ->
  Z.land (nth 1 body 0) 127 = RTURequest.functionCode request ->
  frame_complete_spec calcCRC request (append_crc calcCRC body) =
    Accept (RTUResponse.mk body (calcCRC body)).
Proof.
  intros Hbody Hlen Hsid Hfc. unfold frame_complete_spec, append_crc.
  assert (Hl : (length (body ++ [crc_lo (calcCRC body); crc_hi (calcCRC body)]) - 2
                = length body)%nat) by (rewrite length_app; simpl; lia).
  destruct (Nat.ltb_spec (length (body ++ [crc_lo (calcCRC body); crc_hi (calcCRC body)])) 5)
    as [Hshort|_]; [rewrite length_app in Hshort; simpl in Hshort; lia|].
  rewrite Hl, take_app_length, drop_app_length.
  rewrite crc_lo_hi by (apply calcCRC_range, Hbody).
  unfold first_failing. simpl.
  rewrite (mask_error_bit _ (nth_byte body 1 Hbody)).
  rewrite Hsid, Hfc, !Z.eqb_refl. reflexivity.
Qed.

Lemma accepted_frame request buf r :
  Forall is_byte buf ->
  frame_complete_spec calcCRC request buf = Accept r ->
  (5 <= length buf)%nat /\
  RTUResponse.bytes r = rx_message buf /\
  RTUResponse.CRC r = calcCRC (RTUResponse.bytes r) /\
  RTUResponse.getServerID r = RTURequest.serverID request /\
  Z.land (RTUResponse.getFunctionCode r) 127 = RTURequest.functionCode request.
Proof.
  intros Hbuf. unfold frame_complete_spec, first_failing, rx_message.
  destruct (Nat.ltb_spec (length buf) 5) as [|Hlen]; [discriminate|].
  set (body := take (length buf - 2) buf).
  assert (Hbody : Forall is_byte body) by (apply Forall_take, Hbuf).
  simpl.
  rewrite (mask_error_bit _ (nth_byte body 1 Hbody)).
  match goal with
  | |- context [?crc =? calcCRC body] =>
      destruct (Z.eqb_spec crc (calcCRC body)) as [Hcrc|]; simpl; [|discriminate]
  end.
  destruct (Z.eqb_spec (nth 0 body 0) (RTURequest.serverID request)) as [Hsid|];
    simpl; [|discriminate].
  destruct (Z.eqb_spec (Z.land (nth 1 body 0) 127) (RTURequest.functionCode request))
    as [Hfc|]; simpl; [|discriminate].
  intros [= <-]. simpl. unfold RTUResponse.getServerID, RTUResponse.getFunctionCode. simpl.
  auto.
Qed.

(** X11.  DATA_READ cannot tell the echo of a request from an answer to
    it.  If the buffer holds exactly the bytes [vectorize] gives for the
    request itself (which are those [send] wrote), the request's CRC is
    the CRC of its bytes and its function code is below 128, then a
    request with a payload is accepted as its own response, and one
    without payload is a PACKET_LENGTH_ERROR. *)
Theorem own_frame_is_accepted request l :
  Forall is_byte (RTURequest.data request) ->
  0 <= RTURequest.functionCode request < 128 ->
  RTURequest.CRC request = calcCRC (RTURequest.data request) ->
  buffer l = vectorize (Some request) SUCCESS ->
  (RTURequest.payload request <> [] ->
     state (data_read calcCRC request l) = FINISHED /\
     response (data_read calcCRC request l) =
       Some (RTUResponse.mk (RTURequest.data request) (RTURequest.CRC request))) /\
  (RTURequest.payload request = [] ->
     state (data_read calcCRC request l) = ERROR_EXIT /\
     errorCode (data_read calcCRC request l) = PACKET_LENGTH_ERROR).
Proof.
  intros Hbytes Hfc Hcrc Hbuf.
  assert (Hframe : buffer l = append_crc calcCRC (RTURequest.data request)).
  { rewrite Hbuf. unfold vectorize, append_crc. rewrite Z.eqb_refl. simpl.
    rewrite Hcrc. reflexivity. }
  pose proof (data_read_spec calcCRC calcCRC_range request l) as Hspec.
  rewrite Hframe in Hspec. specialize (Hspec (proj2 (append_crc_bytes _) Hbytes)).
  split.
  - intros Hpayload.
    rewrite frame_accepted in Hspec; auto.
    + rewrite Hcrc. destruct Hspec as (H1 & H2 & _). auto.
    + unfold RTURequest.data. simpl.
      destruct (RTURequest.payload request); [contradiction | simpl; lia].
    + unfold RTURequest.data. simpl. apply land_127_small, Hfc.
  - intros Hpayload. unfold frame_complete_spec, append_crc, RTURequest.data in Hspec.
    rewrite Hpayload in Hspec. simpl in Hspec. exact Hspec.
Qed.

(** X12.  What [generateErrorResponse] builds for a request is, fed to
    DATA_READ, accepted as a response to that request; its error is the
    code given, and with an error handler registered the worker's
    handler call passes exactly that code and the request's token to
    [onError]. *)
Theorem generated_error_is_delivered checkServerFC request e l c w :
  checkServerFC (RTURequest.serverID request) (RTURequest.functionCode request) = SUCCESS ->
  is_byte (RTURequest.serverID request) ->
  0 <= RTURequest.functionCode request < 128 ->
  is_byte e -> e <> SUCCESS ->
  buffer l =
    generateErrorResponse calcCRC checkServerFC
      (RTURequest.serverID request) (RTURequest.functionCode request) e ->
  exists resp,
    state (data_read calcCRC request l) = FINISHED /\
    response (data_read calcCRC request l) = Some resp /\
    RTUResponse.getError resp = e /\
    deliver c request resp w =
      (if onError c then emit (EvOnError e (RTURequest.token request)) else ret tt) w.
Proof.
  intros Hok Hsid Hfc He Hne Hbuf.
  assert (Hfcb : is_byte (RTURequest.functionCode request)) by (unfold is_byte; lia).
  destruct (generateErrorResponse_frame calcCRC calcCRC_range checkServerFC _ _ e
              Hok Hsid Hfcb He) as [Hframe _].
  rewrite Hframe in Hbuf.
  set (body := [RTURequest.serverID request;
                Z.lor (RTURequest.functionCode request) 128; e]) in *.
  assert (Hbody : Forall is_byte body).
  { repeat (apply List.Forall_cons;
            [assumption || (apply lor_byte; [assumption | unfold is_byte; lia])|]).
    apply List.Forall_nil. }
  pose proof (data_read_spec calcCRC calcCRC_range request l) as Hspec.
  rewrite Hbuf in Hspec. specialize (Hspec (proj2 (append_crc_bytes _) Hbody)).
  rewrite frame_accepted in Hspec;
    [| exact Hbody | simpl; lia | reflexivity | apply error_bit_masked, Hfc].
  destruct Hspec as (Hst & Hresp & _).
  assert (Herr : RTUResponse.getError (RTUResponse.mk body (calcCRC body)) = e).
  { unfold RTUResponse.getError, RTUResponse.getFunctionCode, body.
    cbn [RTUResponse.bytes nth]. rewrite error_bit_set. reflexivity. }
  exists (RTUResponse.mk body (calcCRC body)).
  split; [exact Hst|]. split; [exact Hresp|]. split; [exact Herr|].
  unfold deliver. rewrite Herr.
  destruct (Z.eqb_spec e SUCCESS); [contradiction|]. reflexivity.
Qed.

(** X13.  An error [receive] itself raises reaches the error handler
    unchanged: when the state machine ends with an error code other than
    SUCCESS, that code is one of TIMEOUT, PACKET_LENGTH_ERROR, CRC_ERROR,
    SERVER_ID_MISMATCH and FC_MISMATCH, the response has it as its
    error, and the worker's handler call is [onError] with that code and
    the request's token, never [onData]. *)
Theorem raised_error_reaches_onError request n c start w c' l w' :
  is_byte (RTURequest.serverID request) ->
  is_byte (RTURequest.functionCode request) ->
  receive_loop calcCRC n request c (rx_init start) w = Some (c', l, w') ->
  errorCode l <> SUCCESS ->
  In (errorCode l) receive_errors /\
  exists resp,
    response l = Some resp /\
    RTUResponse.getError resp = errorCode l /\
    forall c2 w2,
      deliver c2 request resp w2 =
        (if onError c2
         then emit (EvOnError (errorCode l) (RTURequest.token request)) else ret tt) w2.
Proof.
  intros Hsid Hfc Hrun Hne.
  destruct (receive_loop_post calcCRC request _ c (rx_init start) w _ _ Hrun)
    as [(_ & Hinv & _) Hfin]. simpl in Hinv, Hfin.
  assert (Hinit : rx_inv calcCRC request (rx_init start)).
  { split; [apply List.Forall_nil | reflexivity]. }
  destruct (Hinv calcCRC_range Hsid Hfc Hinit) as [_ Hl]. rewrite Hfin in Hl.
  destruct Hl as [(He & _) | (He & Hr)]; [contradiction|].
  split; [exact He|].
  exists (error_frame calcCRC request (errorCode l)).
  assert (Herr : RTUResponse.getError (error_frame calcCRC request (errorCode l))
                 = errorCode l).
  { unfold RTUResponse.getError, RTUResponse.getFunctionCode, error_frame.
    cbn [RTUResponse.bytes nth]. rewrite error_bit_set. reflexivity. }
  split; [exact Hr|]. split; [exact Herr|].
  intros c2 w2. unfold deliver. rewrite Herr.
  destruct (Z.eqb_spec (errorCode l) SUCCESS); [contradiction|]. reflexivity.
Qed.

(** X14.  When the state machine ends without an error, the response is
    everything that was received except the last two bytes, at least
    three bytes long; its CRC is the CRC of those bytes, its server id
    is the request's and its function code, error bit aside, is the
    request's.  If the error bit is clear, the worker's handler call is
    [onData] with the request's server id and function code, those
    bytes, their number and the request's token. *)
Theorem good_answer_reaches_onData request n c start w c' l w' :
  is_byte (RTURequest.serverID request) ->
  is_byte (RTURequest.functionCode request) ->
  receive_loop calcCRC n request c (rx_init start) w = Some (c', l, w') ->
  errorCode l = SUCCESS ->
  exists resp,
    response l = Some resp /\
    (5 <= length (buffer l))%nat /\
    RTUResponse.bytes resp = rx_message (buffer l) /\
    RTUResponse.CRC resp = calcCRC (RTUResponse.bytes resp) /\
    RTUResponse.getServerID resp = RTURequest.serverID request /\
    Z.land (RTUResponse.getFunctionCode resp) 127 = RTURequest.functionCode request /\
    (Z.testbit (RTUResponse.getFunctionCode resp) 7 = false ->
     forall c2 w2,
       deliver c2 request resp w2 =
         (if onData c2
          then emit (EvOnData (RTURequest.serverID request)
                              (RTURequest.functionCode request)
                              (rx_message (buffer l))
                              (Z.of_nat (length (buffer l)) - 2)
                              (RTURequest.token request))
          else ret tt) w2).
Proof.
  intros Hsid Hfc Hrun Hok.
  destruct (receive_loop_post calcCRC request _ c (rx_init start) w _ _ Hrun)
    as [(_ & Hinv & _) Hfin]. simpl in Hinv, Hfin.
  assert (Hinit : rx_inv calcCRC request (rx_init start)).
  { split; [apply List.Forall_nil | reflexivity]. }
  destruct (Hinv calcCRC_range Hsid Hfc Hinit) as [Hbuf Hl]. rewrite Hfin in Hl.
  destruct Hl as [(_ & resp & Hresp & Hacc) | (He & _)];
    [| rewrite Hok in He; destruct (success_not_raised He)].
  destruct (accepted_frame request (buffer l) resp Hbuf Hacc)
    as (Hlen & Hbytes & Hcrc & Hid & Hcode).
  exists resp. repeat (split; [assumption|]).
  intros Hbit c2 w2.
  assert (Hbyte : is_byte (RTUResponse.getFunctionCode resp)).
  { unfold RTUResponse.getFunctionCode. rewrite Hbytes. apply nth_byte.
    unfold rx_message. apply Forall_take, Hbuf. }
  rewrite land_127_small in Hcode by (apply error_bit_clear; assumption).
  unfold deliver, RTUResponse.getError. rewrite Hbit, Z.eqb_refl.
  unfold RTUResponse.data, RTUResponse.len, RTURequest.getToken.
  rewrite Hid, Hcode, Hbytes.
  replace (Z.of_nat (length (rx_message (buffer l))))
    with (Z.of_nat (length (buffer l)) - 2); [reflexivity|].
  unfold rx_message. rewrite length_take. lia.
Qed.

End FrameResults.

(* ===================================================================== *)
(** ** Runs of [receive] that are certain to return *)
(* ===================================================================== *)

Section ReceiveTotal.
Context `{EC : ErrorCodes}.
Variable calcCRC : list Z -> Z.

Lemma receive_loop_turn request n c l w :
  state l <> FINISHED ->
  receive_loop calcCRC (S n) request c l w =
  bind (receive_step calcCRC request c l)
       (fun '(c', l') => receive_loop calcCRC n request c' l') w.
Proof. intros Hst. simpl. destruct (state l); try reflexivity. contradiction. Qed.

(** WAIT_INTERVAL: one turn per clock reading until the interval is over. *)
Lemma wait_interval_runs request t rest k early : forall c l w,
  state l = WAIT_INTERVAL ->
  Forall (fun x => uint32 (uint32 x - MR_lastMicros c) < MR_interval c) early ->
  MR_interval c <= uint32 (uint32 t - MR_lastMicros c) ->
  w_micros w = early ++ t :: rest ->
  receive_loop calcCRC (length early + S k) request c l w =
  receive_loop calcCRC k request c (set_state WAIT_DATA l)
    (mkWorld rest (w_millis w) (w_available w) (w_read w)
       (w_trace w ++ repeat (EvDelayMicroseconds 1) (length early))).
Proof.
  induction early as [|x early IH]; intros c l w Hst Hearly Hexit Hw.
  - simpl length. simpl Nat.add. rewrite receive_loop_turn by (rewrite Hst; discriminate).
    unfold receive_step. rewrite Hst. unfold bind, micros. simpl in Hw. rewrite Hw.
    destruct (Z.geb_spec (uint32 (uint32 t - MR_lastMicros c)) (MR_interval c)); [|lia].
    unfold ret. simpl. rewrite app_nil_r. reflexivity.
  - inversion Hearly as [|? ? Hx Hearly']; subst.
    simpl length. simpl Nat.add. rewrite receive_loop_turn by (rewrite Hst; discriminate).
    unfold receive_step. rewrite Hst. unfold bind at 1 2. unfold micros.
    simpl in Hw. rewrite Hw.
    destruct (Z.geb_spec (uint32 (uint32 x - MR_lastMicros c)) (MR_interval c)); [lia|].
    unfold bind, delayMicroseconds, emit, ret. simpl.
    erewrite (IH c l); [| exact Hst | exact Hearly' | exact Hexit | reflexivity]. simpl.
    rewrite <- app_assoc. reflexivity.
Qed.

(** WAIT_DATA on a silent line: one turn, and one delay of a
    millisecond, per reading of [millis()] until the timeout is over. *)
Lemma wait_data_times_out request m_end rest_ms rest_av k ms : forall c l w,
  state l = WAIT_DATA ->
  Forall (fun m => uint32 (uint32 m - TimeOut l) < MR_timeoutValue c) ms ->
  MR_timeoutValue c <= uint32 (uint32 m_end - TimeOut l) ->
  w_millis w = ms ++ m_end :: rest_ms ->
  w_available w = repeat 0 (S (length ms)) ++ rest_av ->
  receive_loop calcCRC (length ms + S k) request c l w =
  receive_loop calcCRC k request c (set_error TIMEOUT ERROR_EXIT l)
    (mkWorld (w_micros w) rest_ms rest_av (w_read w)
       (w_trace w ++ repeat (EvDelay 1) (S (length ms)))).
Proof.
  induction ms as [|m ms IH]; intros c l w Hst Hms Hexit Hw Hav.
  - simpl length. simpl Nat.add. rewrite receive_loop_turn by (rewrite Hst; discriminate).
    unfold receive_step. rewrite Hst. unfold bind at 1 2. unfold serial_available.
    simpl in Hav. rewrite Hav. simpl.
    unfold bind at 1 2. unfold millis. simpl. simpl in Hw. rewrite Hw.
    destruct (Z.geb_spec (uint32 (uint32 m_end - TimeOut l)) (MR_timeoutValue c)); [|lia].
    unfold bind, delay, emit, ret. simpl. reflexivity.
  - inversion Hms as [|? ? Hm Hms']; subst.
    simpl length. simpl Nat.add. rewrite receive_loop_turn by (rewrite Hst; discriminate).
    unfold receive_step. rewrite Hst. unfold bind at 1 2. unfold serial_available.
    simpl in Hav. rewrite Hav. simpl.
    unfold bind at 1 2. unfold millis. simpl. simpl in Hw. rewrite Hw.
    destruct (Z.geb_spec (uint32 (uint32 m - TimeOut l)) (MR_timeoutValue c)); [lia|].
    unfold bind, delay, emit, ret. simpl.
    erewrite (IH c l); [| exact Hst | exact Hms' | exact Hexit | reflexivity | reflexivity].
    simpl.
    rewrite <- app_assoc. reflexivity.
Qed.

(** X15.  On a line that stays silent [receive] always returns, with the
    TIMEOUT error frame.  It takes clock readings, one microsecond
    apart, until one is an interval after the last bus activity; then it
    polls the line, one millisecond apart, until [millis()] is
    [MR_timeoutValue] after the reading taken at the start; it reads no
    byte and records the time read at the end. *)
Theorem receive_times_out request c w early t t_end rest_us start ms m_end rest_ms rest_av :
  w_micros w = early ++ t :: t_end :: rest_us ->
  Forall (fun x => uint32 (uint32 x - MR_lastMicros c) < MR_interval c) early ->
  MR_interval c <= uint32 (uint32 t - MR_lastMicros c) ->
  w_millis w = start :: ms ++ m_end :: rest_ms ->
  Forall (fun m => uint32 (uint32 m - uint32 start) < MR_timeoutValue c) ms ->
  MR_timeoutValue c <= uint32 (uint32 m_end - uint32 start) ->
  w_available w = repeat 0 (S (length ms)) ++ rest_av ->
  receive calcCRC request c w =
    Some (set_lastMicros (uint32 t_end) c,
          Some (RTUResponse.mk
                  [uint8 (RTURequest.serverID request);
                   uint8 (Z.lor (RTURequest.functionCode request) 0x80);
                   uint8 TIMEOUT]
                  (uint16 (calcCRC [uint8 (RTURequest.serverID request);
                                    uint8 (Z.lor (RTURequest.functionCode request) 0x80);
                                    uint8 TIMEOUT]))),
          mkWorld rest_us rest_ms rest_av (w_read w)
            (w_trace w ++ repeat (EvDelayMicroseconds 1) (length early)
                       ++ repeat (EvDelay 1) (S (length ms)))).
Proof.
  intros Hus Hearly Hexit Hms Hwait Hout Hav.
  unfold receive. unfold bind at 1. unfold millis. rewrite Hms.
  unfold bind at 1. unfold micros_left. unfold bind at 1. unfold available_left.
  cbn [w_micros w_available].
  set (w0 := mkWorld (w_micros w) (ms ++ m_end :: rest_ms) (w_available w) (w_read w)
                     (w_trace w)).
  set (lf := error_exit calcCRC request
               (set_error TIMEOUT ERROR_EXIT (set_state WAIT_DATA (rx_init (uint32 start))))).
  set (w1 := mkWorld (t_end :: rest_us) rest_ms rest_av (w_read w)
               (w_trace w ++ repeat (EvDelayMicroseconds 1) (length early)
                          ++ repeat (EvDelay 1) (S (length ms)))).
  assert (Hloop : receive_loop calcCRC (length early + S (length ms + S 1)) request c
                    (rx_init (uint32 start)) w0 = Some (c, lf, w1)).
  { erewrite (wait_interval_runs request t (t_end :: rest_us) _ early c);
      [| reflexivity | exact Hearly | exact Hexit | exact Hus].
    erewrite (wait_data_times_out request m_end rest_ms rest_av 1 ms c);
      [| reflexivity | exact Hwait | exact Hout | reflexivity | exact Hav].
    rewrite receive_loop_turn by (simpl; discriminate).
    unfold receive_step, bind, ret. simpl. unfold w1. rewrite <- app_assoc. reflexivity. }
  apply (receive_bound_enough calcCRC) in Hloop. unfold w0 in Hloop.
  cbn [w_micros w_available] in Hloop.
  unfold bind at 1. unfold w0. rewrite Hloop.
  unfold bind, micros, ret, w1. simpl. reflexivity.
Qed.

End ReceiveTotal.

Lemma stamp_snoc ts t c : stamp (ts ++ [t]) c = set_lastMicros (uint32 t) (stamp ts c).
Proof. unfold stamp. rewrite fold_left_app. reflexivity. Qed.

Lemma stamp_config ts : forall c, same_config c (stamp ts c).
Proof.
  induction ts as [|t ts IH]; intros c; simpl.
  - apply same_config_refl.
  - eapply same_config_trans; [|apply IH]. apply same_config_set, same_config_refl.
Qed.

Lemma map_uint8_bytes bs : Forall is_byte bs -> map uint8 bs = bs.
Proof.
  induction 1 as [|b bs Hb _ IH]; simpl; [reflexivity|].
  rewrite IH, uint8_id by assumption. reflexivity.
Qed.

Section ReceiveAnswer.
Context `{EC : ErrorCodes}.
Variable calcCRC : list Z -> Z.
Hypothesis calcCRC_range : crc_fits calcCRC.

Lemma receive_loop_done request n c l w :
  state l = FINISHED -> receive_loop calcCRC n request c l w = Some (c, l, w).
Proof. intros Hst. destruct n; simpl; rewrite Hst; reflexivity. Qed.

(** WAIT_DATA while nothing has arrived and the timeout is not over. *)
Lemma wait_data_idle request k ms : forall c l w rest_ms rest_av,
  state l = WAIT_DATA ->
  Forall (fun m => uint32 (uint32 m - TimeOut l) < MR_timeoutValue c) ms ->
  w_millis w = ms ++ rest_ms ->
  w_available w = repeat 0 (length ms) ++ rest_av ->
  receive_loop calcCRC (length ms + k) request c l w =
  receive_loop calcCRC k request c l
    (mkWorld (w_micros w) rest_ms rest_av (w_read w)
       (w_trace w ++ repeat (EvDelay 1) (length ms))).
Proof.
  induction ms as [|m ms IH]; intros c l w rest_ms rest_av Hst Hms Hw Hav.
  - simpl in *. rewrite app_nil_r, <- Hw, <- Hav. destruct w; reflexivity.
  - inversion Hms as [|? ? Hm Hms']; subst.
    simpl length. simpl Nat.add. rewrite receive_loop_turn by (rewrite Hst; discriminate).
    unfold receive_step. rewrite Hst. unfold bind at 1 2. unfold serial_available.
    simpl in Hav. rewrite Hav. simpl.
    unfold bind at 1 2. unfold millis. simpl. simpl in Hw. rewrite Hw.
    destruct (Z.geb_spec (uint32 (uint32 m - TimeOut l)) (MR_timeoutValue c)); [lia|].
    unfold bind, delay, emit, ret. simpl.
    erewrite (IH c l); [| exact Hst | exact Hms' | reflexivity | reflexivity].
    simpl. rewrite <- app_assoc. reflexivity.
Qed.

Lemma block_after_byte L :
  0 <= L ->
  (L / 128 + 1) * 128 <= L + 1 -> (L + 1) / 128 = L / 128 + 1.
Proof.
  intros HL Hfull.
  pose proof (Z.div_mod L 128 ltac:(lia)) as Hdm.
  pose proof (Z.mod_pos_bound L 128 ltac:(lia)) as Hr.
  symmetry. apply (Z.div_unique (L + 1) 128 (L / 128 + 1) 0); lia.
Qed.

Lemma block_same_byte L :
  0 <= L ->
  L + 1 < (L / 128 + 1) * 128 -> (L + 1) / 128 = L / 128.
Proof.
  intros HL Hroom.
  pose proof (Z.div_mod L 128 ltac:(lia)) as Hdm.
  pose proof (Z.mod_pos_bound L 128 ltac:(lia)) as Hr.
  symmetry. apply (Z.div_unique (L + 1) 128 (L / 128) (L mod 128 + 1)); lia.
Qed.

(** IN_PACKET, the inner loop, on a burst: as long as [available()] is
    not zero a byte is read and stored, and the clock reading taken
    after it becomes the time of the last bus activity.  The buffer
    grows by one block of 128 bytes whenever it is full, so that the
    block count is the number of bytes over 128, plus one; there are at
    most 255 blocks. *)
Lemma in_packet_read_burst rest_us rest_av rest_rd frame : forall ns ts fuel c l w,
  length ns = length frame -> length ts = length frame ->
  Forall (fun n => n <> 0) ns ->
  (length frame <= fuel)%nat ->
  bufferBlocks l = Z.of_nat (length (buffer l)) / 128 + 1 ->
  Z.of_nat (length (buffer l)) + Z.of_nat (length frame) < 32640 ->
  w_available w = ns ++ 0 :: rest_av ->
  w_read w = frame ++ rest_rd ->
  w_micros w = ts ++ rest_us ->
  in_packet_read fuel c l w =
    Some ((stamp ts c,
           set_buffer (buffer l ++ map uint8 frame)
             ((Z.of_nat (length (buffer l)) + Z.of_nat (length frame)) / 128 + 1) l),
          mkWorld rest_us (w_millis w) rest_av rest_rd (w_trace w)).
Proof.
  induction frame as [|b frame IH];
    intros ns ts fuel c l w Hns Hts Hnz Hfuel Hblocks Hroom Hav Hrd Hus.
  - destruct ns; [|discriminate]. destruct ts; [|discriminate].
    simpl in Hav, Hrd, Hus.
    assert (E : in_packet_read fuel c l w =
                bind serial_available
                  (fun n => if n =? 0 then ret (c, l) else
                            match fuel with O => fail | S _ => fail end) w).
    { destruct fuel; simpl; unfold bind, serial_available; rewrite Hav; reflexivity. }
    rewrite E. unfold bind, serial_available. rewrite Hav. simpl. unfold ret.
    rewrite app_nil_r, Z.add_0_r, <- Hblocks, <- Hrd, <- Hus. destruct l; reflexivity.
  - destruct ns as [|n ns]; [discriminate|]. destruct ts as [|t ts]; [discriminate|].
    destruct fuel as [|fuel]; [simpl in Hfuel; lia|].
    inversion Hnz as [|? ? Hn Hnz']; subst.
    simpl in Hav, Hrd, Hus, Hns, Hts, Hfuel.
    set (L := Z.of_nat (length (buffer l))) in *.
    assert (HL : 0 <= L) by (unfold L; lia).
    assert (Hlen : Z.of_nat (length (b :: frame)) = Z.of_nat (length frame) + 1)
      by (simpl length; lia).
    rewrite Hlen in Hroom.
    assert (Hq : 0 <= L / 128) by (apply Z.div_pos; lia).
    assert (Hlt : L < (L / 128 + 1) * 128).
    { pose proof (Z.div_mod L 128 ltac:(lia)). pose proof (Z.mod_pos_bound L 128 ltac:(lia)).
      lia. }
    cbn [in_packet_read]. unfold bind at 1. unfold serial_available. rewrite Hav.
    destruct (Z.eqb_spec n 0) as [|_]; [contradiction|].
    unfold bind at 1. unfold serial_read. cbn [w_read]. rewrite Hrd.
    assert (Hbl : Z.of_nat (length (buffer l ++ [uint8 b])) = L + 1)
      by (rewrite length_app; simpl length; unfold L; lia).
    rewrite Hbl, Hblocks. unfold BUFBLOCKSIZE.
    assert (Hnext :
      (if L + 1 >=? (L / 128 + 1) * 128
       then if uint8 (L / 128 + 1 + 1) =? 0
            then fail else ret (uint8 (L / 128 + 1 + 1))
       else ret (L / 128 + 1)) = ret ((L + 1) / 128 + 1)).
    { destruct (Z.geb_spec (L + 1) ((L / 128 + 1) * 128)) as [Hfull|Hfree].
      - rewrite (block_after_byte L HL Hfull).
        assert (Hsmall : L / 128 + 1 + 1 <= 255) by lia.
        unfold uint8. rewrite Z.mod_small by lia.
        destruct (Z.eqb_spec (L / 128 + 1 + 1) 0); [lia | reflexivity].
      - rewrite (block_same_byte L HL Hfree). reflexivity. }
    rewrite Hnext.
    unfold bind, ret, micros. cbn [w_micros w_millis w_available w_read w_trace].
    rewrite Hus.
    erewrite (IH ns ts fuel);
      [| lia | lia | exact Hnz' | lia
       | cbn [set_buffer buffer bufferBlocks]; rewrite Hbl; reflexivity
       | cbn [set_buffer buffer]; rewrite Hbl; lia
       | reflexivity | reflexivity | reflexivity].
    cbn [set_buffer buffer bufferBlocks state TimeOut errorCode response
         w_micros w_millis w_available w_read w_trace map].
    rewrite Hbl, Hlen, <- app_assoc.
    replace (L + 1 + Z.of_nat (length frame)) with (L + (Z.of_nat (length frame) + 1)) by lia.
    reflexivity.
Qed.

(** WAIT_DATA when the first byte is there. *)
Lemma wait_data_first_byte request k c l w n0 rest_av t2 rest_us :
  state l = WAIT_DATA ->
  w_available w = n0 :: rest_av -> n0 <> 0 ->
  w_micros w = t2 :: rest_us ->
  receive_loop calcCRC (S k) request c l w =
  receive_loop calcCRC k request (set_lastMicros (uint32 t2) c) (set_state IN_PACKET l)
    (mkWorld rest_us (w_millis w) rest_av (w_read w) (w_trace w ++ [EvDelay 1])).
Proof.
  intros Hst Hav Hn0 Hus.
  rewrite receive_loop_turn by (rewrite Hst; discriminate).
  unfold receive_step. rewrite Hst.
  unfold bind, serial_available. rewrite Hav.
  destruct (Z.eqb_spec n0 0) as [|_]; [contradiction|].
  unfold micros, delay, emit, ret. cbn [negb w_micros w_millis w_available w_read w_trace].
  rewrite Hus. reflexivity.
Qed.

(** IN_PACKET when the inner loop is followed by a silent interval. *)
Lemma in_packet_gap request k c l w c1 l1 w1 t_gap rest_us :
  state l = IN_PACKET ->
  in_packet_read (length (w_available w)) c l w = Some (c1, l1, w1) ->
  w_micros w1 = t_gap :: rest_us ->
  MR_interval c1 <= uint32 (uint32 t_gap - MR_lastMicros c1) ->
  receive_loop calcCRC (S k) request c l w =
  receive_loop calcCRC k request c1 (set_state DATA_READ l1)
    (mkWorld rest_us (w_millis w1) (w_available w1) (w_read w1) (w_trace w1)).
Proof.
  intros Hst Hread Hus Hgap.
  rewrite receive_loop_turn by (rewrite Hst; discriminate).
  unfold receive_step. rewrite Hst.
  unfold bind, available_left. cbn beta iota. rewrite Hread. cbn beta iota.
  unfold micros. rewrite Hus.
  destruct (Z.geb_spec (uint32 (uint32 t_gap - MR_lastMicros c1)) (MR_interval c1)); [|lia].
  reflexivity.
Qed.

Lemma data_read_turn request k c l w :
  state l = DATA_READ ->
  receive_loop calcCRC (S k) request c l w =
  receive_loop calcCRC k request c (data_read calcCRC request l) w.
Proof.
  intros Hst. rewrite receive_loop_turn by (rewrite Hst; discriminate).
  unfold receive_step. rewrite Hst. reflexivity.
Qed.

(** X16.  An answer that arrives in one burst is returned.  The line is
    polled once a millisecond while it is empty and the timeout not
    over; once [available()] is not zero, a byte is read for every
    non-zero answer; when [available()] is zero and the clock shows an
    interval since the reading taken after the last byte, the bytes read
    are checked.  If they are a frame of fewer than 32640 bytes (the
    most the buffer of 255 blocks takes) with the request's server id
    and function code and a matching CRC, [receive] returns the frame
    without its CRC, has consumed exactly its bytes, and has done
    nothing to the outside but wait. *)
Theorem receive_returns_answer request c w body
    early t1 t2 ts t_last t_gap t_end rest_us start ms rest_ms n0 ns rest_av rest_rd :
  Forall is_byte body -> (3 <= length body)%nat -> Z.of_nat (length body) + 2 < 32640 ->
  nth 0 body 0 = RTURequest.serverID request ->
  Z.land (nth 1 body 0) 127 = RTURequest.functionCode request ->
  w_read w = append_crc calcCRC body ++ rest_rd ->
  w_millis w = start :: ms ++ rest_ms ->
  Forall (fun m => uint32 (uint32 m - uint32 start) < MR_timeoutValue c) ms ->
  w_available w = repeat 0 (length ms) ++ n0 :: ns ++ 0 :: rest_av ->
  n0 <> 0 -> Forall (fun n => n <> 0) ns -> length ns = (length body + 2)%nat ->
  w_micros w = early ++ t1 :: t2 :: ts ++ t_last :: t_gap :: t_end :: rest_us ->
  length ts = (length body + 1)%nat ->
  Forall (fun x => uint32 (uint32 x - MR_lastMicros c) < MR_interval c) early ->
  MR_interval c <= uint32 (uint32 t1 - MR_lastMicros c) ->
  MR_interval c <= uint32 (uint32 t_gap - uint32 t_last) ->
  receive calcCRC request c w =
    Some (set_lastMicros (uint32 t_end) c,
          Some (RTUResponse.mk body (calcCRC body)),
          mkWorld rest_us rest_ms rest_av rest_rd
            (w_trace w ++ repeat (EvDelayMicroseconds 1) (length early)
                       ++ repeat (EvDelay 1) (length ms) ++ [EvDelay 1])).
Proof.
  intros Hbody Hlen Hshort Hsid Hfc Hrd Hms Hwait Hav Hn0 Hns Hnsl Hus Htsl
    Hearly Hexit Hgap.
  set (frame := append_crc calcCRC body) in *.
  assert (Hframe : Forall is_byte frame) by (apply append_crc_bytes; assumption).
  assert (Hfl : length frame = (length body + 2)%nat)
    by (unfold frame, append_crc; rewrite length_app; simpl; lia).
  assert (Hread : forall blocks,
    state (data_read calcCRC request
             (mkRx frame blocks DATA_READ (uint32 start) SUCCESS None)) = FINISHED /\
    response (data_read calcCRC request
                (mkRx frame blocks DATA_READ (uint32 start) SUCCESS None)) =
      Some (RTUResponse.mk body (calcCRC body))).
  { intros blocks.
    pose proof (data_read_spec calcCRC calcCRC_range request
                  (mkRx frame blocks DATA_READ (uint32 start) SUCCESS None) Hframe) as Hspec.
    simpl in Hspec. unfold frame in Hspec at 1.
    rewrite (frame_accepted calcCRC calcCRC_range request body Hbody Hlen Hsid Hfc) in Hspec.
    fold frame in Hspec. destruct Hspec as (Hst & Hresp & _). auto. }
  set (w1 := mkWorld (t_end :: rest_us) rest_ms rest_av rest_rd
               (w_trace w ++ repeat (EvDelayMicroseconds 1) (length early)
                          ++ repeat (EvDelay 1) (length ms) ++ [EvDelay 1])).
  set (c1 := stamp (ts ++ [t_last]) (set_lastMicros (uint32 t2) c)).
  set (w0 := mkWorld (w_micros w) (ms ++ rest_ms) (w_available w) (w_read w) (w_trace w)).
  assert (Hloop : exists blocks,
            receive_loop calcCRC (length early + S (length ms + 3)) request c
              (rx_init (uint32 start)) w0 =
            Some (c1,
                  data_read calcCRC request
                    (mkRx frame blocks DATA_READ (uint32 start) SUCCESS None),
                  w1)).
  { eexists.
    erewrite (wait_interval_runs calcCRC request t1 _ _ early c);
      [| reflexivity | exact Hearly | exact Hexit | exact Hus].
    erewrite (wait_data_idle request 3 ms c);
      [| reflexivity | exact Hwait | reflexivity | exact Hav].
    erewrite (wait_data_first_byte request 2); [| reflexivity | reflexivity | exact Hn0 | reflexivity].
    erewrite (in_packet_gap request 1 _ _ _ c1);
      [| reflexivity
       | apply (in_packet_read_burst (t_gap :: t_end :: rest_us) rest_av rest_rd frame
                  ns (ts ++ [t_last]));
         [ lia | rewrite length_app; simpl; lia | exact Hns
         | simpl; rewrite length_app; simpl; lia
         | reflexivity
         | cbn [buffer set_state rx_init length]; lia
         | reflexivity | exact Hrd
         | simpl; rewrite <- app_assoc; reflexivity ]
       | reflexivity
       | ].
    2:{ assert (Hlast : MR_lastMicros c1 = uint32 t_last)
          by (unfold c1; rewrite stamp_snoc; reflexivity).
        assert (Hint : MR_interval c1 = MR_interval c).
        { pose proof (stamp_config (ts ++ [t_last]) (set_lastMicros (uint32 t2) c)) as Hc.
          fold c1 in Hc. rewrite Hc. reflexivity. }
        rewrite Hlast, Hint. exact Hgap. }
    rewrite data_read_turn by reflexivity.
    cbn [buffer rx_init bufferBlocks TimeOut errorCode response app state
         set_state set_buffer w_millis w_available w_read w_trace].
    rewrite (map_uint8_bytes frame Hframe).
    rewrite receive_loop_done by apply Hread.
    unfold w1, w0. cbn [w_millis w_read w_trace].
    rewrite <- !app_assoc. reflexivity. }
  destruct Hloop as [blocks Hloop]. destruct (Hread blocks) as [_ Hresp].
  apply (receive_bound_enough calcCRC) in Hloop. unfold w0 in Hloop.
  cbn [w_micros w_available] in Hloop.
  unfold receive. unfold bind at 1. unfold millis. rewrite Hms.
  unfold bind at 1. unfold micros_left. unfold bind at 1. unfold available_left.
  cbn [w_micros w_available].
  unfold bind at 1. rewrite Hloop.
  unfold bind, micros, ret, w1. cbn [w_micros w_millis w_available w_read w_trace].
  rewrite Hresp. f_equal. f_equal. f_equal.
  unfold c1. rewrite stamp_snoc.
  pose proof (stamp_config ts (set_lastMicros (uint32 t2) c)) as Hc.
  rewrite Hc. reflexivity.
Qed.

End ReceiveAnswer.

(* ===================================================================== *)
(** ** Start-up, the wire format and the worker loop *)
(* ===================================================================== *)

(** X17.  [begin], for a baud rate that is not zero: if there is a
    direction pin it is made an output and set low, then the worker task
    is created, and nothing else is done to the outside.  The interval
    set is between 1000 and 40000000 microseconds: 1000 from 40000 baud
    on, 40000000 divided by the baud rate up to 40000 baud.  Nothing
    else of the client changes. *)
Theorem begin_pin_task_interval baudRate c w :
  0 < baudRate < 4294967296 ->
  exists i,
    begin baudRate c w =
      Some (set_interval i c,
            mkWorld (w_micros w) (w_millis w) (w_available w) (w_read w)
              (w_trace w
               ++ (if 0 <=? MR_rtsPin c
                   then [EvPinMode (MR_rtsPin c); EvDigitalWrite (MR_rtsPin c) false]
                   else [])
               ++ [EvTaskCreate])) /\
    1000 <= i <= 40000000 /\
    (40000 <= baudRate -> i = 1000) /\
    (baudRate <= 40000 -> i = 40000000 / baudRate).
Proof.
  intros Hb.
  assert (Hq : 0 <= 40000000 / baudRate <= 40000000).
  { split; [apply Z.div_pos; lia|]. apply Z.div_le_upper_bound; [lia|]. nia. }
  assert (Hfast : 40000 <= baudRate -> 40000000 / baudRate <= 1000).
  { intros Hf. apply Z.lt_succ_r. apply Z.div_lt_upper_bound; lia. }
  assert (Hslow : baudRate <= 40000 -> 1000 <= 40000000 / baudRate).
  { intros Hs. apply Z.div_le_lower_bound; lia. }
  exists (Z.max 1000 (40000000 / baudRate)).
  split; [|split; [lia | split; intros; lia]].
  unfold begin. destruct (Z.eqb_spec baudRate 0) as [->|_]; [lia|].
  unfold uint32. rewrite Z.mod_small by lia.
  replace (if 40000000 / baudRate <? 1000 then 1000 else 40000000 / baudRate)
    with (Z.max 1000 (40000000 / baudRate))
    by (destruct (Z.ltb_spec (40000000 / baudRate) 1000); lia).
  destruct (0 <=? MR_rtsPin c);
    unfold bind, pinMode, digitalWrite, emit, ret; simpl;
    rewrite <- ?app_assoc; reflexivity.
Qed.

Lemma send_wait_trace fuel c : forall w u w',
  send_wait fuel c w = Some (u, w') ->
  exists k,
    w_trace w' = w_trace w ++ repeat (EvDelayMicroseconds 1) k /\
    w_millis w' = w_millis w /\ w_available w' = w_available w /\ w_read w' = w_read w.
Proof.
  induction fuel as [|fuel IH]; intros w u w' Hrun; simpl in Hrun;
    unfold bind, micros in Hrun;
    destruct (w_micros w) as [|t ts] eqn:Hw; try discriminate;
    destruct (Z.ltb_spec (uint32 (uint32 t - MR_lastMicros c)) (MR_interval c)) as [Hlt|Hge].
  - discriminate.
  - inversion Hrun; subst. exists 0%nat. simpl. rewrite app_nil_r. auto.
  - simpl in Hrun. apply IH in Hrun as (k & Ht & Hm & Ha & Hr). simpl in *.
    exists (S k). rewrite Ht, <- app_assoc. auto.
  - inversion Hrun; subst. exists 0%nat. simpl. rewrite app_nil_r. auto.
Qed.

Lemma wire_bytes_app t1 t2 : wire_bytes (t1 ++ t2) = wire_bytes t1 ++ wire_bytes t2.
Proof. unfold wire_bytes. apply flat_map_app. Qed.

Lemma wire_bytes_delays k : wire_bytes (repeat (EvDelayMicroseconds 1) k) = [].
Proof. induction k; simpl; auto. Qed.

Section Wire.
Context `{EC : ErrorCodes}.

(** X18.  Whenever [send] returns, what it has put on the serial line is
    byte for byte the vector [vectorize] gives for the request: the
    message, then the CRC low byte, then the CRC high byte.  Before the
    first byte it has only waited and raised the direction pin, if there
    is one; it has read nothing and asked neither [millis()] nor
    [available()]. *)
Theorem send_writes_the_vector request c w c' w' :
  send request c w = Some (c', w') ->
  wire_bytes (w_trace w') = wire_bytes (w_trace w) ++ vectorize (Some request) SUCCESS /\
  (exists k,
     w_trace w' =
       w_trace w ++ repeat (EvDelayMicroseconds 1) k
       ++ (if 0 <=? MR_rtsPin c then [EvDigitalWrite (MR_rtsPin c) true] else [])
       ++ [EvSerialWrite (RTURequest.data request);
           EvSerialWrite [Z.land (RTURequest.CRC request) 255];
           EvSerialWrite [Z.land (Z.shiftr (RTURequest.CRC request) 8) 255];
           EvSerialFlush]
       ++ (if 0 <=? MR_rtsPin c then [EvDigitalWrite (MR_rtsPin c) false] else [])) /\
  w_read w' = w_read w /\ w_millis w' = w_millis w /\ w_available w' = w_available w.
Proof.
  unfold send. unfold bind at 1. unfold micros_left. unfold bind at 1.
  destruct (send_wait (length (w_micros w)) c w) as [[u w1]|] eqn:Hwait; [|discriminate].
  apply send_wait_trace in Hwait as (k & Ht & Hm & Ha & Hr).
  intros Hrest.
  assert (Htrace :
    w_trace w' =
      w_trace w1
      ++ (if 0 <=? MR_rtsPin c then [EvDigitalWrite (MR_rtsPin c) true] else [])
      ++ [EvSerialWrite (RTURequest.data request);
          EvSerialWrite [Z.land (RTURequest.CRC request) 255];
          EvSerialWrite [Z.land (Z.shiftr (RTURequest.CRC request) 8) 255];
          EvSerialFlush]
      ++ (if 0 <=? MR_rtsPin c then [EvDigitalWrite (MR_rtsPin c) false] else []) /\
    w_read w' = w_read w1 /\ w_millis w' = w_millis w1 /\ w_available w' = w_available w1).
  { revert Hrest.
    destruct (0 <=? MR_rtsPin c);
      unfold bind, digitalWrite, serial_write, serial_flush, emit, ret, micros,
        crc_lo, crc_hi; simpl;
      destruct (w_micros w1) as [|t_done rest]; try discriminate;
      intros [= <- <-]; simpl; rewrite <- ?app_assoc; auto. }
  destruct Htrace as (Htr & Hr' & Hm' & Ha').
  rewrite Ht in Htr. rewrite <- app_assoc in Htr.
  split; [|split; [exists k; exact Htr | split; [|split]; congruence]].
  rewrite Htr, !wire_bytes_app, wire_bytes_delays.
  unfold vectorize. rewrite Z.eqb_refl.
  destruct (0 <=? MR_rtsPin c); simpl; rewrite ?app_nil_r; reflexivity.
Qed.

End Wire.

Section WorkerLoop.
Context `{EC : ErrorCodes}.
Variable calcCRC : list Z -> Z.

(** X19.  One pass of the worker loop over a queued request.  If [send]
    and [receive] return for the request at the front of the queue, six
    steps of the worker bring it back to the top of the loop: the
    request was sent, the response delivered by one call of [deliver],
    the front entry popped and the request object deleted; the rest of
    the queue, the other objects and the calls recorded are as before. *)
Theorem worker_serves_the_front s p q r c1 w1 c2 answer w2 :
  worker s = LoopTop ->
  requests (inst s) = p :: q ->
  heap s !! p = Some r ->
  send r (inst s) (world s) = Some (c1, w1) ->
  receive calcCRC r c1 w1 = Some (c2, answer, w2) ->
  exists resp w3,
    answer = Some resp /\
    deliver c2 r resp w2 = Some (tt, w3) /\
    run calcCRC (repeat WorkerTurn 6) s =
      Some (mkSystem (set_requests q c2) (delete p (heap s)) w3 LoopTop (calls s)).
Proof.
  intros Hpc Hq Hp Hsend Hrecv.
  destruct (receive_some_response calcCRC r c1 w1 c2 answer w2 Hrecv) as [resp ->].
  destruct (deliver_returns c2 r resp w2) as [[[] w3] Hdel].
  destruct (send_post r (inst s) (world s) _ _ Hsend) as [Hc1 _].
  destruct (receive_post calcCRC r c1 w1 _ _ Hrecv) as [Hc2 _]. simpl in Hc2.
  assert (Hq2 : requests c2 = p :: q).
  { rewrite (same_config_requests _ _ Hc2), (same_config_requests _ _ Hc1). exact Hq. }
  exists resp, w3. split; [reflexivity|]. split; [exact Hdel|].
  destruct s as [c h w pc cs]. simpl in *. subst pc.
  assert (E1 : handleConnection_step calcCRC (mkSystem c h w LoopTop cs) =
               Some (mkSystem c h w (Pulled p) cs))
    by (unfold handleConnection_step; simpl; rewrite Hq; reflexivity).
  assert (E2 : handleConnection_step calcCRC (mkSystem c h w (Pulled p) cs) =
               Some (mkSystem c1 h w1 (SentOut p) cs))
    by (unfold handleConnection_step; simpl; rewrite Hp; simpl; rewrite Hsend; reflexivity).
  assert (E3 : handleConnection_step calcCRC (mkSystem c1 h w1 (SentOut p) cs) =
               Some (mkSystem c2 h w2 (Answered p (Some resp)) cs))
    by (unfold handleConnection_step; simpl; rewrite Hp; simpl; rewrite Hrecv; reflexivity).
  assert (E4 : handleConnection_step calcCRC (mkSystem c2 h w2 (Answered p (Some resp)) cs) =
               Some (mkSystem c2 h w3 (Delivered p (Some resp)) cs))
    by (unfold handleConnection_step; simpl; rewrite Hp; simpl; rewrite Hdel; reflexivity).
  assert (E5 : handleConnection_step calcCRC (mkSystem c2 h w3 (Delivered p (Some resp)) cs) =
               Some (mkSystem (set_requests q c2) h w3 (Popped p (Some resp)) cs))
    by (unfold handleConnection_step; simpl; rewrite Hq2; reflexivity).
  rewrite E1. simpl. rewrite E2. simpl. rewrite E3. simpl. rewrite E4. simpl.
  rewrite E5. reflexivity.
Qed.

(** X20.  With nothing queued the worker only sleeps: every step at the
    top of the loop is one [delay(1)], and nothing else changes, for as
    long as no request is submitted. *)
Theorem idle_worker_sleeps n : forall s,
  worker s = LoopTop -> requests (inst s) = [] ->
  run calcCRC (repeat WorkerTurn n) s =
    Some (mkSystem (inst s) (heap s)
            (mkWorld (w_micros (world s)) (w_millis (world s)) (w_available (world s))
                     (w_read (world s)) (w_trace (world s) ++ repeat (EvDelay 1) n))
            LoopTop (calls s)).
Proof.
  induction n as [|n IH]; intros s Hpc Hq.
  - simpl. rewrite app_nil_r. destruct s as [c h [] pc cs]. simpl in *. subst. reflexivity.
  - simpl. unfold handleConnection_step. rewrite Hpc, Hq. simpl.
    rewrite IH by (simpl; auto). simpl. rewrite <- app_assoc. reflexivity.
Qed.

End WorkerLoop.

(* ===================================================================== *)
(** ** The theorems above on the example objects *)
(* ===================================================================== *)

Lemma receive_never_null_witness :
  receive (EC := example_codes) RTUCRC.calcCRC example_request
    (example_client 2 true true) (mkWorld [5000; 6000] [0; 2000] [0] [] []) =
    Some (mkClient 6000 2000 (-1) 2 2000 [] 0 true true,
          Some (RTUResponse.mk [1; 131; 224] 47168),
          mkWorld [] [] [] [] [EvDelay 1]) /\
  is_Some (Some (RTUResponse.mk [1; 131; 224] 47168)).
Proof.
  split; [vm_compute; reflexivity|].
  apply (receive_never_null (EC := example_codes) RTUCRC.calcCRC example_request
           (example_client 2 true true) (mkWorld [5000; 6000] [0; 2000] [0] [] [])
           (mkClient 6000 2000 (-1) 2 2000 [] 0 true true)
           (Some (RTUResponse.mk [1; 131; 224] 47168))
           (mkWorld [] [] [] [] [EvDelay 1])).
  vm_compute. reflexivity.
Defined.

Lemma receive_only_waits_witness :
  (exists ds, [EvDelay 1] = [] ++ ds /\ forallb is_delay ds = true) /\
  (exists consumed, example_reply = consumed ++ []) /\
  same_settings (example_client 2 true true)
    (mkClient 9100 2000 (-1) 2 2000 [] 0 true true) /\
  requests (mkClient 9100 2000 (-1) 2 2000 [] 0 true true) =
    requests (example_client 2 true true) /\
  messageCount (mkClient 9100 2000 (-1) 2 2000 [] 0 true true) =
    messageCount (example_client 2 true true).
Proof.
  apply (receive_only_waits (EC := example_codes) RTUCRC.calcCRC example_request
           (example_client 2 true true) answering_bus
           (mkClient 9100 2000 (-1) 2 2000 [] 0 true true)
           (Some (RTUResponse.mk [1; 3; 2; 0; 5] 18296))
           (mkWorld [] [] [] [] [EvDelay 1])).
  vm_compute. reflexivity.
Defined.

Lemma receive_buffer_complete_witness :
  exists consumed,
    example_reply = consumed ++ [] /\
    buffer (example_received FINISHED (Some (RTUResponse.mk [1; 3; 2; 0; 5] 18296))) =
      map uint8 consumed /\
    1 <= 1 <= 255 /\
    Z.of_nat (length consumed) < 1 * 128 /\
    Z.of_nat (length consumed) < 32640.
Proof.
  apply (receive_buffer_complete (EC := example_codes) RTUCRC.calcCRC example_request
           (example_client 2 true true) 0 20
           (mkWorld [5000; 6000; 6100; 6200; 6300; 6400; 6500; 6600; 6700; 9000; 9100]
                    [] [7; 7; 6; 5; 4; 3; 2; 1; 0] example_reply [])
           (mkClient 6700 2000 (-1) 2 2000 [] 0 true true)
           (example_received FINISHED (Some (RTUResponse.mk [1; 3; 2; 0; 5] 18296)))
           (mkWorld [9100] [] [] [] [EvDelay 1])).
  vm_compute. reflexivity.
Defined.

Lemma queue_within_capacity_witness :
  Z.of_nat (length (requests (inst example_answered))) <=
    Z.max 0 (MR_qLimit (inst (example_system true true))).
Proof.
  apply (queue_within_capacity (EC := example_codes) RTUCRC.calcCRC
           (take 4 example_schedule) (example_system true true) example_answered).
  - repeat split.
  - vm_compute. reflexivity.
Defined.

Lemma live_requests_are_queued_witness :
  NoDup (requests (inst example_answered)) /\
  (forall p, is_Some (heap example_answered !! p) <->
             p ∈ requests (inst example_answered) \/ p ∈ popped (worker example_answered)).
Proof.
  apply (live_requests_are_queued (EC := example_codes) RTUCRC.calcCRC
           (take 4 example_schedule) (example_system true true) example_answered).
  - repeat split.
  - vm_compute. reflexivity.
Defined.

Lemma worker_steps_are_safe_witness :
  is_Some (handleConnection_step (EC := example_codes) RTUCRC.calcCRC example_answered).
Proof.
  apply (worker_steps_are_safe (EC := example_codes) RTUCRC.calcCRC
           (take 4 example_schedule) (example_system true true) example_answered).
  - repeat split.
  - vm_compute. reflexivity.
Defined.

Lemma messageCount_counts_built_calls_witness :
  messageCount (inst example_timed_out) =
    uint32 (messageCount (inst (example_system true true)) + built_calls example_schedule).
Proof.
  apply (messageCount_counts_built_calls (EC := example_codes) RTUCRC.calcCRC
           example_schedule (example_system true true) example_timed_out).
  - simpl. lia.
  - vm_compute. reflexivity.
Defined.

Lemma destructor_empties_queue_witness :
  exists c' h',
    destructor (inst example_answered) (heap example_answered) = Some (c', h') /\
    requests c' = [] /\
    dom h' = popped (worker example_answered) /\
    (forall p, in_flight (worker example_answered) = Some p ->
               is_Some (heap example_answered !! p) /\ h' !! p = None) /\
    same_settings (inst example_answered) c' /\
    messageCount c' = messageCount (inst example_answered).
Proof.
  apply (destructor_empties_queue (EC := example_codes) RTUCRC.calcCRC
           (take 4 example_schedule) (example_system true true) example_answered).
  - repeat split.
  - vm_compute. reflexivity.
Defined.

Lemma own_frame_is_accepted_witness :
  (RTURequest.payload example_request <> [] ->
     state (data_read (EC := example_codes) RTUCRC.calcCRC example_request
              (mkRx [1; 3; 0; 0; 0; 1; 132; 10] 1 DATA_READ 0 0 None)) = FINISHED /\
     response (data_read (EC := example_codes) RTUCRC.calcCRC example_request
                 (mkRx [1; 3; 0; 0; 0; 1; 132; 10] 1 DATA_READ 0 0 None)) =
       Some (RTUResponse.mk (RTURequest.data example_request)
                            (RTURequest.CRC example_request))) /\
  (RTURequest.payload example_request = [] ->
     state (data_read (EC := example_codes) RTUCRC.calcCRC example_request
              (mkRx [1; 3; 0; 0; 0; 1; 132; 10] 1 DATA_READ 0 0 None)) = ERROR_EXIT /\
     errorCode (data_read (EC := example_codes) RTUCRC.calcCRC example_request
                  (mkRx [1; 3; 0; 0; 0; 1; 132; 10] 1 DATA_READ 0 0 None)) = 0xE5).
Proof.
  apply (own_frame_is_accepted (EC := example_codes) RTUCRC.calcCRC calcCRC_u16
           example_request (mkRx [1; 3; 0; 0; 0; 1; 132; 10] 1 DATA_READ 0 0 None)).
  - change (Forall is_byte [1; 3; 0; 0; 0; 1]).
    repeat (apply List.Forall_cons; [unfold is_byte; lia|]). apply List.Forall_nil.
  - simpl. lia.
  - vm_compute. reflexivity.
  - reflexivity.
Defined.

Lemma generated_error_is_delivered_witness :
  exists resp,
    state (data_read (EC := example_codes) RTUCRC.calcCRC example_request
             (mkRx [1; 131; 2; 192; 241] 1 DATA_READ 0 0 None)) = FINISHED /\
    response (data_read (EC := example_codes) RTUCRC.calcCRC example_request
                (mkRx [1; 131; 2; 192; 241] 1 DATA_READ 0 0 None)) = Some resp /\
    RTUResponse.getError (EC := example_codes) resp = 2 /\
    deliver (EC := example_codes) (example_client 2 true true) example_request resp
      (mkWorld [] [] [] [] []) =
      Some (tt, mkWorld [] [] [] [] [EvOnError 2 77]).
Proof.
  apply (generated_error_is_delivered (EC := example_codes) RTUCRC.calcCRC calcCRC_u16
           (fun _ _ => 0) example_request 2
           (mkRx [1; 131; 2; 192; 241] 1 DATA_READ 0 0 None)
           (example_client 2 true true) (mkWorld [] [] [] [] [])).
  - reflexivity.
  - unfold is_byte. simpl. lia.
  - simpl. lia.
  - unfold is_byte. lia.
  - simpl. lia.
  - vm_compute. reflexivity.
Defined.

Lemma raised_error_reaches_onError_witness :
  In 0xE0 (receive_errors (EC := example_codes)) /\
  exists resp,
    Some (RTUResponse.mk [1; 131; 224] 47168) = Some resp /\
    RTUResponse.getError (EC := example_codes) resp = 0xE0 /\
    forall c2 w2,
      deliver (EC := example_codes) c2 example_request resp w2 =
        (if onError c2 then emit (EvOnError 0xE0 77) else ret tt) w2.
Proof.
  apply (raised_error_reaches_onError (EC := example_codes) RTUCRC.calcCRC calcCRC_u16
           example_request 5 (example_client 2 true true) 0
           (mkWorld [5000; 6000] [2000] [0] [] [])
           (example_client 2 true true)
           (mkRx [] 1 FINISHED 0 0xE0 (Some (RTUResponse.mk [1; 131; 224] 47168)))
           (mkWorld [6000] [] [] [] [EvDelay 1])).
  - unfold is_byte. simpl. lia.
  - unfold is_byte. simpl. lia.
  - vm_compute. reflexivity.
  - simpl. lia.
Defined.

Lemma good_answer_reaches_onData_witness :
  exists resp,
    Some (RTUResponse.mk [1; 3; 2; 0; 5] 18296) = Some resp /\
    (5 <= length example_reply)%nat /\
    RTUResponse.bytes resp = rx_message example_reply /\
    RTUResponse.CRC resp = RTUCRC.calcCRC (RTUResponse.bytes resp) /\
    RTUResponse.getServerID resp = 1 /\
    Z.land (RTUResponse.getFunctionCode resp) 127 = 3 /\
    (Z.testbit (RTUResponse.getFunctionCode resp) 7 = false ->
     forall c2 w2,
       deliver (EC := example_codes) c2 example_request resp w2 =
         (if onData c2
          then emit (EvOnData 1 3 (rx_message example_reply)
                              (Z.of_nat (length example_reply) - 2) 77)
          else ret tt) w2).
Proof.
  apply (good_answer_reaches_onData (EC := example_codes) RTUCRC.calcCRC calcCRC_u16
           example_request 20 (example_client 2 true true) 0
           (mkWorld [5000; 6000; 6100; 6200; 6300; 6400; 6500; 6600; 6700; 9000; 9100]
                    [] [7; 7; 6; 5; 4; 3; 2; 1; 0] example_reply [])
           (mkClient 6700 2000 (-1) 2 2000 [] 0 true true)
           (example_received FINISHED (Some (RTUResponse.mk [1; 3; 2; 0; 5] 18296)))
           (mkWorld [9100] [] [] [] [EvDelay 1])).
  - unfold is_byte. simpl. lia.
  - unfold is_byte. simpl. lia.
  - vm_compute. reflexivity.
  - reflexivity.
Defined.

Lemma receive_times_out_witness :
  receive (EC := example_codes) RTUCRC.calcCRC example_request
    (example_client 2 true true) slow_silent_bus =
    Some (mkClient 6000 2000 (-1) 2 2000 [] 0 true true,
          Some (RTUResponse.mk [1; 131; 224] 47168),
          mkWorld [] [] [] []
            [EvDelayMicroseconds 1; EvDelay 1; EvDelay 1; EvDelay 1]).
Proof.
  apply (receive_times_out (EC := example_codes) RTUCRC.calcCRC example_request
           (example_client 2 true true) slow_silent_bus
           [100] 5000 6000 [] 0 [500; 1000] 2000 [] []).
  - reflexivity.
  - apply List.Forall_cons; [vm_compute; reflexivity | apply List.Forall_nil].
  - vm_compute. discriminate.
  - reflexivity.
  - repeat (apply List.Forall_cons; [vm_compute; reflexivity|]). apply List.Forall_nil.
  - vm_compute. discriminate.
  - reflexivity.
Defined.

Lemma receive_returns_answer_witness :
  receive (EC := example_codes) RTUCRC.calcCRC example_request
    (example_client 2 true true) answering_bus =
    Some (mkClient 9100 2000 (-1) 2 2000 [] 0 true true,
          Some (RTUResponse.mk [1; 3; 2; 0; 5] 18296),
          mkWorld [] [] [] [] [EvDelay 1]).
Proof.
  apply (receive_returns_answer (EC := example_codes) RTUCRC.calcCRC calcCRC_u16
           example_request (example_client 2 true true) answering_bus [1; 3; 2; 0; 5]
           [] 5000 6000 [6100; 6200; 6300; 6400; 6500; 6600] 6700 9000 9100 []
           0 [] [] 7 [7; 6; 5; 4; 3; 2; 1] [] []).
  - repeat (apply List.Forall_cons; [unfold is_byte; lia|]). apply List.Forall_nil.
  - simpl. lia.
  - simpl. lia.
  - reflexivity.
  - reflexivity.
  - vm_compute. reflexivity.
  - reflexivity.
  - apply List.Forall_nil.
  - reflexivity.
  - lia.
  - repeat (apply List.Forall_cons; [lia|]). apply List.Forall_nil.
  - reflexivity.
  - reflexivity.
  - reflexivity.
  - apply List.Forall_nil.
  - vm_compute. discriminate.
  - vm_compute. discriminate.
Defined.

Lemma begin_pin_task_interval_witness :
  exists i,
    begin 9600 (mkClient 0 2000 4 2 2000 [] 0 true true) (mkWorld [] [] [] [] []) =
      Some (set_interval i (mkClient 0 2000 4 2 2000 [] 0 true true),
            mkWorld [] [] [] [] [EvPinMode 4; EvDigitalWrite 4 false; EvTaskCreate]) /\
    1000 <= i <= 40000000 /\
    (40000 <= 9600 -> i = 1000) /\
    (9600 <= 40000 -> i = 40000000 / 9600).
Proof.
  apply (begin_pin_task_interval 9600 (mkClient 0 2000 4 2 2000 [] 0 true true)
           (mkWorld [] [] [] [] [])).
  lia.
Defined.

Lemma send_writes_the_vector_witness :
  wire_bytes [EvDelayMicroseconds 1; EvDigitalWrite 4 true;
              EvSerialWrite [1; 3; 0; 0; 0; 1]; EvSerialWrite [132]; EvSerialWrite [10];
              EvSerialFlush; EvDigitalWrite 4 false] =
    wire_bytes [] ++ vectorize (EC := example_codes) (Some example_request) 0 /\
  (exists k,
     [EvDelayMicroseconds 1; EvDigitalWrite 4 true;
      EvSerialWrite [1; 3; 0; 0; 0; 1]; EvSerialWrite [132]; EvSerialWrite [10];
      EvSerialFlush; EvDigitalWrite 4 false] =
       [] ++ repeat (EvDelayMicroseconds 1) k
       ++ [EvDigitalWrite 4 true]
       ++ [EvSerialWrite [1; 3; 0; 0; 0; 1]; EvSerialWrite [132]; EvSerialWrite [10];
           EvSerialFlush]
       ++ [EvDigitalWrite 4 false]) /\
  @nil Z = [] /\ @nil Z = [] /\ @nil Z = [].
Proof.
  apply (send_writes_the_vector (EC := example_codes) example_request
           (mkClient 0 2000 4 2 2000 [] 0 true true)
           (mkWorld [100; 2500; 3000; 3001] [] [] [] [])
           (mkClient 3000 2000 4 2 2000 [] 0 true true)
           (mkWorld [3001] [] [] []
              [EvDelayMicroseconds 1; EvDigitalWrite 4 true;
               EvSerialWrite [1; 3; 0; 0; 0; 1]; EvSerialWrite [132]; EvSerialWrite [10];
               EvSerialFlush; EvDigitalWrite 4 false])).
  vm_compute. reflexivity.
Defined.

Lemma worker_serves_the_front_witness :
  exists resp w3,
    Some (RTUResponse.mk [1; 131; 224] 47168) = Some resp /\
    deliver (EC := example_codes) (mkClient 10000 2000 (-1) 2 2000 [0%nat] 1 true true)
      example_request resp (mkWorld [] [] [] [] silent_bus_trace) = Some (tt, w3) /\
    run (EC := example_codes) RTUCRC.calcCRC (repeat WorkerTurn 6) example_queued =
      Some (mkSystem (set_requests [] (mkClient 10000 2000 (-1) 2 2000 [0%nat] 1 true true))
              (delete 0%nat (heap example_queued)) w3 LoopTop (calls example_queued)).
Proof.
  apply (worker_serves_the_front (EC := example_codes) RTUCRC.calcCRC example_queued
           0%nat [] example_request
           (mkClient 6000 2000 (-1) 2 2000 [0%nat] 1 true true)
           (mkWorld [9000; 10000] [0; 2000] [0] []
              [EvSerialWrite [1; 3; 0; 0; 0; 1]; EvSerialWrite [132]; EvSerialWrite [10];
               EvSerialFlush])
           (mkClient 10000 2000 (-1) 2 2000 [0%nat] 1 true true)
           (Some (RTUResponse.mk [1; 131; 224] 47168))
           (mkWorld [] [] [] [] silent_bus_trace)).
  - reflexivity.
  - reflexivity.
  - reflexivity.
  - vm_compute. reflexivity.
  - vm_compute. reflexivity.
Defined.

Lemma idle_worker_sleeps_witness :
  run (EC := example_codes) RTUCRC.calcCRC (repeat WorkerTurn 3) (example_system true true) =
    Some (mkSystem (example_client 2 true true) ∅
            (mkWorld [5000; 6000; 9000; 10000] [0; 2000] [0] []
                     [EvDelay 1; EvDelay 1; EvDelay 1])
            LoopTop []).
Proof.
  apply (idle_worker_sleeps (EC := example_codes) RTUCRC.calcCRC 3 (example_system true true)).
  - reflexivity.
  - reflexivity.
Defined.
